(** * Media Download Utility API: the extraction core, embedded in Rocq

    The development follows the TypeScript sources:
    - [src/processor/extractvideo.ts] : the orchestrator [extractVideo];
    - [src/processor/platform/youtube.ts] : the video id of a link, the
      watch page, cipher decoding and the YouTube format normalizer;
    - [src/processor/platform/tiktok.ts] : the cleaning of a link and the
      TikTok fallback chain;
    - [src/mdu.ts] : the [/extract] and [/formats] handlers.

    Module [JS] holds the parts of the JavaScript run time the sources call
    (strings, numbers, [parseInt], [Array.prototype.sort], regular
    expressions, the URL coding functions). *)

From Stdlib Require Import ZArith NArith List Ascii String Bool Lia.
From Stdlib Require Import Permutation Sorted DecimalString.
Import ListNotations.

(* ================================================================== *)
(** * The JavaScript run time used by the sources *)
(* ================================================================== *)

Module JS.

Local Open Scope N_scope.

(** ** Strings

    A JavaScript string is a sequence of 16-bit code units.  A code unit is
    kept as an [N] below [65536]. *)

Definition char := N.
Definition jsstring := list char.

Definition chr (a : ascii) : char := N_of_ascii a.

(** [js "text"] is the string literal ['text']. *)
Definition js (s : string) : jsstring := map chr (list_ascii_of_string s).

Fixpoint str_eqb (s t : jsstring) : bool :=
  match s, t with
  | [], [] => true
  | c :: s', d :: t' => (c =? d) && str_eqb s' t'
  | _, _ => false
  end.

(** Truthiness of a string: the empty string is falsy. *)
Definition nonempty (s : jsstring) : bool :=
  match s with [] => false | _ :: _ => true end.

(** [String.prototype.startsWith]. *)
Fixpoint startsWith (prefix s : jsstring) : bool :=
  match prefix, s with
  | [], _ => true
  | p :: prefix', c :: s' => (p =? c) && startsWith prefix' s'
  | _ :: _, [] => false
  end.

(** [String.prototype.includes]. *)
Fixpoint includes (needle s : jsstring) : bool :=
  startsWith needle s ||
  match s with
  | [] => false
  | _ :: s' => includes needle s'
  end.

(** [String.prototype.split] with a string separator.  [skip] counts the code
    units of a separator occurrence still to be passed over, [cur] is the
    piece being read, in reverse. *)
Fixpoint split_go (sep : jsstring) (skip : nat) (cur : jsstring)
  (s : jsstring) : list jsstring :=
  match s with
  | [] => [rev cur]
  | c :: s' =>
      match skip with
      | S k => split_go sep k cur s'
      | O =>
          if startsWith sep s
          then rev cur :: split_go sep (Nat.pred (List.length sep)) [] s'
          else split_go sep 0 (c :: cur) s'
      end
  end.

Definition split (sep s : jsstring) : list jsstring :=
  match sep with
  | [] => map (fun c => [c]) s
  | _ :: _ => split_go sep 0 [] s
  end.

(** [Array.prototype.join]. *)
Fixpoint join (sep : jsstring) (parts : list jsstring) : jsstring :=
  match parts with
  | [] => []
  | [p] => p
  | p :: rest => p ++ sep ++ join sep rest
  end.

(** [String.prototype.replace] with a string pattern: the first occurrence
    only. *)
Fixpoint replace_go (pat by_ : jsstring) (skip : nat) (done : bool)
  (s : jsstring) : jsstring :=
  match s with
  | [] => []
  | c :: s' =>
      match skip with
      | S k => replace_go pat by_ k done s'
      | O =>
          if negb done && startsWith pat s
          then by_ ++ replace_go pat by_ (Nat.pred (List.length pat)) true s'
          else c :: replace_go pat by_ 0 done s'
      end
  end.

Definition replace (pat by_ s : jsstring) : jsstring :=
  match pat with
  | [] => by_ ++ s
  | _ :: _ => replace_go pat by_ 0 false s
  end.

(** White space and line terminators, as [trim], [parseInt] and the regular
    expression class [\s] read them. *)
Definition is_space (c : char) : bool :=
  ((9 <=? c) && (c <=? 13)) || (c =? 32) || (c =? 160) || (c =? 5760)
  || ((8192 <=? c) && (c <=? 8202)) || (c =? 8232) || (c =? 8233)
  || (c =? 8239) || (c =? 8287) || (c =? 12288) || (c =? 65279).

Fixpoint trimStart (s : jsstring) : jsstring :=
  match s with
  | c :: s' => if is_space c then trimStart s' else s
  | [] => []
  end.

Definition trim (s : jsstring) : jsstring :=
  rev (trimStart (rev (trimStart s))).

Definition is_digit (c : char) : bool := (48 <=? c) && (c <=? 57).

(** ** Numbers

    A number is an integer or [NaN].  The sources only produce numbers by
    [parseInt], by subtraction and from integer literals; the model is
    exact as long as the integers stay within the range a double holds
    exactly (up to [2^53]). *)

Inductive number : Type :=
| Num (z : Z)
| NaN.

(** Truthiness of a number: [0] and [NaN] are falsy. *)
Definition num_truthy (n : number) : bool :=
  match n with
  | Num z => negb (z =? 0)%Z
  | NaN => false
  end.

Definition num_sub (a b : number) : number :=
  match a, b with
  | Num x, Num y => Num (x - y)
  | _, _ => NaN
  end.

(** [isNaN]. *)
Definition isNaN (n : number) : bool :=
  match n with NaN => true | Num _ => false end.

(** The decimal text of an integer, as a template literal prints it. *)
Definition Z_to_js (z : Z) : jsstring :=
  js (NilZero.string_of_int (Z.to_int z)).

(** The value of a digit in the given radix. *)
Definition digit_value (radix : N) (c : char) : option N :=
  let v :=
    if (48 <=? c) && (c <=? 57) then Some (c - 48)
    else if (97 <=? c) && (c <=? 122) then Some (c - 87)
    else if (65 <=? c) && (c <=? 90) then Some (c - 55)
    else None in
  match v with
  | Some d => if d <? radix then Some d else None
  | None => None
  end.

(** The longest prefix of digits, folded into its value; [None] when the
    prefix is empty. *)
Fixpoint digits_value (radix : N) (acc : option N) (s : jsstring) : option N :=
  match s with
  | [] => acc
  | c :: s' =>
      match digit_value radix c with
      | Some d =>
          digits_value radix
            (Some (match acc with Some a => a * radix + d | None => d end)) s'
      | None => acc
      end
  end.

(** [parseInt(s)]: leading white space is skipped, a sign is read, [0x]
    selects radix 16, and the longest prefix of digits is the value. *)
Definition parseInt (s : jsstring) : number :=
  let s := trimStart s in
  let '(negative, s) :=
    match s with
    | c :: s' =>
        if c =? chr "-" then (true, s')
        else if c =? chr "+" then (false, s')
        else (false, s)
    | [] => (false, s)
    end in
  let '(radix, s) :=
    match s with
    | z :: x :: s' =>
        if (z =? chr "0") && ((x =? chr "x") || (x =? chr "X"))
        then (16, s') else (10, s)
    | _ => (10, s)
    end in
  match digits_value radix None s with
  | Some v => Num (if negative then - Z.of_N v else Z.of_N v)
  | None => NaN
  end.

(** ** Results of a computation that may throw *)

Inductive result (A : Type) : Type :=
| Ok (value : A)
| Throw (message : jsstring).
Arguments Ok {A} value.
Arguments Throw {A} message.

Definition bind {A B : Type} (r : result A) (k : A -> result B) : result B :=
  match r with
  | Ok a => k a
  | Throw m => Throw m
  end.

Definition is_ok {A : Type} (r : result A) : bool :=
  match r with Ok _ => true | Throw _ => false end.

(** [try { body } catch (error) { throw new Error(prefix + error.message) }]. *)
Definition rethrow {A : Type} (prefix : jsstring) (body : result A) : result A :=
  match body with
  | Ok a => Ok a
  | Throw m => Throw (prefix ++ m)
  end.

(** ** [Array.prototype.sort]

    The sort is stable, and a comparator result that is [NaN] counts as
    [0].  For a consistent comparator the sorted array is determined by
    these two facts, whatever algorithm the engine runs, and [sort] (a
    stable insertion sort) computes it.  For a comparator that is not
    consistent the engine's order is implementation-defined; [sort] is then
    one permutation among those an engine may produce. *)

Section Sort.
Context {A : Type}.
Variable comparefn : A -> A -> number.

(** [comparefn a b > 0]: [b] has to come before [a]. *)
Definition comes_after (a b : A) : bool :=
  match comparefn a b with
  | Num v => (0 <? v)%Z
  | NaN => false
  end.

Fixpoint insert (x : A) (l : list A) : list A :=
  match l with
  | [] => [x]
  | y :: l' => if comes_after x y then y :: insert x l' else x :: l
  end.

Definition sort (l : list A) : list A := fold_right insert [] l.

End Sort.

(** ** Regular expressions

    A pattern is a term; the constructors are the ones [/(\d+)p/] is
    written with: a literal code unit, a sequence, the greedy repetition of
    a character class, and the capturing group.  Matching is by
    backtracking, the longest repetition first, as the language defines
    it. *)

Inductive regex : Type :=
| Chr (c : char)
| Seq (r1 r2 : regex)
| Rep (p : char -> bool) (least : nat)
| Group (r : regex).

Section Match.
Context {R : Type}.

(** [p*], [p+]: as many code units of the class as possible, then fewer. *)
Fixpoint rep_match (p : char -> bool) (least : nat) (s : jsstring)
  (k : jsstring -> option R) : option R :=
  let stop := match least with O => k s | S _ => None end in
  match s with
  | c :: s' =>
      if p c then
        match rep_match p (Nat.pred least) s' k with
        | Some r => Some r
        | None => stop
        end
      else stop
  | [] => stop
  end.

(** [rmatch r s cap k]: match [r] at the head of [s], then go on with [k] on
    the rest and the text of the capturing group. *)
Fixpoint rmatch (r : regex) (s : jsstring) (cap : option jsstring)
  (k : jsstring -> option jsstring -> option R) : option R :=
  match r with
  | Chr c =>
      match s with
      | d :: s' => if c =? d then k s' cap else None
      | [] => None
      end
  | Seq r1 r2 => rmatch r1 s cap (fun s' cap' => rmatch r2 s' cap' k)
  | Rep p least => rep_match p least s (fun s' => k s' cap)
  | Group r1 =>
      rmatch r1 s cap
        (fun s' _ => k s' (Some (firstn (List.length s - List.length s') s)))
  end.

End Match.

(** [s.match(r)]: the leftmost match; the result is [match[1]], the text of
    the capturing group ([Some None] when the group took no part). *)
Fixpoint exec (r : regex) (s : jsstring) : option (option jsstring) :=
  match rmatch r s None (fun _ cap => Some cap) with
  | Some cap => Some cap
  | None =>
      match s with
      | [] => None
      | _ :: s' => exec r s'
      end
  end.

(** ** Regular expressions with alternatives

    The pattern with which [extractVideoId] reads a url has alternatives,
    an optional part and a class repeated an exact number of times;
    [pattern] has a constructor for each.  Alternatives are tried from left to right,
    an optional part is tried before its absence, and a repetition gives
    code units back one at a time. *)

(** [.]: any code unit but a line terminator. *)
Definition is_dot (c : char) : bool :=
  negb ((c =? 10) || (c =? 13) || (c =? 8232) || (c =? 8233)).

Inductive pattern : Type :=
| Lit (text : jsstring)                   (* literal text *)
| One (p : char -> bool)                  (* one code unit of a class *)
| Cat (r1 r2 : pattern)                   (* r1 r2 *)
| Alt (r1 r2 : pattern)                   (* r1 | r2 *)
| Many (p : char -> bool) (least : nat)   (* p* and p+ *)
| Times (n : nat) (p : char -> bool)      (* p{n} *)
| Opt (r : pattern)                       (* (?: r )? with r not empty *)
| Capture (r : pattern).                  (* ( r ) *)

(** The rest of [s] after the literal [text]. *)
Fixpoint lit_match (text s : jsstring) : option jsstring :=
  match text, s with
  | [], _ => Some s
  | c :: text', d :: s' => if c =? d then lit_match text' s' else None
  | _ :: _, [] => None
  end.

(** The rest of [s] after [n] code units of the class [p]. *)
Fixpoint times_match (n : nat) (p : char -> bool) (s : jsstring)
  : option jsstring :=
  match n with
  | O => Some s
  | S n' =>
      match s with
      | c :: s' => if p c then times_match n' p s' else None
      | [] => None
      end
  end.

Fixpoint pmatch {R : Type} (r : pattern) (s : jsstring) (cap : option jsstring)
  (k : jsstring -> option jsstring -> option R) : option R :=
  match r with
  | Lit text =>
      match lit_match text s with
      | Some s' => k s' cap
      | None => None
      end
  | One p =>
      match s with
      | c :: s' => if p c then k s' cap else None
      | [] => None
      end
  | Cat r1 r2 => pmatch r1 s cap (fun s' cap' => pmatch r2 s' cap' k)
  | Alt r1 r2 =>
      match pmatch r1 s cap k with
      | Some x => Some x
      | None => pmatch r2 s cap k
      end
  | Many p least => rep_match p least s (fun s' => k s' cap)
  | Times n p =>
      match times_match n p s with
      | Some s' => k s' cap
      | None => None
      end
  | Opt r1 =>
      match pmatch r1 s cap k with
      | Some x => Some x
      | None => k s cap
      end
  | Capture r1 =>
      pmatch r1 s cap
        (fun s' _ => k s' (Some (firstn (List.length s - List.length s') s)))
  end.

(** [s.match(r)] for a [pattern]: the leftmost match, as [match[1]]. *)
Fixpoint search (r : pattern) (s : jsstring) : option (option jsstring) :=
  match pmatch r s None (fun _ cap => Some cap) with
  | Some cap => Some cap
  | None =>
      match s with
      | [] => None
      | _ :: s' => search r s'
      end
  end.

(** [parseInt(s, 10)]: as [parseInt], with no [0x] prefix read. *)
Definition parseInt10 (s : jsstring) : number :=
  let s := trimStart s in
  let '(negative, s) :=
    match s with
    | c :: s' =>
        if c =? chr "-" then (true, s')
        else if c =? chr "+" then (false, s')
        else (false, s)
    | [] => (false, s)
    end in
  match digits_value 10 None s with
  | Some v => Num (if negative then - Z.of_N v else Z.of_N v)
  | None => NaN
  end.

(** ** UTF-16, UTF-8 and percent-encoding *)

Definition is_high_surrogate (c : char) : bool := (0xD800 <=? c) && (c <=? 0xDBFF).
Definition is_low_surrogate (c : char) : bool := (0xDC00 <=? c) && (c <=? 0xDFFF).

Definition pair_code_point (hi lo : char) : N :=
  0x10000 + (hi - 0xD800) * 0x400 + (lo - 0xDC00).

Definition utf16_encode (cp : N) : jsstring :=
  if cp <? 0x10000 then [cp]
  else [0xD800 + (cp - 0x10000) / 0x400;
        0xDC00 + (cp - 0x10000) mod 0x400].

Definition utf8_encode (cp : N) : list N :=
  let cont (n : N) := 0x80 + n mod 0x40 in
  if cp <? 0x80 then [cp]
  else if cp <? 0x800 then [0xC0 + cp / 0x40; cont cp]
  else if cp <? 0x10000 then
    [0xE0 + cp / 0x1000; cont (cp / 0x40); cont cp]
  else
    [0xF0 + cp / 0x40000; cont (cp / 0x1000); cont (cp / 0x40); cont cp].

(** The code points of a string; an unpaired surrogate is read as U+FFFD
    (the conversion to a scalar value string). *)
Fixpoint scalar_values (s : jsstring) : list N :=
  match s with
  | [] => []
  | c :: s' =>
      if is_high_surrogate c then
        match s' with
        | d :: s'' =>
            if is_low_surrogate d
            then pair_code_point c d :: scalar_values s''
            else 0xFFFD :: scalar_values s'
        | [] => [0xFFFD]
        end
      else if is_low_surrogate c then 0xFFFD :: scalar_values s'
      else c :: scalar_values s'
  end.

(** The UTF-8 encoding of a string. *)
Definition utf8_bytes (s : jsstring) : list N :=
  flat_map utf8_encode (scalar_values s).

(** The state of a UTF-8 decoder inside a multi-byte sequence: continuation
    bytes still needed, the bits read so far, and the range the next byte
    has to lie in. *)
Record utf8_state : Type := mk_utf8_state {
  needed : nat;
  bits : N;
  lower : N;
  upper : N
}.

(** A byte read outside a sequence: a code point, the start of a sequence,
    or an error. *)
Inductive utf8_lead : Type :=
| Single (cp : N)
| Start (st : utf8_state)
| Invalid.

Definition utf8_start (b : N) : utf8_lead :=
  if b <=? 0x7F then Single b
  else if (0xC2 <=? b) && (b <=? 0xDF) then
    Start (mk_utf8_state 1 (b mod 0x20) 0x80 0xBF)
  else if (0xE0 <=? b) && (b <=? 0xEF) then
    Start (mk_utf8_state 2 (b mod 0x10)
             (if b =? 0xE0 then 0xA0 else 0x80)
             (if b =? 0xED then 0x9F else 0xBF))
  else if (0xF0 <=? b) && (b <=? 0xF4) then
    Start (mk_utf8_state 3 (b mod 0x8)
             (if b =? 0xF0 then 0x90 else 0x80)
             (if b =? 0xF4 then 0x8F else 0xBF))
  else Invalid.

(** A continuation byte read inside a sequence: [None] when it is out of
    range, else the code point or the next state. *)
Definition utf8_continue (st : utf8_state) (b : N) : option (N + utf8_state) :=
  if (lower st <=? b) && (b <=? upper st) then
    let v := bits st * 0x40 + b mod 0x40 in
    match needed st with
    | S (S n) => Some (inr (mk_utf8_state (S n) v 0x80 0xBF))
    | _ => Some (inl v)
    end
  else None.

(** UTF-8 decoding with replacement: every maximal ill-formed part becomes
    U+FFFD and the byte that broke a sequence is read again. *)
Fixpoint utf8_decode_from (st : option utf8_state) (bs : list N) : list N :=
  let fresh b rest :=
    match utf8_start b with
    | Single cp => cp :: utf8_decode_from None rest
    | Start st' => utf8_decode_from (Some st') rest
    | Invalid => 0xFFFD :: utf8_decode_from None rest
    end in
  match bs with
  | [] => match st with None => [] | Some _ => [0xFFFD] end
  | b :: rest =>
      match st with
      | None => fresh b rest
      | Some cur =>
          match utf8_continue cur b with
          | Some (inl cp) => cp :: utf8_decode_from None rest
          | Some (inr st') => utf8_decode_from (Some st') rest
          | None => 0xFFFD :: fresh b rest
          end
      end
  end.

Definition utf8_decode (bs : list N) : list N := utf8_decode_from None bs.

Definition hex_value (c : char) : option N := digit_value 16 c.

Definition hex_digit (n : N) : char :=
  if n <? 10 then 48 + n else 55 + n.

Definition percent_encode_byte (b : N) : jsstring :=
  [chr "%"; hex_digit (b / 0x10); hex_digit (b mod 0x10)].

(** Percent-decoding of a byte sequence, as URL query parsing does it: a
    [%] that two hexadecimal digits do not follow stays. *)
Fixpoint percent_decode (bs : list N) : list N :=
  match bs with
  | [] => []
  | b :: rest =>
      if b =? chr "%" then
        match rest with
        | h1 :: h2 :: rest' =>
            match hex_value h1, hex_value h2 with
            | Some a, Some c => (16 * a + c) :: percent_decode rest'
            | _, _ => b :: percent_decode rest
            end
        | _ => b :: percent_decode rest
        end
      else b :: percent_decode rest
  end.

(** [encodeURIComponent]: [None] is the URIError an unpaired surrogate
    raises. *)
Definition unreserved (c : char) : bool :=
  ((chr "A" <=? c) && (c <=? chr "Z")) || ((chr "a" <=? c) && (c <=? chr "z"))
  || is_digit c || existsb (N.eqb c) (js "-_.!~*'()").

Definition percent_encode_code_point (cp : N) : jsstring :=
  flat_map percent_encode_byte (utf8_encode cp).

Fixpoint encodeURIComponent (s : jsstring) : option jsstring :=
  match s with
  | [] => Some []
  | c :: s' =>
      if unreserved c then option_map (cons c) (encodeURIComponent s')
      else if is_high_surrogate c then
        match s' with
        | d :: s'' =>
            if is_low_surrogate d
            then option_map (app (percent_encode_code_point (pair_code_point c d)))
                   (encodeURIComponent s'')
            else None
        | [] => None
        end
      else if is_low_surrogate c then None
      else option_map (app (percent_encode_code_point c)) (encodeURIComponent s')
  end.

(** [decodeURIComponent]: [None] is the URIError raised by a [%] that two
    hexadecimal digits do not follow, or by escapes that are not the UTF-8
    encoding of a code point.  [st] is the sequence being read. *)
Fixpoint decodeURIComponent_from (st : option utf8_state) (s : jsstring)
  : option jsstring :=
  match s with
  | [] => match st with None => Some [] | Some _ => None end
  | c :: s' =>
      if c =? chr "%" then
        match s' with
        | h1 :: h2 :: s'' =>
            match hex_value h1, hex_value h2 with
            | Some a, Some d =>
                let b := 16 * a + d in
                match st with
                | None =>
                    match utf8_start b with
                    | Single cp =>
                        option_map (cons cp) (decodeURIComponent_from None s'')
                    | Start st' => decodeURIComponent_from (Some st') s''
                    | Invalid => None
                    end
                | Some cur =>
                    match utf8_continue cur b with
                    | Some (inl cp) =>
                        option_map (app (utf16_encode cp))
                          (decodeURIComponent_from None s'')
                    | Some (inr st') => decodeURIComponent_from (Some st') s''
                    | None => None
                    end
                end
            | _, _ => None
            end
        | _ => None
        end
      else
        match st with
        | None => option_map (cons c) (decodeURIComponent_from None s')
        | Some _ => None
        end
  end.

Definition decodeURIComponent (s : jsstring) : option jsstring :=
  decodeURIComponent_from None s.

(** ** [URLSearchParams]

    [new URLSearchParams(init)] with a string: a leading [?] is dropped, the
    UTF-8 bytes are cut at every [&], each non-empty piece is cut at its
    first [=], and in name and value [+] becomes a space before
    percent-decoding and UTF-8 decoding. *)

Fixpoint split_bytes (sep : N) (cur : list N) (bs : list N) : list (list N) :=
  match bs with
  | [] => [rev cur]
  | b :: rest =>
      if b =? sep then rev cur :: split_bytes sep [] rest
      else split_bytes sep (b :: cur) rest
  end.

Fixpoint cut_at (sep : N) (bs : list N) : list N * list N :=
  match bs with
  | [] => ([], [])
  | b :: rest =>
      if b =? sep then ([], rest)
      else let '(name, value) := cut_at sep rest in (b :: name, value)
  end.

Definition form_decode (bs : list N) : jsstring :=
  flat_map utf16_encode
    (utf8_decode
       (percent_decode (map (fun b => if b =? chr "+" then chr " " else b) bs))).

(** The name and value of one piece; an empty piece gives none. *)
Definition form_pair (piece : list N) : list (jsstring * jsstring) :=
  match piece with
  | [] => []
  | _ :: _ =>
      let '(name, value) := cut_at (chr "=") piece in
      [(form_decode name, form_decode value)]
  end.

Definition URLSearchParams (init : jsstring) : list (jsstring * jsstring) :=
  let init := match init with
              | c :: rest => if c =? chr "?" then rest else init
              | [] => []
              end in
  flat_map form_pair (split_bytes (chr "&") [] (utf8_bytes init)).

(** [params.get(name)]: the first value of that name, or [null]. *)
Fixpoint get (name : jsstring) (params : list (jsstring * jsstring))
  : option jsstring :=
  match params with
  | [] => None
  | (n, v) :: rest => if str_eqb n name then Some v else get name rest
  end.

(** [params.toString()]: the pairs as [name=value], joined by [&].  Of the
    UTF-8 bytes of a name or value, those of the ASCII letters and digits
    and of [*], [-], [.] and [_] are written as they are, a space is
    written [+], and every other byte is percent-encoded. *)
Definition form_safe (b : N) : bool :=
  ((chr "A" <=? b) && (b <=? chr "Z")) || ((chr "a" <=? b) && (b <=? chr "z"))
  || is_digit b || existsb (N.eqb b) (js "*-._").

Definition form_encode_byte (b : N) : jsstring :=
  if form_safe b then [b]
  else if b =? chr " " then [chr "+"]
  else percent_encode_byte b.

Definition form_encode (s : jsstring) : jsstring :=
  flat_map form_encode_byte (utf8_bytes s).

Definition URLSearchParams_toString (params : list (jsstring * jsstring))
  : jsstring :=
  join (js "&")
    (map (fun '(name, value) => form_encode name ++ js "=" ++ form_encode value)
       params).

End JS.

Import JS.

(* ================================================================== *)
(** * The data model shared by the three source files *)
(* ================================================================== *)

(** [type: 'audio' | 'video']. *)
Inductive MediaType : Type :=
| audio
| video.

Definition MediaType_eqb (a b : MediaType) : bool :=
  match a, b with
  | audio, audio | video, video => true
  | _, _ => false
  end.

Definition MediaType_text (t : MediaType) : jsstring :=
  match t with
  | audio => js "audio"
  | video => js "video"
  end.

(** [interface VideoFormat]. *)
Record VideoFormat : Type := mkVideoFormat {
  quality : jsstring;
  format : jsstring;
  mimeType : jsstring;
  type : MediaType;
  size : number;
  url : jsstring
}.

(** [interface VideoMetadata]; [downloadUrl] is absent when [None]. *)
Record VideoMetadata : Type := mkVideoMetadata {
  title : jsstring;
  description : jsstring;
  duration : number;
  thumbnail : jsstring;
  formats : list VideoFormat;
  downloadUrl : option jsstring
}.

(** [x || fallback] on a value that is a string or [undefined]. *)
Definition or_else (x : option jsstring) (fallback : jsstring) : jsstring :=
  match x with
  | Some s => if nonempty s then s else fallback
  | None => fallback
  end.

(** [format => format.url && format.url.length > 0]. *)
Definition hasUrl (f : VideoFormat) : bool := nonempty (url f).

(* ================================================================== *)
(** * [src/processor/platform/youtube.ts] *)
(* ================================================================== *)

Module YouTube.

(** One entry of [streamingData.adaptiveFormats] or [streamingData.formats],
    as far as the normalizer reads it.  Every field but [quality] may be
    missing; the player response gives each format a [quality] token, which
    is what lets the record's [quality] be a string. *)
Record FormatDescriptor : Type := mkDescriptor {
  d_url : option jsstring;
  d_signatureCipher : option jsstring;
  d_mimeType : option jsstring;
  d_qualityLabel : option jsstring;
  d_quality : jsstring;
  d_contentLength : option jsstring
}.

Record StreamingData : Type := mkStreamingData {
  adaptiveFormats : option (list FormatDescriptor);
  regularFormats : option (list FormatDescriptor)
}.

Record PlayerResponse : Type := mkPlayerResponse {
  streamingData : option StreamingData
}.

(** [decodeCipher]: the [catch] turns a URIError of either coding function
    into the empty string. *)
Definition decodeCipher (signatureCipher : jsstring) : jsstring :=
  let params := URLSearchParams signatureCipher in
  let url := or_else (get (js "url") params) [] in
  let sp := or_else (get (js "sp") params) [] in
  let s := or_else (get (js "s") params) [] in
  if negb (nonempty url) then []
  else
    match decodeURIComponent url with
    | None => []
    | Some decodedUrl =>
        if nonempty s && nonempty sp then
          match encodeURIComponent s with
          | Some encoded => decodedUrl ++ js "&" ++ sp ++ js "=" ++ encoded
          | None => []
          end
        else decodedUrl
    end.

(** [getMimeType]; [undefined] is [None]. *)
Definition getMimeType (mimeTypeStr : option jsstring) : jsstring * MediaType :=
  let parts :=
    match mimeTypeStr with
    | Some s => split (js "/") (hd [] (split (js ";") s))
    | None => [[]; []]
    end in
  let type := if str_eqb (hd [] parts) (js "audio") then audio else video in
  (join (js "/") parts, type).

(** The url a descriptor ends with: its own, or the decoded cipher. *)
Definition finalUrl (d : FormatDescriptor) : jsstring :=
  if nonempty (or_else (d_url d) []) then or_else (d_url d) []
  else if nonempty (or_else (d_signatureCipher d) [])
  then decodeCipher (or_else (d_signatureCipher d) [])
  else [].

(** The body of the two [forEach] callbacks: the record pushed for a
    descriptor, if any. *)
Definition toVideoFormat (d : FormatDescriptor) : option VideoFormat :=
  let finalUrl := finalUrl d in
  if nonempty finalUrl then
    let '(mimeType, type) := getMimeType (d_mimeType d) in
    Some {| quality := or_else (d_qualityLabel d) (d_quality d);
            format := or_else (nth_error (split (js "/") mimeType) 1) (js "unknown");
            mimeType := mimeType;
            type := type;
            size := if nonempty (or_else (d_contentLength d) [])
                    then parseInt (or_else (d_contentLength d) [])
                    else Num 0;
            url := finalUrl |}
  else None.

Definition pushAll (ds : list FormatDescriptor) : list VideoFormat :=
  flat_map (fun d => match toVideoFormat d with Some f => [f] | None => [] end) ds.

(** [parseInt(q.replace(/[^\d]/g, '') || '0')]. *)
Definition qualityDigits (q : jsstring) : number :=
  parseInt (or_else (Some (filter is_digit q)) (js "0")).

(** The comparator of the closing sort: resolution for two video records,
    [0] for every other pair. *)
Definition byResolution (a b : VideoFormat) : number :=
  match type a, type b with
  | video, video => num_sub (qualityDigits (quality b)) (qualityDigits (quality a))
  | _, _ => Num 0
  end.

(** The records pushed by the two loops, adaptive formats first. *)
Definition collected (sd : StreamingData) : list VideoFormat :=
  pushAll (match adaptiveFormats sd with Some l => l | None => [] end)
  ++ pushAll (match regularFormats sd with Some l => l | None => [] end).

Definition extractFormatsFromPlayerResponse (playerResponse : PlayerResponse)
  : list VideoFormat :=
  match streamingData playerResponse with
  | None => []
  | Some sd => sort byResolution (collected sd)
  end.

(** The class of the code units of a video id: any code unit but a double
    quote, [&], [?], [/] and white space. *)
Definition idChar (c : char) : bool :=
  negb ((c =? 34) || (c =? chr "&") || (c =? chr "?") || (c =? chr "/")
        || is_space c)%N.

(** The pattern of [extractVideoId],
    [(?:youtube\.com\/(?:[^\/]+\/.+\/|(?:v|e(?:mbed)?)\/|.*[?&]v=)|youtu\.be\/)]
    and then the group, eleven code units of the class above.  The three
    alternatives after [youtube.com/] come first. *)
Definition notSlash (c : char) : bool := negb (c =? chr "/")%N.

(** [[^\/]+\/.+\/] *)
Definition underPath : pattern :=
  Cat (Many notSlash 1) (Cat (Lit (js "/")) (Cat (Many is_dot 1) (Lit (js "/")))).

(** [(?:v|e(?:mbed)?)\/] *)
Definition embedPath : pattern :=
  Cat (Alt (Lit (js "v")) (Cat (Lit (js "e")) (Opt (Lit (js "mbed")))))
    (Lit (js "/")).

(** [.*[?&]v=] *)
Definition watchQuery : pattern :=
  Cat (Many is_dot 0)
    (Cat (One (fun c => (c =? chr "?") || (c =? chr "&"))%N) (Lit (js "v="))).

Definition videoIdPattern : pattern :=
  Cat
    (Alt
       (Cat (Lit (js "youtube.com/")) (Alt underPath (Alt embedPath watchQuery)))
       (Lit (js "youtu.be/")))
    (Capture (Times 11 idChar)).

(** [extractVideoId].  The group takes part in every match, so [match[1]]
    is a string. *)
Definition extractVideoId (url : jsstring) : result jsstring :=
  match search videoIdPattern url with
  | Some (Some id) => Ok id
  | Some None => Ok []
  | None => Throw (js "Invalid YouTube URL")
  end.

Definition getSupportedQualities : list jsstring :=
  [js "144p"; js "240p"; js "360p"; js "480p"; js "720p"; js "1080p";
   js "1440p"; js "2160p"; js "highest"].

Definition getSupportedFormats : list jsstring := [js "mp4"; js "webm"].

End YouTube.

(* ================================================================== *)
(** * [src/processor/platform/tiktok.ts] *)
(* ================================================================== *)

Module TikTok.

(** ** The network and the documents it returns

    [fetch] either fails in transport or answers with a status and a body.
    A body is kept as what the sources read from it: the values the cheerio
    selectors return on the markup, and the parsed JSON. *)

Inductive FetchOutcome (B : Type) : Type :=
| NetworkError (message : jsstring)
| Response (status : Z) (body : B).
Arguments NetworkError {B} message.
Arguments Response {B} status body.

(** [response.ok]. *)
Definition ok (status : Z) : bool := ((200 <=? status) && (status <=? 299))%Z.

(** [videoData.video]. *)
Record Video : Type := mkVideo {
  playAddr : option jsstring;
  downloadAddr : option jsstring;
  playUrl : option jsstring
}.

(** The embedded data object, as far as it is read; [otherKeys] counts its
    own keys besides the ones named here. *)
Record VideoData : Type := mkVideoData {
  vd_name : option jsstring;
  vd_description : option jsstring;
  vd_duration : option jsstring;
  vd_thumbnailUrl : option jsstring;
  vd_videoUrl : option jsstring;
  vd_video : option Video;
  otherKeys : nat
}.

(** [{}]. *)
Definition emptyData : VideoData :=
  mkVideoData None None None None None None 0.

(** [Object.keys(videoData).length]. *)
Definition keyCount (d : VideoData) : nat :=
  let one {A} (x : option A) : nat := match x with Some _ => 1 | None => 0 end in
  (one (vd_name d) + one (vd_description d) + one (vd_duration d)
   + one (vd_thumbnailUrl d) + one (vd_videoUrl d) + one (vd_video d)
   + otherKeys d)%nat.

(** An embedded script: not there (or empty), there with text that is not
    JSON, or there with the data object the source takes from it. *)
Inductive Script : Type :=
| NoScript
| Malformed
| Parsed (data : VideoData).

Record Html : Type := mkHtml {
  videoSrc : list jsstring;            (* $('video[src]') : each src *)
  ogVideo : option jsstring;           (* meta[property="og:video"] *)
  ogVideoUrl : option jsstring;        (* meta[property="og:video:url"] *)
  jsonLd : Script;                     (* script[type="application/ld+json"] *)
  nextData : Script;                   (* #__NEXT_DATA__ : props.pageProps.videoData || {} *)
  sigiState : Script;                  (* script#SIGI_STATE : first ItemModule entry || {} *)
  ogTitle : option jsstring;
  titleText : jsstring;                (* $('title').text() *)
  ogDescription : option jsstring;
  metaDescription : option jsstring;
  metaDuration : option jsstring;      (* meta[property="video:duration"] *)
  ogImage : option jsstring
}.

(** [aweme_list[0].video]: the first entry of each url list. *)
Record ApiVideo : Type := mkApiVideo {
  play_addr : option jsstring;
  download_addr : option jsstring
}.

(** [json]: [None] when the text is not JSON, [Some None] when
    [aweme_list?.[0]] is missing. *)
Record Body : Type := mkBody {
  html : Html;
  json : option (option ApiVideo)
}.

Definition Net : Type := jsstring -> FetchOutcome Body.

Record TikTokVideoInfo : Type := mkInfo {
  info_title : jsstring;
  info_description : jsstring;
  info_duration : number;
  info_thumbnail : jsstring;
  info_formats : list VideoFormat
}.

(** ** The extraction strategies *)

Definition mp4 (quality url : jsstring) : VideoFormat :=
  {| quality := quality; format := js "mp4"; size := Num 0; url := url;
     mimeType := js "video/mp4"; type := video |}.

(** [url && url.startsWith('http')]. *)
Definition isHttp (u : option jsstring) : bool :=
  match u with
  | Some s => nonempty s && startsWith (js "http") s
  | None => false
  end.

Definition extractVideoData (doc : Html) : VideoData :=
  let videoData := emptyData in
  let videoData :=
    match jsonLd doc with Parsed d => d | _ => videoData end in
  let videoData :=
    if Nat.eqb (keyCount videoData) 0
    then match nextData doc with Parsed d => d | _ => videoData end
    else videoData in
  let videoData :=
    if Nat.eqb (keyCount videoData) 0
    then match sigiState doc with Parsed d => d | _ => videoData end
    else videoData in
  videoData.

Definition extractFormats (doc : Html) (videoData : VideoData)
  : list VideoFormat :=
  let original := mp4 (js "original") in
  (* Method 1: direct video elements *)
  let elements :=
    flat_map (fun src => if isHttp (Some src) then [original src] else [])
      (videoSrc doc) in
  (* Method 2: meta tags *)
  let videoUrl :=
    if nonempty (or_else (ogVideo doc) []) then ogVideo doc else ogVideoUrl doc in
  let meta := if isHttp videoUrl then [original (or_else videoUrl [])] else [] in
  (* Method 3: video data from script tags *)
  let videoUrls :=
    filter isHttp
      [vd_videoUrl videoData;
       match vd_video videoData with Some v => playAddr v | None => None end;
       match vd_video videoData with Some v => downloadAddr v | None => None end;
       match vd_video videoData with Some v => playUrl v | None => None end] in
  elements ++ meta ++ map (fun u => original (or_else u [])) videoUrls.

(** [url.split('/video/')[1]?.split('?')[0]]. *)
Definition videoIdOf (url : jsstring) : option jsstring :=
  match nth_error (split (js "/video/") url) 1 with
  | Some rest => Some (hd [] (split (js "?") rest))
  | None => None
  end.

Definition getEmbedUrl (url : jsstring) : option jsstring :=
  match videoIdOf url with
  | Some videoId =>
      if nonempty videoId
      then Some (js "https://www.tiktok.com/embed/v2/" ++ videoId)
      else None
  | None => None
  end.

Definition extractFromEmbed (net : Net) (embedUrl : jsstring)
  : list VideoFormat :=
  match net embedUrl with
  | NetworkError _ => []
  | Response status body =>
      if negb (ok status) then []
      else
        flat_map
          (fun src =>
             if nonempty src then [mp4 (js "original (embed)") src] else [])
          (videoSrc (html body))
  end.

Definition apiUrlOf (videoId : jsstring) : jsstring :=
  js "https://api16-normal-c-useast1a.tiktokv.com/aweme/v1/feed/?aweme_id="
  ++ videoId.

Definition extractFromApi (net : Net) (url : jsstring) : list VideoFormat :=
  match videoIdOf url with
  | None => []
  | Some videoId =>
      if negb (nonempty videoId) then []
      else
        match net (apiUrlOf videoId) with
        | NetworkError _ => []
        | Response status body =>
            if negb (ok status) then []
            else
              match json body with
              | None => []
              | Some None => []
              | Some (Some videoData) =>
                  (if nonempty (or_else (play_addr videoData) [])
                   then [mp4 (js "original (no watermark)")
                           (or_else (play_addr videoData) [])]
                   else [])
                  ++
                  (if nonempty (or_else (download_addr videoData) [])
                   then [mp4 (js "original (watermark)")
                           (or_else (download_addr videoData) [])]
                   else [])
              end
        end
  end.

(** ** Metadata *)

Definition extractTitle (doc : Html) (videoData : VideoData) : jsstring :=
  or_else (vd_name videoData)
    (or_else (ogTitle doc)
       (or_else (Some (trim (replace (js " | TikTok") [] (titleText doc))))
          (js "Untitled TikTok Video"))).

Definition extractDescription (doc : Html) (videoData : VideoData) : jsstring :=
  or_else (vd_description videoData)
    (or_else (ogDescription doc) (or_else (metaDescription doc) [])).

Definition extractDuration (doc : Html) (videoData : VideoData) : number :=
  let duration := or_else (vd_duration videoData) (or_else (metaDuration doc) []) in
  if nonempty duration then
    let durationNum := parseInt duration in
    if isNaN durationNum then Num 0 else durationNum
  else Num 0.

Definition extractThumbnail (doc : Html) (videoData : VideoData) : jsstring :=
  or_else (vd_thumbnailUrl videoData) (or_else (ogImage doc) []).

(** ** [fetchTikTokInfo] *)

(** [self.findIndex(p)]; [None] is [-1]. *)
Fixpoint findIndex {A : Type} (p : A -> bool) (self : list A) : option nat :=
  match self with
  | [] => None
  | x :: rest =>
      if p x then Some O
      else match findIndex p rest with Some i => Some (S i) | None => None end
  end.

(** [.filter((format, index, self) =>
       index === self.findIndex(t => t.url === format.url))]. *)
Definition dedupByUrl (self : list VideoFormat) : list VideoFormat :=
  map snd
    (filter
       (fun '(index, format) =>
          match findIndex (fun t => str_eqb (url t) (url format)) self with
          | Some i => Nat.eqb index i
          | None => false
          end)
       (combine (seq 0 (List.length self)) self)).

Definition noWatermark (f : VideoFormat) : bool :=
  includes (js "no watermark") (quality f).

(** The comparator of [fetchTikTokInfo]: no-watermark versions first. *)
Definition byWatermark (a b : VideoFormat) : number :=
  if noWatermark a && negb (noWatermark b) then Num (-1)
  else if negb (noWatermark a) && noWatermark b then Num 1
  else Num 0.

(** The candidates the fallback chain gathers from an answered main page:
    the page itself, then the embed page, then the API, each later strategy
    run only while there is no candidate yet. *)
Definition gather (net : Net) (url : jsstring) (doc : Html) : list VideoFormat :=
  let videoData := extractVideoData doc in
  let formats := extractFormats doc videoData in
  let formats :=
    match formats with
    | [] =>
        match getEmbedUrl url with
        | Some embedUrl => formats ++ extractFromEmbed net embedUrl
        | None => formats
        end
    | _ :: _ => formats
    end in
  let formats :=
    match formats with
    | [] => formats ++ extractFromApi net url
    | _ :: _ => formats
    end in
  formats.

Definition fetchTikTokInfo (net : Net) (url : jsstring) : result TikTokVideoInfo :=
  rethrow (js "Failed to fetch TikTok info: ")
    match net url with
    | NetworkError message => Throw message
    | Response status body =>
        if negb (ok status)
        then Throw (js "HTTP error! status: " ++ Z_to_js status)
        else
          let doc := html body in
          let videoData := extractVideoData doc in
          let formats := gather net url doc in
          let formats := dedupByUrl (filter hasUrl formats) in
          let formats := sort byWatermark formats in
          Ok {| info_title := extractTitle doc videoData;
                info_description := extractDescription doc videoData;
                info_duration := extractDuration doc videoData;
                info_thumbnail := extractThumbnail doc videoData;
                info_formats := formats |}
    end.

(** [extractTikTokVideo].  [sanitizeTikTokUrl] follows the redirects of the
    url with a HEAD request and rebuilds it with the [URL] class; it is
    taken here as the function from the url to its result. *)
Definition extractTikTokVideo (sanitizeTikTokUrl : jsstring -> result jsstring)
  (net : Net) (url : jsstring) : result VideoMetadata :=
  rethrow (js "Failed to extract TikTok video: ")
    (bind (sanitizeTikTokUrl url) (fun cleanUrl =>
     bind (fetchTikTokInfo net cleanUrl) (fun videoInfo =>
     match info_formats videoInfo with
     | [] => Throw (js "No video formats found")
     | _ :: _ =>
         Ok {| title := info_title videoInfo;
               description := info_description videoInfo;
               duration := info_duration videoInfo;
               thumbnail := info_thumbnail videoInfo;
               formats := info_formats videoInfo;
               downloadUrl := None |}
     end))).

(** [listAvailableFormats] of this module. *)
Definition listAvailableFormats (net : Net) (url : jsstring)
  : result (list VideoFormat) :=
  rethrow (js "Failed to list formats: ")
    (bind (fetchTikTokInfo net url) (fun videoInfo =>
     Ok (info_formats videoInfo))).

Definition getSupportedQualities : list jsstring :=
  [js "original"; js "original (no watermark)"; js "original (watermark)";
   js "original (embed)"].

Definition getSupportedFormats : list jsstring := [js "mp4"].

(** ** [sanitizeTikTokUrl]

    The answer to the HEAD request, redirects followed, is [response.url]
    together with what the [URL] class reads in it: the host name, the
    query with its [?] ([search], empty when the url has no query or an
    empty one), and the two parts of the url the query stands between,
    [stem] before it and [fragment] (from the [#] on, empty when there is
    none) after it.  Assigning a string to [search] replaces the query, an
    empty string removing it with its [?]; [toString] writes the parts one
    after the other. *)
Record Location : Type := mkLocation {
  loc_url : jsstring;                  (* response.url *)
  loc_hostname : jsstring;
  loc_stem : jsstring;
  loc_search : jsstring;
  loc_fragment : jsstring
}.

(** The HEAD request fails, or its final url is not one the [URL] class
    takes, or it lands on a location. *)
Inductive HeadOutcome : Type :=
| HeadFailed
| Landed (location : Location).

Definition sanitizeTikTokUrl (head : jsstring -> HeadOutcome) (url : jsstring)
  : result jsstring :=
  match head url with
  | HeadFailed => Throw (js "Invalid TikTok URL")
  | Landed urlObj =>
      if str_eqb (loc_hostname urlObj) (js "vm.tiktok.com")
         || str_eqb (loc_hostname urlObj) (js "vt.tiktok.com")
      then Ok (loc_url urlObj)
      else
        (* For regular TikTok URLs, clean up unnecessary parameters *)
        let allowedParams := [js "id"] in
        let params := URLSearchParams (loc_search urlObj) in
        let newSearch :=
          filter (fun '(key, _) => existsb (str_eqb key) allowedParams) params in
        let query := URLSearchParams_toString newSearch in
        Ok (loc_stem urlObj
            ++ (if nonempty query then js "?" ++ query else [])
            ++ loc_fragment urlObj)
  end.

End TikTok.

(* ================================================================== *)
(** * [src/processor/platform/youtube.ts]: the watch page *)
(* ================================================================== *)

(** The functions of [youtube.ts] that fetch: [fetchVideoInfo] and its
    callers.  [fetch] is the one of module [TikTok]. *)
Module YouTubePage.

Import YouTube.

(** [playerResponse], as far as it is read: the streaming data, and
    [videoDetails?.lengthSeconds], a string when it is there. *)
Record PlayerData : Type := mkPlayerData {
  response : PlayerResponse;
  lengthSeconds : option jsstring
}.

(** [{}]. *)
Definition noPlayerData : PlayerData :=
  mkPlayerData (mkPlayerResponse None) None.

(** The text [ytInitialPlayerResponse = {...};] of the page: not there,
    there with braces that do not hold JSON, or there with the object. *)
Inductive Embedded : Type :=
| NoMatch
| NotJson
| Json (data : PlayerData).

(** The watch page, as the values the source reads from it. *)
Record Page : Type := mkPage {
  metaTitle : option jsstring;         (* meta[name="title"] *)
  ogTitle : option jsstring;           (* meta[property="og:title"] *)
  metaDescription : option jsstring;   (* meta[name="description"] *)
  ogDescription : option jsstring;     (* meta[property="og:description"] *)
  playerResponse : Embedded
}.

Definition Net : Type := jsstring -> TikTok.FetchOutcome Page.

(** [interface VideoInfo]. *)
Record VideoInfo : Type := mkVideoInfo {
  vi_title : jsstring;
  vi_description : jsstring;
  vi_duration : number;
  vi_thumbnail : jsstring;
  vi_formats : list VideoFormat
}.

(** [extractDuration] of this file. *)
Definition extractDuration (playerResponse : PlayerData) : number :=
  parseInt10 (or_else (lengthSeconds playerResponse) (js "0")).

Definition videoUrlOf (videoId : jsstring) : jsstring :=
  js "https://www.youtube.com/watch?v=" ++ videoId.

(** [playerResponse] after its [try] block: the object parsed from the
    page, or [{}]. *)
Definition playerOf (page : Page) : PlayerData :=
  match playerResponse page with
  | Json data => data
  | NoMatch | NotJson => noPlayerData
  end.

(** [fetchVideoInfo].  The JSON-LD block the source parses first is not
    read afterwards. *)
Definition fetchVideoInfo (net : Net) (videoId : jsstring) : result VideoInfo :=
  rethrow (js "Failed to fetch video info: ")
    match net (videoUrlOf videoId) with
    | TikTok.NetworkError message => Throw message
    | TikTok.Response status page =>
        if negb (TikTok.ok status)
        then Throw (js "HTTP error! status: " ++ Z_to_js status)
        else
          let playerResponse := playerOf page in
          let title :=
            or_else (metaTitle page) (or_else (ogTitle page) (js "Untitled")) in
          let description :=
            or_else (metaDescription page) (or_else (ogDescription page) []) in
          let thumbnail :=
            js "https://img.youtube.com/vi/" ++ videoId ++ js "/maxresdefault.jpg" in
          let formats := extractFormatsFromPlayerResponse (response playerResponse) in
          match formats with
          | [] => Throw (js "No video formats found")
          | _ :: _ =>
              Ok {| vi_title := title;
                    vi_description := description;
                    vi_duration := extractDuration playerResponse;
                    vi_thumbnail := thumbnail;
                    vi_formats := formats |}
          end
    end.

(** [extractYouTubeVideo]; it reads neither [format] nor [quality]. *)
Definition extractYouTubeVideo (net : Net) (url : jsstring)
  (format quality : option jsstring) : result VideoMetadata :=
  rethrow (js "Failed to extract YouTube video: ")
    (bind (extractVideoId url) (fun videoId =>
     bind (fetchVideoInfo net videoId) (fun videoInfo =>
     match vi_formats videoInfo with
     | [] => Throw (js "No video formats found")
     | _ :: _ =>
         (* Filter out formats without URLs *)
         match filter hasUrl (vi_formats videoInfo) with
         | [] => Throw (js "No formats with valid URLs found")
         | kept =>
             Ok {| title := vi_title videoInfo;
                   description := vi_description videoInfo;
                   duration := vi_duration videoInfo;
                   thumbnail := vi_thumbnail videoInfo;
                   formats := kept;
                   downloadUrl := None |}
         end
     end))).

Definition getFormatsByType (net : Net) (url : jsstring) (wanted : MediaType)
  : result (list VideoFormat) :=
  rethrow (js "Failed to get " ++ MediaType_text wanted ++ js " formats: ")
    (bind (extractVideoId url) (fun videoId =>
     bind (fetchVideoInfo net videoId) (fun videoInfo =>
     Ok (filter (fun format => MediaType_eqb (type format) wanted)
           (vi_formats videoInfo))))).

(** [listAvailableFormats] of this file. *)
Definition listAvailableFormats (net : Net) (url : jsstring)
  : result (list VideoFormat) :=
  rethrow (js "Failed to list formats: ")
    (bind (extractVideoId url) (fun videoId =>
     bind (fetchVideoInfo net videoId) (fun videoInfo =>
     Ok (vi_formats videoInfo)))).

End YouTubePage.

(* ================================================================== *)
(** * [src/processor/extractvideo.ts] and the handlers of [src/mdu.ts] *)
(* ================================================================== *)

(** An optional property of a request object: the object has no such
    property, or has it with the value [undefined], or has it with a
    value.  Reading the property gives [undefined] in the first two
    cases; spreading the object copies the property in the last two. *)
Inductive field (A : Type) : Type :=
| unset
| undef
| val (a : A).
Arguments unset {A}.
Arguments undef {A}.
Arguments val {A} a.

(** [request.name]. *)
Definition read {A : Type} (f : field A) : option A :=
  match f with
  | val a => Some a
  | unset | undef => None
  end.

(** The property [name] of [{ name: base, ...request }]. *)
Definition spread {A : Type} (base : option A) (f : field A) : option A :=
  match f with
  | unset => base
  | undef => None
  | val a => Some a
  end.

(** [interface VideoExtractRequest]. *)
Module Request.
Record t : Type := make {
  url : option jsstring;
  format : field jsstring;
  quality : field jsstring;
  download : field bool;
  info : field bool;
  type : field MediaType
}.
End Request.

(** The object [params] of [extractVideo]: every property read from it is a
    value or [undefined]. *)
Module Params.
Record t : Type := make {
  url : jsstring;
  format : option jsstring;
  quality : option jsstring;
  download : option bool;
  info : option bool;
  type : option MediaType
}.
End Params.

(** Modelled from the spec: the module [./platform] ([detectPlatform],
    [isPlatform]) is not among the sources.  The spec has a platform tag
    that is an enumerated value with [unknown] for every url no pattern
    matches; the sources switch on ['youtube'] and ['tiktok']. *)
Inductive Platform : Type :=
| youtube
| tiktok
| unknown.

(** What the orchestrator and the handlers call: the case mappings of the
    run time, the platform module, and the asynchronous platform
    functions, each taken as the function of its arguments that a run of
    the program observes (the network is behind them).  [overTikTok] below
    puts the functions of module [TikTok] in their places. *)
Record Env : Type := mkEnv {
  toLowerCase : jsstring -> jsstring;
  toUpperCase : jsstring -> jsstring;
  detectPlatform : jsstring -> Platform;
  isPlatform : list jsstring;          (* the keys of the object *)
  extractYouTubeVideo :
    jsstring -> option jsstring -> option jsstring -> result VideoMetadata;
  extractTikTokVideo : jsstring -> result VideoMetadata;
  listTikTokFormats : jsstring -> result (list VideoFormat);
  getFormatsByType : jsstring -> MediaType -> result (list VideoFormat);
  listAvailableFormats : jsstring -> result (list VideoFormat)
}.

Definition setFormats (r : VideoMetadata) (fs : list VideoFormat) : VideoMetadata :=
  {| title := title r; description := description r; duration := duration r;
     thumbnail := thumbnail r; formats := fs; downloadUrl := downloadUrl r |}.

Definition setDownloadUrl (r : VideoMetadata) (u : option jsstring) : VideoMetadata :=
  {| title := title r; description := description r; duration := duration r;
     thumbnail := thumbnail r; formats := formats r; downloadUrl := u |}.

(** [x || false]. *)
Definition or_false (x : option bool) : bool :=
  match x with Some b => b | None => false end.

(** The object literal of [extractVideo]: the defaults first, the request
    spread over them. *)
Definition paramsOf (url : jsstring) (request : Request.t) : Params.t :=
  {| Params.url := url;
     Params.format :=
       spread (Some (or_else (read (Request.format request)) (js "mp4")))
         (Request.format request);
     Params.quality :=
       spread (Some (or_else (read (Request.quality request)) (js "highest")))
         (Request.quality request);
     Params.download :=
       spread (Some (or_false (read (Request.download request))))
         (Request.download request);
     Params.info :=
       spread (Some (or_false (read (Request.info request))))
         (Request.info request);
     Params.type :=
       spread (Some (match read (Request.type request) with
                     | Some t => t
                     | None => video
                     end))
         (Request.type request) |}.

(** [quality.match(/(\d+)p/)]. *)
Definition resolutionPattern : regex :=
  Seq (Group (Rep is_digit 1)) (Chr (chr "p")).

Definition getQualityNumber (quality : jsstring) : number :=
  match exec resolutionPattern quality with
  | Some (Some digits) => parseInt digits
  | Some None => NaN
  | None => Num 0
  end.

(** The comparator of the YouTube branch. *)
Definition byQualityNumber (a b : VideoFormat) : number :=
  num_sub (getQualityNumber (quality b)) (getQualityNumber (quality a)).

(** [size || 0]. *)
Definition sizeOr0 (f : VideoFormat) : number :=
  if num_truthy (size f) then size f else Num 0.

(** The comparator of the TikTok branch. *)
Definition byWatermarkThenSize (a b : VideoFormat) : number :=
  if TikTok.noWatermark a && negb (TikTok.noWatermark b) then Num (-1)
  else if negb (TikTok.noWatermark a) && TikTok.noWatermark b then Num 1
  else num_sub (sizeOr0 b) (sizeOr0 a).

Section Orchestrator.
Variable env : Env.

(** [getSupportedPlatforms]. *)
Definition getSupportedPlatforms : jsstring :=
  join (js ", ")
    (map (fun platform => toUpperCase env (firstn 1 platform) ++ skipn 1 platform)
       (isPlatform env)).

(** The format filter, written twice in the source (once per platform). *)
Definition filterFormat (params : Params.t) (fs : list VideoFormat)
  : result (list VideoFormat) :=
  if nonempty (or_else (Params.format params) []) then
    let wanted := or_else (Params.format params) [] in
    match filter (fun f => str_eqb (toLowerCase env (format f))
                             (toLowerCase env wanted)) fs with
    | [] => Throw (js "No formats matching '" ++ wanted ++ js "' found")
    | kept => Ok kept
    end
  else Ok fs.

(** The quality filter, written twice in the source as well. *)
Definition filterQuality (params : Params.t) (fs : list VideoFormat)
  : result (list VideoFormat) :=
  let wanted := or_else (Params.quality params) [] in
  if nonempty wanted && negb (str_eqb wanted (js "highest")) then
    match filter (fun f => includes (toLowerCase env wanted)
                             (toLowerCase env (quality f))) fs with
    | [] => Throw (js "No quality matching '" ++ wanted ++ js "' found")
    | kept => Ok kept
    end
  else Ok fs.

(** [params.quality === 'highest']. *)
Definition wantsHighest (params : Params.t) : bool :=
  match Params.quality params with
  | Some q => str_eqb q (js "highest")
  | None => false
  end.

Definition sortHighest (comparefn : VideoFormat -> VideoFormat -> number)
  (params : Params.t) (fs : list VideoFormat) : list VideoFormat :=
  if wantsHighest params then sort comparefn fs else fs.

(** The [switch] on the platform: extraction, the two filters and the
    ranking. *)
Definition perPlatform (params : Params.t) : result VideoMetadata :=
  match detectPlatform env (Params.url params) with
  | youtube =>
      bind (extractYouTubeVideo env (Params.url params) (Params.format params)
              (Params.quality params)) (fun result =>
      bind (filterFormat params (formats result)) (fun fs =>
      bind (filterQuality params fs) (fun fs =>
      Ok (setFormats result (sortHighest byQualityNumber params fs)))))
  | tiktok =>
      bind (extractTikTokVideo env (Params.url params)) (fun result =>
      bind (filterFormat params (formats result)) (fun fs =>
      bind (filterQuality params fs) (fun fs =>
      Ok (setFormats result (sortHighest byWatermarkThenSize params fs)))))
  | unknown =>
      Throw (js "Unsupported platform. Currently supports: "
             ++ getSupportedPlatforms)
  end.

(** The type filter, which applies to all platforms. *)
Definition filterType (params : Params.t) (fs : list VideoFormat)
  : result (list VideoFormat) :=
  match Params.type params with
  | Some t =>
      match filter (fun f => MediaType_eqb (type f) t) fs with
      | [] => Throw (js "No " ++ MediaType_text t ++ js " formats found")
      | kept => Ok kept
      end
  | None => Ok fs
  end.

(** The body of the [try] block. *)
Definition extractVideoBody (params : Params.t) : result VideoMetadata :=
  bind (perPlatform params) (fun result =>
  bind (filterType params (formats result)) (fun fs =>
  (* Remove formats without URLs *)
  match filter hasUrl fs with
  | [] => Throw (js "No valid formats found with URLs")
  | first :: rest =>
      let result := setFormats result (first :: rest) in
      let result :=
        if or_false (Params.download params)
        then setDownloadUrl result (Some (url first))
        else result in
      let result :=
        if or_false (Params.info params)
        then setDownloadUrl (setFormats result []) None
        else result in
      Ok result
  end)).

Definition extractVideo (request : Request.t) : result VideoMetadata :=
  match Request.url request with
  | None => Throw (js "URL is required")
  | Some [] => Throw (js "URL is required")
  | Some url =>
      rethrow (js "Error extracting video: ")
        (extractVideoBody (paramsOf url request))
  end.

(** ** The handlers of [mdu.ts] *)

(** The query object of a request: each parameter is a string or absent;
    the schema only lets ['audio'] and ['video'] through for [type]. *)
Record Query : Type := mkQuery {
  q_url : option jsstring;
  q_format : option jsstring;
  q_quality : option jsstring;
  q_download : option jsstring;
  q_info : option jsstring;
  q_type : option MediaType
}.

(** A property written as [name: value] where the value may be
    [undefined]: the object has the property either way. *)
Definition written {A : Type} (v : option A) : field A :=
  match v with
  | Some a => val a
  | None => undef
  end.

(** [x === 'true'] on a string or [undefined]. *)
Definition isTrue (x : option jsstring) : bool :=
  match x with
  | Some s => str_eqb s (js "true")
  | None => false
  end.

(** The request object the [/extract] handler builds. *)
Definition requestOf (url : jsstring) (query : Query) : Request.t :=
  {| Request.url := Some url;
     Request.format := written (q_format query);
     Request.quality := written (q_quality query);
     Request.download := val (isTrue (q_download query));
     Request.info := val (isTrue (q_info query));
     Request.type := written (q_type query) |}.

Record ExtractResponse : Type := mkExtractResponse {
  extract_success : bool;
  data : VideoMetadata
}.

Definition extractHandler (query : Query) : result ExtractResponse :=
  if negb (nonempty (or_else (q_url query) [])) then Throw (js "URL is required")
  else
    rethrow (js "Extraction failed: ")
      (bind (extractVideo (requestOf (or_else (q_url query) []) query))
         (fun result => Ok {| extract_success := true; data := result |})).

Record FormatsResponse : Type := mkFormatsResponse {
  formats_success : bool;
  platform : Platform;
  listed : list VideoFormat
}.

Definition formatsHandler (query : Query) : result FormatsResponse :=
  if negb (nonempty (or_else (q_url query) [])) then Throw (js "URL is required")
  else
    let pageUrl := or_else (q_url query) [] in
    rethrow (js "Failed to list formats: ")
      (let platform := detectPlatform env pageUrl in
       bind
         match platform with
         | tiktok => listTikTokFormats env pageUrl
         | youtube =>
             match q_type query with
             | Some t => getFormatsByType env pageUrl t
             | None => listAvailableFormats env pageUrl
             end
         | unknown => Throw (js "Unsupported platform")
         end
         (fun formats =>
            (* Filter out formats without URLs and map to consistent format *)
            let validFormats :=
              map (fun f => {| quality := quality f; format := format f;
                               mimeType := mimeType f; type := type f;
                               size := size f; url := url f |})
                (filter hasUrl formats) in
            match validFormats with
            | [] => Throw (js "No valid formats found with URLs")
            | _ :: _ =>
                Ok {| formats_success := true; platform := platform;
                      listed := validFormats |}
            end)).

End Orchestrator.

(* ================================================================== *)
(** * Notions the statements use *)
(* ================================================================== *)

(** Under a ranking [rank] whose ranks [precedes] orders strictly, [a] may
    stand before [b]: the rank of [b] does not strictly precede that of
    [a]. *)
Definition in_order {A K : Type} (rank : A -> K) (precedes : K -> K -> bool)
  (a b : A) : Prop :=
  precedes (rank b) (rank a) = false.

(** What the last steps of the [try] block do to a validated result whose
    formats are [first :: rest]. *)
Definition finish (params : Params.t) (result : VideoMetadata)
  (first : VideoFormat) (rest : list VideoFormat) : VideoMetadata :=
  let result := setFormats result (first :: rest) in
  let result :=
    if or_false (Params.download params)
    then setDownloadUrl result (Some (url first)) else result in
  if or_false (Params.info params)
  then setDownloadUrl (setFormats result []) None else result.

(** The number a record is ranked by in the YouTube branch. *)
Definition resolutionOf (f : VideoFormat) : Z :=
  match getQualityNumber (quality f) with
  | Num z => z
  | NaN => 0%Z
  end.

(** The size a record is ranked by in the TikTok branch. *)
Definition sizeKey (f : VideoFormat) : Z :=
  match sizeOr0 f with
  | Num z => z
  | NaN => 0%Z
  end.

(** Descending integers, as a strict order on ranks. *)
Definition above (x y : Z) : bool := (y <? x)%Z.

(** The ranks of the TikTok ranking: a no-watermark record before any
    other, a larger size first among the rest. *)
Definition cleanerOrLarger (x y : bool * Z) : bool :=
  (fst x && negb (fst y)) || (Bool.eqb (fst x) (fst y) && (snd y <? snd x)%Z).

Definition watermarkRank (f : VideoFormat) : bool * Z :=
  (TikTok.noWatermark f, sizeKey f).

(** A string is well formed when its code units are 16-bit and every
    surrogate is half of a pair. *)
Fixpoint well_formed (s : jsstring) : bool :=
  match s with
  | [] => true
  | c :: s' =>
      if is_high_surrogate c then
        match s' with
        | d :: s'' => is_low_surrogate d && well_formed s''
        | [] => false
        end
      else negb (is_low_surrogate c) && (c <? 0x10000)%N && well_formed s'
  end.

(** The code units a query string gives a meaning to: [&], [+] and [%]. *)
Definition special (c : char) : bool :=
  ((c =? chr "&") || (c =? chr "+") || (c =? chr "%"))%N.

(** A well-formed string with none of [&], [+] and [%] in it. *)
Definition plain (s : jsstring) : bool :=
  well_formed s && forallb (fun c => negb (special c)) s.

(** The words a pattern matches. *)
Fixpoint lang (r : pattern) (w : jsstring) : Prop :=
  match r with
  | Lit text => w = text
  | One p => exists c, w = [c] /\ p c = true
  | Cat r1 r2 => exists w1 w2, w = w1 ++ w2 /\ lang r1 w1 /\ lang r2 w2
  | Alt r1 r2 => lang r1 w \/ lang r2 w
  | Many p least => forallb p w = true /\ (least <= List.length w)%nat
  | Times n p => forallb p w = true /\ List.length w = n
  | Opt r1 => w = [] \/ lang r1 w
  | Capture r1 => lang r1 w
  end.

(** The group of [videoIdPattern], read at the head of [s]. *)
Definition idGroup (s : jsstring) : option (option jsstring) :=
  pmatch (Capture (Times 11 YouTube.idChar)) s None (fun _ cap => Some cap).

(** The ranks of the sort of [fetchTikTokInfo]: a no-watermark record
    before any other. *)
Definition cleaner (x y : bool) : bool := x && negb y.



(** A Unicode scalar value. *)
Definition is_scalar (cp : N) : bool :=
  ((cp <? 0xD800) || ((0xE000 <=? cp) && (cp <? 0x110000)))%N.

(** The text of [s] up to its first [c]. *)
Fixpoint upTo (c : char) (s : jsstring) : jsstring :=
  match s with
  | [] => []
  | d :: s' => if (c =? d)%N then [] else d :: upTo c s'
  end.


(** The failures the [try] block of [extractVideo] raises, by stage. *)
Inductive StageFailure (env : Env) (params : Params.t) : jsstring -> Prop :=
| YouTubeFailed inner :
    detectPlatform env (Params.url params) = youtube ->
    extractYouTubeVideo env (Params.url params) (Params.format params)
      (Params.quality params) = Throw inner ->
    StageFailure env params inner
| TikTokFailed inner :
    detectPlatform env (Params.url params) = tiktok ->
    extractTikTokVideo env (Params.url params) = Throw inner ->
    StageFailure env params inner
| Unsupported :
    detectPlatform env (Params.url params) = unknown ->
    StageFailure env params
      (js "Unsupported platform. Currently supports: " ++ getSupportedPlatforms env)
| NoFormatMatch :
    StageFailure env params
      (js "No formats matching '" ++ or_else (Params.format params) [] ++ js "' found")
| NoQualityMatch :
    StageFailure env params
      (js "No quality matching '" ++ or_else (Params.quality params) [] ++ js "' found")
| NoTypeMatch t :
    Params.type params = Some t ->
    StageFailure env params (js "No " ++ MediaType_text t ++ js " formats found")
| NoValidFormat :
    StageFailure env params (js "No valid formats found with URLs").

(** A fetch that did not answer with a 2xx status. *)
Definition failed {B : Type} (o : TikTok.FetchOutcome B) : bool :=
  match o with
  | TikTok.NetworkError _ => true
  | TikTok.Response status _ => negb (TikTok.ok status)
  end.

(** The code points a UTF-8 sequence can still reach after its start byte:
    [n] bytes to come, the next one between [lower] and [upper]. *)
Fixpoint scalar_after (n : nat) (bits lower upper : N) : Prop :=
  match n with
  | S (S m as n') =>
      forall b, (lower <= b <= upper)%N ->
                scalar_after n' (bits * 0x40 + b mod 0x40)%N 0x80%N 0xBF%N
  | _ =>
      forall b, (lower <= b <= upper)%N ->
                is_scalar (bits * 0x40 + b mod 0x40)%N = true
  end.

(** The text the serializer writes holds ASCII only, and none of [&],
    [=] and [?]. *)
Definition form_text (c : char) : bool :=
  (negb (c =? chr "&") && negb (c =? chr "=") && negb (c =? chr "?")
   && (c <? 0x80))%N.

(** One pair as the serializer writes it. *)
Definition form_piece (nv : jsstring * jsstring) : jsstring :=
  form_encode (fst nv) ++ chr "=" :: form_encode (snd nv).

(** A string without the code unit [c]. *)
Definition without (c : char) (s : jsstring) : bool :=
  forallb (fun d => negb (c =? d)%N) s.

(** Linear arithmetic with division and remainder by constants. *)
Ltac nlia := zify; Z.quot_rem_to_equations; Z.div_mod_to_equations; lia.

(* ================================================================== *)
(** * Concrete collaborators and inputs

    The instances the examples below run the program on. *)
(* ================================================================== *)

(** Case mapping of the letters A to Z; on strings of ASCII text this is
    what [toLowerCase] and [toUpperCase] compute. *)
Definition asciiLower (s : jsstring) : jsstring :=
  map (fun c => if (65 <=? c)%N && (c <=? 90)%N then (c + 32)%N else c) s.

Definition asciiUpper (s : jsstring) : jsstring :=
  map (fun c => if (97 <=? c)%N && (c <=? 122)%N then (c - 32)%N else c) s.

(** A platform detector by host name. *)
Definition hostDetect (u : jsstring) : Platform :=
  if includes (js "youtube.com") u || includes (js "youtu.be") u then youtube
  else if includes (js "tiktok.com") u then tiktok
  else unknown.

(** An environment in which the YouTube extraction answers [yt] and the
    TikTok extraction answers [tt], whatever the url. *)
Definition fixedEnv (yt tt : result VideoMetadata) : Env :=
  {| toLowerCase := asciiLower;
     toUpperCase := asciiUpper;
     detectPlatform := hostDetect;
     isPlatform := [js "youtube"; js "tiktok"];
     extractYouTubeVideo := fun _ _ _ => yt;
     extractTikTokVideo := fun _ => tt;
     listTikTokFormats := fun _ => bind tt (fun m => Ok (formats m));
     getFormatsByType := fun _ t =>
       bind yt (fun m =>
         Ok (filter (fun f => MediaType_eqb (type f) t) (formats m)));
     listAvailableFormats := fun _ => bind yt (fun m => Ok (formats m)) |}.

(** [env] with the TikTok functions of this file, run on the network [net]
    with a [sanitizeTikTokUrl] that returns the url as it is. *)
Definition overTikTok (net : TikTok.Net) (env : Env) : Env :=
  {| toLowerCase := toLowerCase env;
     toUpperCase := toUpperCase env;
     detectPlatform := detectPlatform env;
     isPlatform := isPlatform env;
     extractYouTubeVideo := extractYouTubeVideo env;
     extractTikTokVideo := TikTok.extractTikTokVideo (fun u => Ok u) net;
     listTikTokFormats := TikTok.listAvailableFormats net;
     getFormatsByType := getFormatsByType env;
     listAvailableFormats := listAvailableFormats env |}.

(** [env] with the functions of both platform files in their places: the
    YouTube functions run on the network [watch], the TikTok functions on
    [net], and [head] answers the HEAD requests of [sanitizeTikTokUrl].
    The case mappings and the platform module stay those of [env]. *)
Definition overPlatforms (watch : YouTubePage.Net)
  (head : jsstring -> TikTok.HeadOutcome) (net : TikTok.Net) (env : Env) : Env :=
  {| toLowerCase := toLowerCase env;
     toUpperCase := toUpperCase env;
     detectPlatform := detectPlatform env;
     isPlatform := isPlatform env;
     extractYouTubeVideo := YouTubePage.extractYouTubeVideo watch;
     extractTikTokVideo :=
       TikTok.extractTikTokVideo (TikTok.sanitizeTikTokUrl head) net;
     listTikTokFormats := TikTok.listAvailableFormats net;
     getFormatsByType := YouTubePage.getFormatsByType watch;
     listAvailableFormats := YouTubePage.listAvailableFormats watch |}.

Definition metadataOf (fs : list VideoFormat) : VideoMetadata :=
  {| title := js "Sample"; description := []; duration := Num 0;
     thumbnail := []; formats := fs; downloadUrl := None |}.

Definition mp4Video (quality : jsstring) (size : Z) (url : jsstring) : VideoFormat :=
  {| quality := quality; format := js "mp4"; mimeType := js "video/mp4";
     type := video; size := Num size; url := url |}.

Definition youtubeUrl : jsstring := js "https://youtu.be/XXXXXXXXXXX".
Definition tiktokUrl : jsstring := js "https://www.tiktok.com/@user/video/7000000000000000000".

(** A network on which only [page] answers, with [body]; every other
    fetch fails in transport. *)
Definition onlyPage (page : jsstring) (status : Z) (body : TikTok.Body) : TikTok.Net :=
  fun u =>
    if str_eqb u page then TikTok.Response status body
    else TikTok.NetworkError (js "getaddrinfo ENOTFOUND").

(** A network that answers [main] on [page], [embed] on the embed url of the
    sample TikTok video and [api] on its API url. *)
Definition threePages (page : jsstring)
  (main embed api : TikTok.FetchOutcome TikTok.Body) : TikTok.Net :=
  fun u =>
    if str_eqb u page then main
    else if startsWith (js "https://www.tiktok.com/embed/v2/") u then embed
    else if startsWith (js "https://api16-normal-c-useast1a.tiktokv.com/") u then api
    else TikTok.NetworkError (js "getaddrinfo ENOTFOUND").

(** A document with nothing in it. *)
Definition blankHtml : TikTok.Html :=
  TikTok.mkHtml [] None None TikTok.NoScript TikTok.NoScript TikTok.NoScript
    None [] None None None None.

(** A page whose markup names one video url twice and a second one once. *)
Definition repeatingHtml : TikTok.Html :=
  TikTok.mkHtml [js "https://v16.tiktokcdn.com/a.mp4"; js "https://v16.tiktokcdn.com/b.mp4"]
    (Some (js "https://v16.tiktokcdn.com/a.mp4")) None
    TikTok.NoScript TikTok.NoScript TikTok.NoScript
    None [] None None None None.

(** An embed page with one video element. *)
Definition embedHtml : TikTok.Html :=
  TikTok.mkHtml [js "https://v16.tiktokcdn.com/embed.mp4"] None None
    TikTok.NoScript TikTok.NoScript TikTok.NoScript None [] None None None None.

(** An API answer with both addresses. *)
Definition apiBody : TikTok.Body :=
  TikTok.mkBody blankHtml
    (Some (Some (TikTok.mkApiVideo (Some (js "https://api.tiktokv.com/play"))
                   (Some (js "https://api.tiktokv.com/download"))))).

(** A player response whose two adaptive formats share one url. *)
Definition sharedUrlResponse : YouTube.PlayerResponse :=
  YouTube.mkPlayerResponse
    (Some (YouTube.mkStreamingData
       (Some [YouTube.mkDescriptor (Some (js "https://r1.googlevideo.com/videoplayback?id=1"))
                None (Some (js "video/mp4; codecs=avc1")) (Some (js "1080p"))
                (js "hd1080") (Some (js "1000"));
              YouTube.mkDescriptor (Some (js "https://r1.googlevideo.com/videoplayback?id=1"))
                None (Some (js "video/webm; codecs=vp9")) (Some (js "720p"))
                (js "hd720") (Some (js "2000"))])
       None)).

(** The request [{ url }]. *)
Definition requestFor (u : jsstring) : Request.t :=
  Request.make (Some u) unset unset unset unset unset.

(** The query [?url=...] with no other parameter. *)
Definition queryFor (u : jsstring) : Query :=
  mkQuery (Some u) None None None None None.


Definition setInfo (request : Request.t) (i : field bool) : Request.t :=
  {| Request.url := Request.url request; Request.format := Request.format request;
     Request.quality := Request.quality request;
     Request.download := Request.download request;
     Request.info := i; Request.type := Request.type request |}.


(** An extraction that found three resolutions, out of order. *)
Definition threeResolutions : result VideoMetadata :=
  Ok (metadataOf
        [mp4Video (js "360p") 0 (js "https://r1.googlevideo.com/360");
         mp4Video (js "1080p60") 0 (js "https://r1.googlevideo.com/1080");
         mp4Video (js "720p") 0 (js "https://r1.googlevideo.com/720")]).


(** The two candidates of the watermark scenario, the larger one first. *)
Definition twoWatermarks : result VideoMetadata :=
  Ok (metadataOf
        [mp4Video (js "original (watermark)") 900000 (js "https://v16.tiktokcdn.com/w.mp4");
         mp4Video (js "original (no watermark)") 500000 (js "https://v16.tiktokcdn.com/n.mp4")]).

Definition nothingFound : result VideoMetadata :=
  Throw (js "No video formats found").

(** The main page answers 404 while the embed page and the API would
    answer. *)
Definition mainPageGone : TikTok.Net :=
  threePages tiktokUrl
    (TikTok.Response 404 (TikTok.mkBody blankHtml None))
    (TikTok.Response 200 (TikTok.mkBody embedHtml None))
    (TikTok.Response 200 apiBody).

(** The main page and the embed page answer with no video in them, and
    the API answers 500. *)
Definition apiDown : TikTok.Net :=
  threePages tiktokUrl
    (TikTok.Response 200 (TikTok.mkBody blankHtml None))
    (TikTok.Response 200 (TikTok.mkBody blankHtml None))
    (TikTok.Response 500 (TikTok.mkBody blankHtml None)).

(** A YouTube link and the id in it. *)
Definition sampleId : jsstring := js "dQw4w9WgXcQ".
Definition watchLink : jsstring := js "https://www.youtube.com/watch?v=dQw4w9WgXcQ&t=42s".

(** Two video formats, the higher resolution first. *)
Definition videoStreams : YouTube.StreamingData :=
  YouTube.mkStreamingData
    (Some [YouTube.mkDescriptor (Some (js "https://r1.googlevideo.com/2160")) None
             (Some (js "video/webm; codecs=vp9")) (Some (js "2160p"))
             (js "hd2160") (Some (js "900"));
           YouTube.mkDescriptor (Some (js "https://r1.googlevideo.com/1080")) None
             (Some (js "video/mp4; codecs=avc1")) (Some (js "1080p60"))
             (js "hd1080") (Some (js "500"))])
    None.

(** One video format and one audio format. *)
Definition mixedStreams : YouTube.StreamingData :=
  YouTube.mkStreamingData
    (Some [YouTube.mkDescriptor (Some (js "https://r1.googlevideo.com/720")) None
             (Some (js "video/mp4; codecs=avc1")) (Some (js "720p"))
             (js "hd720") (Some (js "300"));
           YouTube.mkDescriptor (Some (js "https://r1.googlevideo.com/audio")) None
             (Some (js "audio/mp4; codecs=mp4a")) None
             (js "tiny") (Some (js "100"))])
    None.

(** A watch page with a title and a player response that holds
    [streams]. *)
Definition watchPage (streams : YouTube.StreamingData) : YouTubePage.Page :=
  YouTubePage.mkPage (Some (js "Sample video")) None None None
    (YouTubePage.Json
       (YouTubePage.mkPlayerData (YouTube.mkPlayerResponse (Some streams))
          (Some (js "212")))).

(** A network on which the watch page of the sample video answers
    [answer]; every other fetch fails in transport. *)
Definition watchNet (answer : TikTok.FetchOutcome YouTubePage.Page)
  : YouTubePage.Net :=
  fun u =>
    if str_eqb u (YouTubePage.videoUrlOf sampleId) then answer
    else TikTok.NetworkError (js "getaddrinfo ENOTFOUND").

(** A short link, and the location its HEAD request lands on: the short
    link itself. *)
Definition shortLink : jsstring := js "https://vm.tiktok.com/ZMabcdef/".

Definition shortLocation : TikTok.Location :=
  TikTok.mkLocation shortLink (js "vm.tiktok.com") shortLink [] [].

(** A HEAD request that lands on [location], whatever the url. *)
Definition landsOn (location : TikTok.Location) : jsstring -> TikTok.HeadOutcome :=
  fun _ => TikTok.Landed location.

(** A landing page on the main host, with a tracked query and a fragment. *)
Definition trackedLocation : TikTok.Location :=
  TikTok.mkLocation
    (js "https://www.tiktok.com/@u/video/7?lang=en&id=a%20b&_r=1#top")
    (js "www.tiktok.com")
    (js "https://www.tiktok.com/@u/video/7")
    (js "?lang=en&id=a%20b&_r=1")
    (js "#top").

(** A descriptor with a MIME type that has parameters. *)
Definition webmDescriptor : YouTube.FormatDescriptor :=
  YouTube.mkDescriptor (Some (js "https://r1.googlevideo.com/2160")) None
    (Some (js "video/webm; codecs=vp9")) (Some (js "2160p"))
    (js "hd2160") (Some (js "900")).

(** The program on a watch page that answers with [streams] and on a
    TikTok network: platforms by host name, ASCII case mapping. *)
Definition sampleProgram (streams : YouTube.StreamingData) (net : TikTok.Net) : Env :=
  overPlatforms (watchNet (TikTok.Response 200 (watchPage streams)))
    (landsOn shortLocation) net (fixedEnv nothingFound nothingFound).

(** The request [{ url, download: true }] and the request
    [{ url, type: 'audio' }]. *)
Definition downloadRequest (u : jsstring) : Request.t :=
  Request.make (Some u) unset unset (val true) unset unset.


(** The query [?url=...&type=...]. *)
Definition typedQuery (u : jsstring) (t : MediaType) : Query :=
  mkQuery (Some u) None None None None (Some t).

(* ================================================================== *)
(** * Facts about the run time *)
(* ================================================================== *)

Lemma str_eqb_eq (s t : jsstring) : str_eqb s t = true <-> s = t.
Proof.
  revert t; induction s as [|c s IH]; intros [|d t]; simpl; try easy.
  rewrite andb_true_iff, N.eqb_eq, IH.
  split; [intros [-> ->]; reflexivity | intros [= -> ->]; auto].
Qed.

Lemma str_eqb_refl (s : jsstring) : str_eqb s s = true.
Proof. apply str_eqb_eq; reflexivity. Qed.

Lemma nonempty_true (s : jsstring) : nonempty s = true <-> s <> [].
Proof. destruct s; simpl; split; congruence. Qed.

Lemma Forall_filter_same {A : Type} (p : A -> bool) (l : list A) :
  Forall (fun x => p x = true) (filter p l).
Proof. apply Forall_forall; intros x Hx; apply filter_In in Hx; tauto. Qed.

Lemma filter_comm {A : Type} (p q : A -> bool) (l : list A) :
  filter p (filter q l) = filter q (filter p l).
Proof.
  induction l as [|x l IH]; simpl; [reflexivity|].
  destruct (q x) eqn:Hq, (p x) eqn:Hp; simpl; rewrite ?Hq, ?Hp, IH; reflexivity.
Qed.

Lemma StronglySorted_filter {A : Type} (R : A -> A -> Prop) (p : A -> bool)
  (l : list A) : StronglySorted R l -> StronglySorted R (filter p l).
Proof.
  induction 1 as [|x l Hs IH Hx]; simpl; [constructor|].
  destruct (p x); [|exact IH].
  constructor; [exact IH|].
  apply Forall_forall; intros y Hy; apply filter_In in Hy.
  rewrite Forall_forall in Hx; apply Hx; tauto.
Qed.

(** ** The sort permutes, and under a ranking it sorts stably *)

Section SortFacts.
Context {A K : Type}.
Variable comparefn : A -> A -> number.

Lemma insert_perm (x : A) (l : list A) :
  Permutation (insert comparefn x l) (x :: l).
Proof.
  induction l as [|y l IH]; simpl; [reflexivity|].
  destruct (comes_after comparefn x y); [|reflexivity].
  rewrite IH; apply perm_swap.
Qed.

Lemma sort_perm (l : list A) : Permutation (sort comparefn l) l.
Proof.
  induction l as [|x l IH]; simpl; [reflexivity|].
  rewrite insert_perm; constructor; exact IH.
Qed.

(** The comparator ranks by [rank]: [b] has to come before [a] exactly
    when the rank of [b] strictly precedes the rank of [a], for a strict
    weak order [precedes] on ranks. *)
Variable rank : A -> K.
Variable precedes : K -> K -> bool.
Hypothesis comes_after_rank :
  forall a b, comes_after comparefn a b = precedes (rank b) (rank a).
Hypothesis precedes_asym :
  forall x y, precedes x y = true -> precedes y x = false.
Hypothesis precedes_negtrans :
  forall x y z, precedes y x = false -> precedes z y = false ->
                precedes z x = false.

Lemma insert_sorted (x : A) (l : list A) :
  StronglySorted (in_order rank precedes) l -> StronglySorted (in_order rank precedes) (insert comparefn x l).
Proof.
  induction 1 as [|y l Hs IH Hy]; simpl.
  - repeat constructor.
  - destruct (comes_after comparefn x y) eqn:E; rewrite comes_after_rank in E.
    + constructor; [exact IH|].
      apply Forall_forall; intros z Hz.
      apply (Permutation_in _ (insert_perm x l)) in Hz.
      destruct Hz as [<-|Hz].
      * apply precedes_asym; exact E.
      * rewrite Forall_forall in Hy; apply Hy; exact Hz.
    + constructor; [constructor; assumption|].
      constructor; [exact E|].
      apply Forall_forall; intros z Hz.
      rewrite Forall_forall in Hy.
      unfold in_order; eapply precedes_negtrans; [exact E | apply Hy; exact Hz].
Qed.

Lemma sort_sorted (l : list A) : StronglySorted (in_order rank precedes) (sort comparefn l).
Proof.
  induction l as [|x l IH]; simpl; [constructor | apply insert_sorted, IH].
Qed.

(** Stability: records that tie with each other keep their order. *)
Section Stable.
Variable tie : A -> bool.
Hypothesis tie_tied :
  forall a b, tie a = true -> tie b = true -> precedes (rank b) (rank a) = false.



End Stable.

End SortFacts.

(** A list the ranking leaves in order is not changed by the sort. *)
Lemma sort_sorted_id {A K : Type} (comparefn : A -> A -> number)
  (rank : A -> K) (precedes : K -> K -> bool) (l : list A) :
  (forall a b, comes_after comparefn a b = precedes (rank b) (rank a)) ->
  StronglySorted (in_order rank precedes) l -> sort comparefn l = l.
Proof.
  intros Hrank; induction 1 as [|x l Hs IH Hx]; [reflexivity|].
  cbn [sort fold_right]; fold (sort comparefn l); rewrite IH.
  destruct l as [|y l]; [reflexivity|].
  cbn [insert]; rewrite Hrank.
  inversion Hx as [|? ? Hxy _]; subst.
  unfold in_order in Hxy; rewrite Hxy; reflexivity.
Qed.

(** ** Results *)

Arguments js : simpl never.

Lemma bind_Ok {A B : Type} (r : result A) (k : A -> result B) (b : B) :
  bind r k = Ok b -> exists a, r = Ok a /\ k a = Ok b.
Proof. destruct r; simpl; [eauto | discriminate]. Qed.

Lemma bind_Throw {A B : Type} (r : result A) (k : A -> result B) (m : jsstring) :
  bind r k = Throw m -> r = Throw m \/ exists a, r = Ok a /\ k a = Throw m.
Proof. destruct r; simpl; [eauto | intros [= ->]; auto]. Qed.

Lemma rethrow_Ok {A : Type} (prefix : jsstring) (body : result A) (a : A) :
  rethrow prefix body = Ok a <-> body = Ok a.
Proof. destruct body; simpl; split; congruence. Qed.

Lemma rethrow_Throw {A : Type} (prefix : jsstring) (body : result A) (m : jsstring) :
  rethrow prefix body = Throw m <->
  exists inner, body = Throw inner /\ m = prefix ++ inner.
Proof.
  destruct body; simpl; split.
  - discriminate.
  - intros (inner & [=] & _).
  - intros [= <-]; eauto.
  - intros (inner & [= ->] & ->); reflexivity.
Qed.

(* ================================================================== *)
(** * Facts about the orchestrator *)
(* ================================================================== *)

Section OrchestratorFacts.
Variable env : Env.

(** Each filter either throws or keeps a sub-selection, in order. *)
Lemma filterFormat_selects params fs kept :
  filterFormat env params fs = Ok kept -> exists p, kept = filter p fs.
Proof.
  unfold filterFormat.
  destruct (nonempty _).
  - destruct (filter _ fs) eqn:E; [discriminate|intros [= <-]; eauto].
  - intros [= <-]; exists (fun _ => true).
    clear; induction fs; simpl; congruence.
Qed.

Lemma filterQuality_selects params fs kept :
  filterQuality env params fs = Ok kept -> exists p, kept = filter p fs.
Proof.
  unfold filterQuality.
  destruct (_ && _).
  - destruct (filter _ fs) eqn:E; [discriminate|intros [= <-]; eauto].
  - intros [= <-]; exists (fun _ => true).
    clear; induction fs; simpl; congruence.
Qed.

Lemma filterType_selects params fs kept :
  filterType params fs = Ok kept -> exists p, kept = filter p fs.
Proof.
  unfold filterType.
  destruct (Params.type params).
  - destruct (filter _ fs) eqn:E; [discriminate|intros [= <-]; eauto].
  - intros [= <-]; exists (fun _ => true).
    clear; induction fs; simpl; congruence.
Qed.

Lemma extractVideoBody_Ok params r :
  extractVideoBody env params = Ok r ->
  exists m fs first rest,
    perPlatform env params = Ok m /\
    filterType params (formats m) = Ok fs /\
    filter hasUrl fs = first :: rest /\
    r = finish params m first rest.
Proof.
  unfold extractVideoBody; intros H.
  apply bind_Ok in H as (m & Hm & H).
  apply bind_Ok in H as (fs & Hfs & H).
  destruct (filter hasUrl fs) as [|first rest] eqn:E; [discriminate|].
  injection H as <-.
  exists m, fs, first, rest; auto.
Qed.

Lemma extractVideo_Ok request r :
  extractVideo env request = Ok r ->
  exists u, Request.url request = Some u /\ u <> [] /\
            extractVideoBody env (paramsOf u request) = Ok r.
Proof.
  unfold extractVideo.
  destruct (Request.url request) as [[|c u]|]; try discriminate.
  intros H; apply rethrow_Ok in H.
  exists (c :: u); repeat split; [discriminate | exact H].
Qed.

Lemma formats_finish params m first rest :
  formats (finish params m first rest) =
  if or_false (Params.info params) then [] else first :: rest.
Proof.
  unfold finish.
  destruct (or_false (Params.info params)), (or_false (Params.download params));
    reflexivity.
Qed.

End OrchestratorFacts.

Section InfoOnly.
Variable env : Env.

Lemma paramsOf_setInfo u request i :
  paramsOf u (setInfo request i) =
  {| Params.url := u;
     Params.format := Params.format (paramsOf u request);
     Params.quality := Params.quality (paramsOf u request);
     Params.download := Params.download (paramsOf u request);
     Params.info := spread (Some (or_false (read i))) i;
     Params.type := Params.type (paramsOf u request) |}.
Proof. reflexivity. Qed.

(** The [try] block does not look at [info] before its last step. *)
Lemma extractVideoBody_info u fmt q d t :
  extractVideoBody env (Params.make u fmt q d (Some true) t) =
  bind (extractVideoBody env (Params.make u fmt q d (Some false) t))
    (fun r => Ok (setDownloadUrl (setFormats r []) None)).
Proof.
  unfold extractVideoBody.
  change (perPlatform env (Params.make u fmt q d (Some true) t))
    with (perPlatform env (Params.make u fmt q d (Some false) t)).
  destruct (perPlatform env _) as [m|]; simpl; [|reflexivity].
  change (filterType (Params.make u fmt q d (Some true) t))
    with (filterType (Params.make u fmt q d (Some false) t)).
  destruct (filterType _ _) as [fs|]; simpl; [|reflexivity].
  destruct (filter hasUrl fs); simpl; [reflexivity|].
  destruct (or_false d); reflexivity.
Qed.

(** C2. A request with [info: true] runs the whole pipeline of the same
    request without [info] and only then clears the result: it succeeds
    exactly when that run succeeds, which takes at least one format with a
    url after all filters; on success its [formats] are empty and its
    [downloadUrl] is absent; and it fails with the same error when that
    run finds no valid format. *)
Theorem info_clears_after_validation (request : Request.t) :
  Request.info request = val true ->
  extractVideo env request =
    bind (extractVideo env (setInfo request (val false)))
      (fun r => Ok (setDownloadUrl (setFormats r []) None))
  /\ (forall r, extractVideo env request = Ok r ->
        formats r = [] /\ downloadUrl r = None)
  /\ (forall r0, extractVideo env (setInfo request (val false)) = Ok r0 ->
        formats r0 <> [] /\ Forall (fun f => hasUrl f = true) (formats r0))
  /\ (forall m, extractVideo env (setInfo request (val false)) = Throw m ->
        extractVideo env request = Throw m).
Proof.
  intros Hinfo.
  assert (Heq : extractVideo env request =
    bind (extractVideo env (setInfo request (val false)))
      (fun r => Ok (setDownloadUrl (setFormats r []) None))).
  { unfold extractVideo; simpl.
    destruct (Request.url request) as [[|c u]|]; try reflexivity.
    rewrite paramsOf_setInfo; simpl.
    replace (paramsOf (c :: u) request) with
      (Params.make (c :: u) (Params.format (paramsOf (c :: u) request))
         (Params.quality (paramsOf (c :: u) request))
         (Params.download (paramsOf (c :: u) request)) (Some true)
         (Params.type (paramsOf (c :: u) request))) at 1
      by (unfold paramsOf; rewrite Hinfo; reflexivity).
    rewrite extractVideoBody_info.
    destruct (extractVideoBody env _); reflexivity. }
  split; [exact Heq|].
  split; [|split].
  - intros r Hr. rewrite Heq in Hr.
    apply bind_Ok in Hr as (r0 & _ & [= <-]); auto.
  - intros r0 Hr0.
    apply extractVideo_Ok in Hr0 as (u & _ & _ & Hb).
    apply extractVideoBody_Ok in Hb as (m & fs & first & rest & _ & _ & Hf & ->).
    rewrite formats_finish; simpl.
    split; [discriminate|].
    rewrite <- Hf; apply Forall_filter_same.
  - intros m Hm; rewrite Heq, Hm; reflexivity.
Qed.

End InfoOnly.

Section Failures.
Variable env : Env.

Lemma filterFormat_Throw params fs m :
  filterFormat env params fs = Throw m ->
  m = js "No formats matching '" ++ or_else (Params.format params) [] ++ js "' found".
Proof.
  unfold filterFormat.
  destruct (nonempty _); [|discriminate].
  destruct (filter _ fs); [intros [= <-]; reflexivity | discriminate].
Qed.

Lemma filterQuality_Throw params fs m :
  filterQuality env params fs = Throw m ->
  m = js "No quality matching '" ++ or_else (Params.quality params) [] ++ js "' found".
Proof.
  unfold filterQuality.
  destruct (_ && _); [|discriminate].
  destruct (filter _ fs); [intros [= <-]; reflexivity | discriminate].
Qed.

Lemma filterType_Throw params fs m :
  filterType params fs = Throw m ->
  exists t, Params.type params = Some t /\
            m = js "No " ++ MediaType_text t ++ js " formats found".
Proof.
  unfold filterType.
  destruct (Params.type params) as [t|]; [|discriminate].
  destruct (filter _ fs); [intros [= <-]; eauto | discriminate].
Qed.

Lemma perPlatform_Throw params m :
  perPlatform env params = Throw m -> StageFailure env params m.
Proof.
  unfold perPlatform.
  destruct (detectPlatform env (Params.url params)) eqn:Hp.
  - intros H. apply bind_Throw in H as [H|(r & Hr & H)].
    { apply YouTubeFailed; assumption. }
    apply bind_Throw in H as [H|(fs & Hfs & H)].
    { apply filterFormat_Throw in H as ->; apply NoFormatMatch. }
    apply bind_Throw in H as [H|(fs' & Hfs' & H)]; [|discriminate].
    apply filterQuality_Throw in H as ->; apply NoQualityMatch.
  - intros H. apply bind_Throw in H as [H|(r & Hr & H)].
    { apply TikTokFailed; assumption. }
    apply bind_Throw in H as [H|(fs & Hfs & H)].
    { apply filterFormat_Throw in H as ->; apply NoFormatMatch. }
    apply bind_Throw in H as [H|(fs' & Hfs' & H)]; [|discriminate].
    apply filterQuality_Throw in H as ->; apply NoQualityMatch.
  - intros [= <-]; apply Unsupported; assumption.
Qed.

Lemma extractVideoBody_Throw params m :
  extractVideoBody env params = Throw m -> StageFailure env params m.
Proof.
  unfold extractVideoBody; intros H.
  apply bind_Throw in H as [H|(r & Hr & H)].
  { apply perPlatform_Throw; exact H. }
  apply bind_Throw in H as [H|(fs & Hfs & H)].
  { apply filterType_Throw in H as (t & Ht & ->); apply NoTypeMatch; exact Ht. }
  destruct (filter hasUrl fs); [|discriminate].
  injection H as <-; apply NoValidFormat.
Qed.

(** C9. A request whose url is missing or empty is rejected with the bare
    message 'URL is required'.  Every other failure of [extractVideo] is
    the message of one failure of the [try] block (the platform
    extraction's own error, an unsupported platform, or a filter stage
    that left nothing), with 'Error extracting video: ' put before it
    once. *)
Theorem extractVideo_failure_messages (request : Request.t) :
  ((Request.url request = None \/ Request.url request = Some []) ->
   extractVideo env request = Throw (js "URL is required"))
  /\
  (forall m, extractVideo env request = Throw m ->
     ((Request.url request = None \/ Request.url request = Some [])
      /\ m = js "URL is required")
     \/
     (exists u inner,
        Request.url request = Some u /\ u <> [] /\
        m = js "Error extracting video: " ++ inner /\
        extractVideoBody env (paramsOf u request) = Throw inner /\
        StageFailure env (paramsOf u request) inner)).
Proof.
  unfold extractVideo; split.
  - intros [-> | ->]; reflexivity.
  - intros m.
    destruct (Request.url request) as [[|c u]|].
    + intros [= <-]; left; auto.
    + intros H; right.
      apply rethrow_Throw in H as (inner & Hb & ->).
      exists (c :: u), inner; repeat split; try assumption; try discriminate.
      apply extractVideoBody_Throw; exact Hb.
    + intros [= <-]; left; auto.
Qed.

End Failures.

(* ================================================================== *)
(** * Facts about the TikTok chain *)
(* ================================================================== *)

Section Dedup.
Import TikTok.

Lemma findIndex_find {A : Type} (p : A -> bool) (l : list A) (i : nat) :
  findIndex p l = Some i ->
  exists x, nth_error l i = Some x /\ find p l = Some x /\ p x = true.
Proof.
  revert i; induction l as [|y l IH]; simpl; intros i; [discriminate|].
  destruct (p y) eqn:Hy.
  - intros [= <-]; exists y; auto.
  - destruct (findIndex p l) as [j|]; [|discriminate].
    intros [= <-]; simpl; apply IH; reflexivity.
Qed.

Lemma find_findIndex {A : Type} (p : A -> bool) (l : list A) (x : A) :
  find p l = Some x -> exists i, findIndex p l = Some i /\ nth_error l i = Some x.
Proof.
  induction l as [|y l IH]; simpl; [discriminate|].
  destruct (p y) eqn:Hy.
  - intros [= <-]; exists O; auto.
  - intros H; destruct (IH H) as (i & -> & Hi); exists (S i); auto.
Qed.

Lemma findIndex_ext {A : Type} (p q : A -> bool) (l : list A) :
  (forall x, p x = q x) -> findIndex p l = findIndex q l.
Proof.
  intros E; induction l as [|y l IH]; simpl; [reflexivity|].
  rewrite E, IH; reflexivity.
Qed.

Lemma In_combine_seq {A : Type} (l : list A) (n i : nat) (x : A) :
  In (i, x) (combine (seq n (List.length l)) l) <->
  (n <= i)%nat /\ nth_error l (i - n) = Some x.
Proof.
  revert n; induction l as [|y l IH]; intros n; simpl.
  - split; [tauto|]. intros [_ H]; destruct (i - n)%nat; discriminate.
  - rewrite IH; split.
    + intros [[= <- <-]|[Hle H]].
      * rewrite Nat.sub_diag; auto.
      * split; [lia|].
        replace (i - n)%nat with (S (i - S n)) by lia; exact H.
    + intros [Hle H].
      destruct (Nat.eq_dec i n) as [->|Hne].
      * rewrite Nat.sub_diag in H; injection H as <-; auto.
      * right; split; [lia|].
        replace (i - n)%nat with (S (i - S n)) in H by lia; exact H.
Qed.

Lemma map_fst_combine_seq {A : Type} (l : list A) (n : nat) :
  map fst (combine (seq n (List.length l)) l) = seq n (List.length l).
Proof.
  revert n; induction l as [|y l IH]; intros n; simpl; [reflexivity|].
  rewrite IH; reflexivity.
Qed.

Lemma NoDup_map_filter {A B : Type} (h : A -> B) (p : A -> bool) (l : list A) :
  NoDup (map h l) -> NoDup (map h (filter p l)).
Proof.
  induction l as [|x l IH]; simpl; [auto|].
  intros H; inversion H as [|? ? Hn Hd]; subst.
  destruct (p x); simpl; [constructor|]; auto.
  intros Hin; apply Hn.
  apply in_map_iff in Hin as (y & <- & Hy).
  apply filter_In in Hy as [Hy _]; apply in_map; exact Hy.
Qed.

Lemma NoDup_map_by {A B C : Type} (h : A -> B) (k : A -> C) (l : list A) :
  NoDup (map h l) ->
  (forall x y, In x l -> In y l -> k x = k y -> h x = h y) ->
  NoDup (map k l).
Proof.
  induction l as [|x l IH]; simpl; intros H Hk; [constructor|].
  inversion H as [|? ? Hn Hd]; subst.
  constructor.
  - intros Hin; apply Hn.
    apply in_map_iff in Hin as (y & Hy & Hyl).
    rewrite (Hk x y); [apply in_map; exact Hyl | auto | auto | congruence].
  - apply IH; [exact Hd|]. intros; apply Hk; auto.
Qed.

(** A record survives the deduplication exactly when it stands at the
    first index that holds its url. *)
Lemma In_dedupByUrl (l : list VideoFormat) (f : VideoFormat) :
  In f (dedupByUrl l) <->
  exists i, nth_error l i = Some f /\
            findIndex (fun t => str_eqb (url t) (url f)) l = Some i.
Proof.
  unfold dedupByUrl; rewrite in_map_iff; split.
  - intros ([i g] & <- & H); simpl.
    apply filter_In in H as [Hin Hp].
    apply In_combine_seq in Hin as [_ Hn]; rewrite Nat.sub_0_r in Hn.
    destruct (findIndex _ l) as [j|] eqn:E; [|discriminate].
    apply Nat.eqb_eq in Hp as ->; eauto.
  - intros (i & Hn & Hi); exists (i, f); split; [reflexivity|].
    apply filter_In; split.
    + apply In_combine_seq; rewrite Nat.sub_0_r; split; [lia | exact Hn].
    + rewrite Hi; apply Nat.eqb_refl.
Qed.

Lemma dedupByUrl_first (l : list VideoFormat) (f : VideoFormat) :
  In f (dedupByUrl l) ->
  In f l /\ find (fun t => str_eqb (url t) (url f)) l = Some f.
Proof.
  intros H; apply In_dedupByUrl in H as (i & Hn & Hi).
  split; [eapply nth_error_In; exact Hn|].
  apply findIndex_find in Hi as (x & Hx & Hf & _); congruence.
Qed.

Lemma dedupByUrl_covers (l : list VideoFormat) (c : VideoFormat) :
  In c l -> exists f, In f (dedupByUrl l) /\ url f = url c.
Proof.
  intros Hc.
  destruct (find (fun t => str_eqb (url t) (url c)) l) as [f|] eqn:E.
  - pose proof (find_some _ _ E) as [_ Hu]; apply str_eqb_eq in Hu.
    apply find_findIndex in E as (i & Hi & Hn).
    exists f; split; [|exact Hu].
    apply In_dedupByUrl; exists i; split; [exact Hn|].
    rewrite <- Hi; apply findIndex_ext; intros x; rewrite Hu; reflexivity.
  - pose proof (find_none _ _ E c Hc) as H; simpl in H.
    rewrite str_eqb_refl in H; discriminate.
Qed.

Lemma dedupByUrl_NoDup (l : list VideoFormat) : NoDup (map url (dedupByUrl l)).
Proof.
  unfold dedupByUrl; rewrite map_map.
  apply NoDup_map_by with (h := fst).
  - apply NoDup_map_filter; rewrite map_fst_combine_seq; apply seq_NoDup.
  - intros [i f] [j g] Hf Hg; simpl; intros Hu.
    apply filter_In in Hf as [_ Hf]; apply filter_In in Hg as [_ Hg].
    rewrite (findIndex_ext _ (fun t => str_eqb (url t) (url g))) in Hf
      by (intros; rewrite Hu; reflexivity).
    destruct (findIndex _ l) as [n|]; [|discriminate].
    apply Nat.eqb_eq in Hf, Hg; congruence.
Qed.

End Dedup.

Section TikTokFacts.
Import TikTok.

Lemma fetchTikTokInfo_answered (net : Net) (pageUrl : jsstring) (status : Z)
  (body : Body) :
  net pageUrl = Response status body -> ok status = true ->
  exists info,
    fetchTikTokInfo net pageUrl = Ok info /\
    info_formats info =
      sort byWatermark (dedupByUrl (filter hasUrl (gather net pageUrl (html body)))).
Proof.
  intros Hn Hok; unfold fetchTikTokInfo; rewrite Hn, Hok; simpl.
  eexists; split; reflexivity.
Qed.

Lemma fetchTikTokInfo_Ok (net : Net) (pageUrl : jsstring) (info : TikTokVideoInfo) :
  fetchTikTokInfo net pageUrl = Ok info ->
  exists status body,
    net pageUrl = Response status body /\ ok status = true /\
    info_formats info =
      sort byWatermark (dedupByUrl (filter hasUrl (gather net pageUrl (html body)))).
Proof.
  unfold fetchTikTokInfo.
  destruct (net pageUrl) as [m|status body]; simpl; [discriminate|].
  destruct (ok status) eqn:Hok; simpl; [|discriminate].
  intros [= <-]; exists status, body; auto.
Qed.

(** C5 (as amended). The TikTok normalizer returns one record for each
    distinct non-empty url among the candidates of the chain: no two
    records share a url, every returned record is the first candidate
    with its url (so it carries that candidate's other fields), and every
    candidate's url is the url of a returned record. *)
Theorem tiktok_formats_deduplicated (net : Net) (pageUrl : jsstring)
  (status : Z) (body : Body) :
  net pageUrl = Response status body -> ok status = true ->
  exists info,
    fetchTikTokInfo net pageUrl = Ok info /\
    NoDup (map url (info_formats info)) /\
    (forall f, In f (info_formats info) ->
       In f (gather net pageUrl (html body)) /\
       find (fun t => str_eqb (url t) (url f))
         (filter hasUrl (gather net pageUrl (html body))) = Some f) /\
    (forall c, In c (gather net pageUrl (html body)) -> url c <> [] ->
       exists f, In f (info_formats info) /\ url f = url c).
Proof.
  intros Hn Hok.
  destruct (fetchTikTokInfo_answered net pageUrl status body Hn Hok)
    as (info & Hinfo & Hf).
  exists info; split; [exact Hinfo|]; rewrite Hf.
  set (cands := filter hasUrl (gather net pageUrl (html body))).
  pose proof (sort_perm byWatermark (dedupByUrl cands)) as Hperm.
  split; [|split].
  - eapply Permutation_NoDup;
      [apply Permutation_map, Permutation_sym, Hperm | apply dedupByUrl_NoDup].
  - intros f Hin. apply (Permutation_in _ Hperm) in Hin.
    apply dedupByUrl_first in Hin as [Hin Hfind]; split; [|exact Hfind].
    apply filter_In in Hin; tauto.
  - intros c Hc Hu.
    destruct (dedupByUrl_covers cands c) as (f & Hin & Huf).
    { apply filter_In; split; [exact Hc | apply nonempty_true; exact Hu]. }
    exists f; split; [|exact Huf].
    apply (Permutation_in _ (Permutation_sym Hperm)); exact Hin.
Qed.

(** C3 (as amended). [fetchTikTokInfo] fails exactly when the fetch of the
    main page fails, in transport or with a status outside 2xx, though
    that fetch serves the first strategies of the chain.  A failed fetch
    of the embed page or of the API (the last strategy) is swallowed: the
    strategy yields no format, and after a failed embed fetch the chain
    goes on with the API.  When the chain ends without a format,
    [extractTikTokVideo] fails with 'No video formats found', not with the
    error of a fetch. *)
Theorem fetch_failure_is_fatal_on_the_main_page_only (net : Net)
  (pageUrl : jsstring) :
  is_ok (fetchTikTokInfo net pageUrl) = negb (failed (net pageUrl))
  /\ (forall message, net pageUrl = NetworkError message ->
        fetchTikTokInfo net pageUrl =
        Throw (js "Failed to fetch TikTok info: " ++ message))
  /\ (forall status body, net pageUrl = Response status body ->
        ok status = false ->
        fetchTikTokInfo net pageUrl =
        Throw (js "Failed to fetch TikTok info: "
               ++ js "HTTP error! status: " ++ Z_to_js status))
  /\ (forall embedUrl, failed (net embedUrl) = true ->
        extractFromEmbed net embedUrl = [])
  /\ (forall videoId, videoIdOf pageUrl = Some videoId ->
        failed (net (apiUrlOf videoId)) = true ->
        extractFromApi net pageUrl = [])
  /\ (forall doc embedUrl,
        extractFormats doc (extractVideoData doc) = [] ->
        getEmbedUrl pageUrl = Some embedUrl ->
        failed (net embedUrl) = true ->
        gather net pageUrl doc = extractFromApi net pageUrl)
  /\ (forall sanitizeTikTokUrl requested info,
        sanitizeTikTokUrl requested = Ok pageUrl ->
        fetchTikTokInfo net pageUrl = Ok info ->
        info_formats info = [] ->
        extractTikTokVideo sanitizeTikTokUrl net requested =
        Throw (js "Failed to extract TikTok video: "
               ++ js "No video formats found")).
Proof.
  assert (Hembed : forall embedUrl, failed (net embedUrl) = true ->
                                    extractFromEmbed net embedUrl = []).
  { intros e He; unfold extractFromEmbed.
    destruct (net e) as [m|status body]; simpl in *; [reflexivity|].
    rewrite He; reflexivity. }
  repeat split.
  - unfold fetchTikTokInfo.
    destruct (net pageUrl) as [m|status body]; simpl; [reflexivity|].
    destruct (ok status); reflexivity.
  - intros message Hn; unfold fetchTikTokInfo; rewrite Hn; reflexivity.
  - intros status body Hn Hok; unfold fetchTikTokInfo; rewrite Hn, Hok.
    reflexivity.
  - exact Hembed.
  - intros videoId Hid Hf; unfold extractFromApi; rewrite Hid.
    destruct (nonempty videoId); simpl; [|reflexivity].
    destruct (net (apiUrlOf videoId)) as [m|status body]; simpl in *;
      [reflexivity|].
    rewrite Hf; reflexivity.
  - intros doc embedUrl Hpage He Hf; unfold gather.
    rewrite Hpage, He, (Hembed embedUrl Hf); reflexivity.
  - intros sanitizeTikTokUrl requested info Hs Hinfo Hnone.
    unfold extractTikTokVideo; rewrite Hs; cbn [bind].
    rewrite Hinfo; cbn [bind]; rewrite Hnone; reflexivity.
Qed.

End TikTokFacts.

(* ================================================================== *)
(** * Facts about the YouTube normalizer *)
(* ================================================================== *)

Section YouTubeFacts.
Import YouTube.

Lemma toVideoFormat_url (d : FormatDescriptor) (f : VideoFormat) :
  toVideoFormat d = Some f -> url f = finalUrl d /\ hasUrl f = true.
Proof.
  unfold toVideoFormat.
  destruct (nonempty (finalUrl d)) eqn:E; [|discriminate].
  destruct (getMimeType (d_mimeType d)) as [m t].
  intros [= <-]; simpl; auto.
Qed.

Lemma In_pushAll (ds : list FormatDescriptor) (f : VideoFormat) :
  In f (pushAll ds) <-> exists d, In d ds /\ toVideoFormat d = Some f.
Proof.
  unfold pushAll; rewrite in_flat_map; split.
  - intros (d & Hd & Hf); exists d; split; [exact Hd|].
    destruct (toVideoFormat d) as [g|]; simpl in Hf; [|tauto].
    destruct Hf as [->|[]]; reflexivity.
  - intros (d & Hd & Hf); exists d; split; [exact Hd|].
    rewrite Hf; simpl; auto.
Qed.


Lemma extractFormats_hasUrl (pr : PlayerResponse) :
  Forall (fun f => hasUrl f = true) (extractFormatsFromPlayerResponse pr).
Proof.
  unfold extractFormatsFromPlayerResponse.
  destruct (streamingData pr) as [sd|]; [|constructor].
  apply Forall_forall; intros f Hf.
  apply (Permutation_in _ (sort_perm byResolution (collected sd))) in Hf.
  unfold collected in Hf; apply in_app_or in Hf.
  destruct Hf as [Hf|Hf]; apply In_pushAll in Hf as (d & _ & Hd);
    apply toVideoFormat_url in Hd; tauto.
Qed.

End YouTubeFacts.

(* ================================================================== *)
(** * What a caller receives *)
(* ================================================================== *)

Section Returned.
Variable env : Env.

Lemma MediaType_cases (t : MediaType) : t = audio \/ t = video.
Proof. destruct t; auto. Qed.

Lemma hasUrl_valid (fs : list VideoFormat) :
  Forall (fun f => hasUrl f = true) fs ->
  Forall (fun f => url f <> [] /\ (type f = audio \/ type f = video)) fs.
Proof.
  apply Forall_impl; intros f Hf; split;
    [apply nonempty_true; exact Hf | apply MediaType_cases].
Qed.

(** C8. Every record in the [formats] of a successful [extractVideo]
    result and in the [/formats] response has a non-empty url and a type
    that is [audio] or [video].  The last filter of [extractVideo] drops
    the records without url whatever the platform extraction returned,
    although the normalizers of both platforms only return records with
    a url; when it leaves nothing the call fails with 'No valid formats
    found with URLs', so a success without [info] has at least one
    format, and so has every [/formats] response. *)
Theorem returned_formats_are_valid :
  (forall request r, extractVideo env request = Ok r ->
     Forall (fun f => url f <> [] /\ (type f = audio \/ type f = video))
       (formats r))
  /\ (forall query response, formatsHandler env query = Ok response ->
        listed response <> [] /\
        Forall (fun f => url f <> [] /\ (type f = audio \/ type f = video))
          (listed response))
  /\ (forall params m fs,
        perPlatform env params = Ok m ->
        filterType params (formats m) = Ok fs ->
        filter hasUrl fs = [] ->
        extractVideoBody env params = Throw (js "No valid formats found with URLs"))
  /\ (forall request u r,
        Request.url request = Some u ->
        extractVideo env request = Ok r ->
        or_false (Params.info (paramsOf u request)) = false ->
        formats r <> [])
  /\ (forall playerResponse,
        Forall (fun f => hasUrl f = true)
          (YouTube.extractFormatsFromPlayerResponse playerResponse))
  /\ (forall net pageUrl info,
        TikTok.fetchTikTokInfo net pageUrl = Ok info ->
        Forall (fun f => hasUrl f = true) (TikTok.info_formats info)).
Proof.
  repeat split.
  - intros request r Hr.
    apply extractVideo_Ok in Hr as (u & _ & _ & Hb).
    apply extractVideoBody_Ok in Hb as (m & fs & first & rest & _ & _ & Hf & ->).
    rewrite formats_finish.
    destruct (or_false _); [constructor|].
    apply hasUrl_valid; rewrite <- Hf; apply Forall_filter_same.
  - unfold formatsHandler in H.
    destruct (negb _); [discriminate|].
    apply rethrow_Ok in H; apply bind_Ok in H as (fs & _ & H).
    destruct (map _ (filter hasUrl fs)) eqn:E; [discriminate|].
    injection H as <-; simpl; discriminate.
  - unfold formatsHandler in H.
    destruct (negb _); [discriminate|].
    apply rethrow_Ok in H; apply bind_Ok in H as (fs & _ & H).
    destruct (map _ (filter hasUrl fs)) eqn:E; [discriminate|].
    injection H as <-; simpl; rewrite <- E.
    apply hasUrl_valid, Forall_forall; intros f Hf.
    apply in_map_iff in Hf as (g & <- & Hg).
    apply filter_In in Hg as [_ Hg]; exact Hg.
  - intros params m fs Hm Hfs Hf; unfold extractVideoBody.
    rewrite Hm; simpl; rewrite Hfs; simpl; rewrite Hf; reflexivity.
  - intros request u r Hu Hr Hi.
    apply extractVideo_Ok in Hr as (u' & Hu' & _ & Hb).
    assert (u' = u) as -> by congruence.
    apply extractVideoBody_Ok in Hb as (m & fs & first & rest & _ & _ & _ & ->).
    rewrite formats_finish, Hi; discriminate.
  - apply extractFormats_hasUrl.
  - intros net pageUrl info Hinfo.
    apply fetchTikTokInfo_Ok in Hinfo as (status & body & _ & _ & ->).
    apply Forall_forall; intros f Hf.
    apply (Permutation_in _ (sort_perm _ _)) in Hf.
    apply dedupByUrl_first in Hf as [Hf _].
    apply filter_In in Hf; tauto.
Qed.

End Returned.

(* ================================================================== *)
(** * Facts about the rankings *)
(* ================================================================== *)

Section QualityNumber.

Lemma rep_match_Some {R : Type} (p : char -> bool) (least : nat) (s : jsstring)
  (k : jsstring -> option R) (r : R) :
  rep_match p least s k = Some r ->
  exists n, (least <= n <= List.length s)%nat /\
            forallb p (firstn n s) = true /\ k (skipn n s) = Some r.
Proof.
  revert least; induction s as [|c s IH]; intros least; simpl.
  - destruct least; [|discriminate].
    intros H; exists O; simpl; auto.
  - destruct (p c) eqn:Hc.
    + destruct (rep_match p (Nat.pred least) s k) as [r'|] eqn:E.
      * intros [= ->]. apply IH in E as (n & Hn & Hp & Hk).
        exists (S n); simpl; rewrite Hc, Hp; repeat split; auto; lia.
      * destruct least; [|discriminate].
        intros H; exists O; simpl; repeat split; auto; lia.
    + destruct least; [|discriminate].
      intros H; exists O; simpl; repeat split; auto; lia.
Qed.

(** A match of [/(\d+)p/] captures a non-empty run of digits. *)
Lemma resolutionPattern_capture (s : jsstring) (cap : option jsstring) :
  exec resolutionPattern s = Some cap ->
  exists digits, cap = Some digits /\ digits <> [] /\
                 forallb is_digit digits = true.
Proof.
  induction s as [|c s IH].
  - simpl; discriminate.
  - cbn [exec].
    destruct (rmatch resolutionPattern (c :: s) None (fun _ cap0 => Some cap0))
      as [cap'|] eqn:E; [|exact IH].
    intros [= ->]; clear IH.
    cbn [resolutionPattern rmatch] in E.
    apply rep_match_Some in E as (n & Hn & Hp & Hk).
    destruct (skipn n (c :: s)) as [|d rest] eqn:Hs; [discriminate|].
    destruct (chr "p" =? d)%N; [|discriminate].
    injection Hk as <-.
    assert (Hlen : List.length (d :: rest) = (List.length (c :: s) - n)%nat)
      by (rewrite <- Hs; apply length_skipn).
    match goal with
    | |- context [firstn ?m _] => replace m with n by (cbn [List.length] in *; lia)
    end.
    eexists; split; [reflexivity|]; split; [|exact Hp].
    destruct n; [lia|]; simpl; discriminate.
Qed.

Lemma is_digit_not_space (c : char) : is_digit c = true -> is_space c = false.
Proof.
  unfold is_digit, is_space; intros H.
  apply andb_true_iff in H as [H1 H2].
  apply N.leb_le in H1, H2.
  repeat (apply orb_false_iff; split);
    try (apply N.eqb_neq; lia);
    apply andb_false_iff; [right|left]; apply N.leb_gt; lia.
Qed.

Lemma digits_value_acc (radix : N) (a : N) (s : jsstring) :
  exists v, digits_value radix (Some a) s = Some v.
Proof.
  revert a; induction s as [|c s IH]; intros a; simpl; [eauto|].
  destruct (digit_value radix c); [apply IH | eauto].
Qed.

Lemma digit_value_10 (c : char) :
  is_digit c = true -> digit_value 10 c = Some (c - 48)%N.
Proof.
  unfold is_digit, digit_value; intros H; rewrite H.
  apply andb_true_iff in H as [H1 H2]; apply N.leb_le in H1, H2.
  replace (c - 48 <? 10)%N with true; [reflexivity|].
  symmetry; apply N.ltb_lt; lia.
Qed.

(** [parseInt] of a non-empty run of digits is a number. *)
Lemma parseInt_digits (s : jsstring) :
  s <> [] -> forallb is_digit s = true -> exists z, parseInt s = Num z.
Proof.
  destruct s as [|c s]; [congruence|]; intros _ H.
  simpl in H; apply andb_true_iff in H as [Hc Hs].
  unfold parseInt; cbn [trimStart].
  rewrite (is_digit_not_space c Hc).
  pose proof Hc as Hc'; unfold is_digit in Hc'.
  apply andb_true_iff in Hc' as [H1 H2]; apply N.leb_le in H1, H2.
  replace (c =? chr "-")%N with false by (symmetry; apply N.eqb_neq; cbv; lia).
  replace (c =? chr "+")%N with false by (symmetry; apply N.eqb_neq; cbv; lia).
  assert (Hval : exists v, digits_value 10 None (c :: s) = Some v).
  { simpl; rewrite (digit_value_10 c Hc); apply digits_value_acc. }
  destruct s as [|x s].
  - destruct Hval as (v & ->); eauto.
  - simpl in Hs; apply andb_true_iff in Hs as [Hx _].
    unfold is_digit in Hx; apply andb_true_iff in Hx as [H3 H4].
    apply N.leb_le in H3, H4.
    replace ((x =? chr "x") || (x =? chr "X"))%N with false.
    2:{ symmetry; apply orb_false_iff; split; apply N.eqb_neq; cbv; lia. }
    rewrite andb_false_r.
    destruct Hval as (v & ->); eauto.
Qed.

Lemma getQualityNumber_resolution (f : VideoFormat) :
  getQualityNumber (quality f) = Num (resolutionOf f).
Proof.
  unfold resolutionOf, getQualityNumber.
  destruct (exec resolutionPattern (quality f)) as [cap|] eqn:E; [|reflexivity].
  apply resolutionPattern_capture in E as (digits & -> & Hne & Hd).
  destruct (parseInt_digits digits Hne Hd) as (z & ->); reflexivity.
Qed.

Lemma comes_after_byQualityNumber (a b : VideoFormat) :
  comes_after byQualityNumber a b = (resolutionOf a <? resolutionOf b)%Z.
Proof.
  unfold comes_after, byQualityNumber.
  rewrite !getQualityNumber_resolution; simpl.
  destruct (Z.ltb_spec 0 (resolutionOf b - resolutionOf a));
    destruct (Z.ltb_spec (resolutionOf a) (resolutionOf b)); lia || reflexivity.
Qed.

End QualityNumber.

Lemma filter_and {A : Type} (p q : A -> bool) (l : list A) :
  filter q (filter p l) = filter (fun x => p x && q x) l.
Proof.
  induction l as [|x l IH]; simpl; [reflexivity|].
  destruct (p x); simpl; [destruct (q x)|]; rewrite ?IH; reflexivity.
Qed.


Lemma sizeOr0_sizeKey (f : VideoFormat) : sizeOr0 f = Num (sizeKey f).
Proof.
  unfold sizeKey, sizeOr0.
  destruct (size f) as [z|]; simpl; [|reflexivity].
  destruct (negb (z =? 0)%Z); reflexivity.
Qed.

Lemma comes_after_byWatermarkThenSize (a b : VideoFormat) :
  comes_after byWatermarkThenSize a b =
  cleanerOrLarger (watermarkRank b) (watermarkRank a).
Proof.
  unfold comes_after, byWatermarkThenSize, cleanerOrLarger, watermarkRank; simpl.
  rewrite !sizeOr0_sizeKey.
  destruct (TikTok.noWatermark a), (TikTok.noWatermark b); simpl; try reflexivity;
    destruct (Z.ltb_spec 0 (sizeKey b - sizeKey a));
    destruct (Z.ltb_spec (sizeKey a) (sizeKey b)); lia || reflexivity.
Qed.

Lemma above_asym (x y : Z) : above x y = true -> above y x = false.
Proof. unfold above; intros H; apply Z.ltb_lt in H; apply Z.ltb_ge; lia. Qed.

Lemma above_negtrans (x y z : Z) :
  above y x = false -> above z y = false -> above z x = false.
Proof.
  unfold above; intros H1 H2.
  apply Z.ltb_ge in H1, H2; apply Z.ltb_ge; lia.
Qed.

Lemma cleanerOrLarger_asym (x y : bool * Z) :
  cleanerOrLarger x y = true -> cleanerOrLarger y x = false.
Proof.
  destruct x as [[] s], y as [[] t]; unfold cleanerOrLarger; simpl;
    try discriminate; try reflexivity;
    intros H; apply Z.ltb_lt in H; apply Z.ltb_ge; lia.
Qed.

Lemma cleanerOrLarger_negtrans (x y z : bool * Z) :
  cleanerOrLarger y x = false -> cleanerOrLarger z y = false ->
  cleanerOrLarger z x = false.
Proof.
  destruct x as [[] s], y as [[] t], z as [[] v]; unfold cleanerOrLarger; simpl;
    try discriminate; try reflexivity;
    intros H1 H2; apply Z.ltb_ge in H1, H2; apply Z.ltb_ge; lia.
Qed.

Section Ranking.
Variable env : Env.




End Ranking.

Section Highest.
Variable env : Env.




End Highest.

(* ================================================================== *)
(** * Facts about the coding functions and the cipher *)
(* ================================================================== *)

Section Coding.
Import YouTube.
Local Open Scope N_scope.


Lemma well_formed_induction (P : jsstring -> Prop) :
  P [] ->
  (forall c s, is_high_surrogate c = false -> is_low_surrogate c = false ->
               c < 0x10000 -> well_formed s = true -> P s -> P (c :: s)) ->
  (forall c d s, is_high_surrogate c = true -> is_low_surrogate d = true ->
                 well_formed s = true -> P s -> P (c :: d :: s)) ->
  forall s, well_formed s = true -> P s.
Proof.
  intros Hnil Hone Hpair.
  assert (H : forall s, (well_formed s = true -> P s) /\
                        (forall c, well_formed (c :: s) = true -> P (c :: s))).
  { induction s as [|d s [IH1 IH2]].
    - split; [auto|]. intros c; simpl.
      destruct (is_high_surrogate c) eqn:Hh; [discriminate|].
      rewrite andb_true_r; intros H; apply andb_true_iff in H as [Hl Hc].
      apply negb_true_iff in Hl; apply N.ltb_lt in Hc; auto.
    - split; [apply IH2|]. intros c; cbn [well_formed].
      destruct (is_high_surrogate c) eqn:Hh.
      + intros H; apply andb_true_iff in H as [Hd Hs]; auto.
      + intros H; apply andb_true_iff in H as [H Hs].
        apply andb_true_iff in H as [Hl Hc].
        apply negb_true_iff in Hl; apply N.ltb_lt in Hc.
        apply Hone; auto. }
  intros s; apply H.
Qed.

Lemma utf8_decode_single (b : N) (rest : list N) :
  b <= 0x7F -> utf8_decode_from None (b :: rest) = b :: utf8_decode_from None rest.
Proof.
  intros H; cbn [utf8_decode_from]; unfold utf8_start.
  apply N.leb_le in H; rewrite H; reflexivity.
Qed.

Lemma utf8_decode_lead (b : N) (rest : list N) (st : utf8_state) :
  utf8_start b = Start st ->
  utf8_decode_from None (b :: rest) = utf8_decode_from (Some st) rest.
Proof. intros H; cbn [utf8_decode_from]; rewrite H; reflexivity. Qed.

Lemma utf8_decode_more (st : utf8_state) (b : N) (rest : list N) (n : nat) :
  needed st = S (S n) -> lower st <= b <= upper st ->
  utf8_decode_from (Some st) (b :: rest) =
  utf8_decode_from (Some (mk_utf8_state (S n) (bits st * 0x40 + b mod 0x40) 0x80 0xBF)) rest.
Proof.
  intros Hn [H1 H2]; cbn [utf8_decode_from]; unfold utf8_continue.
  apply N.leb_le in H1, H2; rewrite H1, H2, Hn; reflexivity.
Qed.

Lemma utf8_decode_last (st : utf8_state) (b : N) (rest : list N) :
  needed st = 1%nat -> lower st <= b <= upper st ->
  utf8_decode_from (Some st) (b :: rest) =
  (bits st * 0x40 + b mod 0x40) :: utf8_decode_from None rest.
Proof.
  intros Hn [H1 H2]; cbn [utf8_decode_from]; unfold utf8_continue.
  apply N.leb_le in H1, H2; rewrite H1, H2, Hn; reflexivity.
Qed.

Lemma utf8_decode_lead2 (b : N) (rest : list N) :
  0xC2 <= b <= 0xDF ->
  utf8_decode_from None (b :: rest) =
  utf8_decode_from (Some (mk_utf8_state 1 (b mod 0x20) 0x80 0xBF)) rest.
Proof.
  intros [H1 H2]; apply utf8_decode_lead; unfold utf8_start.
  destruct (N.leb_spec b 0x7F); [lia|].
  apply N.leb_le in H1, H2; rewrite H1, H2; reflexivity.
Qed.

Lemma utf8_decode_lead3 (b : N) (rest : list N) :
  0xE0 <= b <= 0xEF ->
  utf8_decode_from None (b :: rest) =
  utf8_decode_from
    (Some (mk_utf8_state 2 (b mod 0x10)
             (if b =? 0xE0 then 0xA0 else 0x80)
             (if b =? 0xED then 0x9F else 0xBF))) rest.
Proof.
  intros [H1 H2]; apply utf8_decode_lead; unfold utf8_start.
  destruct (N.leb_spec b 0x7F); [lia|].
  destruct (N.leb_spec 0xC2 b); [|lia].
  destruct (N.leb_spec b 0xDF); [lia|]; simpl.
  apply N.leb_le in H1, H2; rewrite H1, H2; reflexivity.
Qed.

Lemma utf8_decode_lead4 (b : N) (rest : list N) :
  0xF0 <= b <= 0xF4 ->
  utf8_decode_from None (b :: rest) =
  utf8_decode_from
    (Some (mk_utf8_state 3 (b mod 0x8)
             (if b =? 0xF0 then 0x90 else 0x80)
             (if b =? 0xF4 then 0x8F else 0xBF))) rest.
Proof.
  intros [H1 H2]; apply utf8_decode_lead; unfold utf8_start.
  destruct (N.leb_spec b 0x7F); [lia|].
  destruct (N.leb_spec 0xC2 b); [|lia].
  destruct (N.leb_spec b 0xDF); [lia|]; simpl.
  destruct (N.leb_spec 0xE0 b); [|lia].
  destruct (N.leb_spec b 0xEF); [lia|]; simpl.
  apply N.leb_le in H1, H2; rewrite H1, H2; reflexivity.
Qed.

Lemma is_scalar_range (cp : N) :
  is_scalar cp = true -> cp < 0xD800 \/ (0xE000 <= cp /\ cp < 0x110000).
Proof.
  unfold is_scalar; intros H; apply orb_true_iff in H as [H|H].
  - left; apply N.ltb_lt; exact H.
  - right; apply andb_true_iff in H as [H1 H2].
    apply N.leb_le in H1; apply N.ltb_lt in H2; auto.
Qed.

(** Decoding undoes the encoding of a scalar value. *)
Lemma utf8_decode_encode (cp : N) (rest : list N) :
  is_scalar cp = true ->
  utf8_decode_from None (utf8_encode cp ++ rest) = cp :: utf8_decode_from None rest.
Proof.
  intros Hs; apply is_scalar_range in Hs.
  unfold utf8_encode.
  destruct (N.ltb_spec cp 0x80) as [H1|H1]; [apply utf8_decode_single; lia|].
  destruct (N.ltb_spec cp 0x800) as [H2|H2].
  { cbn [app].
    rewrite utf8_decode_lead2 by nlia.
    rewrite utf8_decode_last; [|reflexivity|cbn [lower upper]; nlia].
    f_equal; cbn [bits]; nlia. }
  destruct (N.ltb_spec cp 0x10000) as [H3|H3].
  { cbn [app].
    rewrite utf8_decode_lead3 by nlia.
    rewrite (utf8_decode_more _ _ _ 0); [|reflexivity|].
    2:{ cbn [lower upper].
        destruct (N.eqb_spec (0xE0 + cp / 0x1000) 0xE0);
          destruct (N.eqb_spec (0xE0 + cp / 0x1000) 0xED); nlia. }
    rewrite utf8_decode_last; [|reflexivity|cbn [lower upper]; nlia].
    f_equal; cbn [bits]; nlia. }
  cbn [app].
  rewrite utf8_decode_lead4 by nlia.
  rewrite (utf8_decode_more _ _ _ 1); [|reflexivity|].
  2:{ cbn [lower upper].
      destruct (N.eqb_spec (0xF0 + cp / 0x40000) 0xF0);
        destruct (N.eqb_spec (0xF0 + cp / 0x40000) 0xF4); nlia. }
  rewrite (utf8_decode_more _ _ _ 0); [|reflexivity|cbn [lower upper]; nlia].
  rewrite utf8_decode_last; [|reflexivity|cbn [lower upper]; nlia].
  f_equal; cbn [bits]; nlia.
Qed.


Lemma utf8_decode_encoded (cps : list N) :
  Forall (fun cp => is_scalar cp = true) cps ->
  utf8_decode (flat_map utf8_encode cps) = cps.
Proof.
  unfold utf8_decode; induction 1 as [|cp cps Hcp _ IH]; [reflexivity|].
  cbn [flat_map]; rewrite utf8_decode_encode, IH by exact Hcp; reflexivity.
Qed.

Lemma surrogate_free_scalar (c : char) :
  is_high_surrogate c = false -> is_low_surrogate c = false -> c < 0x10000 ->
  is_scalar c = true.
Proof.
  unfold is_high_surrogate, is_low_surrogate, is_scalar; intros Hh Hl Hc.
  destruct (N.ltb_spec c 0xD800); [reflexivity|]; simpl.
  destruct (N.leb_spec 0xD800 c); [|lia].
  destruct (N.leb_spec 0xDC00 c), (N.leb_spec c 0xDBFF), (N.leb_spec c 0xDFFF);
    simpl in *; try discriminate; try lia.
  destruct (N.leb_spec 0xE000 c); [|lia].
  destruct (N.ltb_spec c 0x110000); [reflexivity|lia].
Qed.

Lemma pair_range (c d : char) :
  is_high_surrogate c = true -> is_low_surrogate d = true ->
  0xD800 <= c <= 0xDBFF /\ 0xDC00 <= d <= 0xDFFF.
Proof.
  unfold is_high_surrogate, is_low_surrogate; intros Hc Hd.
  apply andb_true_iff in Hc as [H1 H2]; apply andb_true_iff in Hd as [H3 H4].
  apply N.leb_le in H1, H2, H3, H4; lia.
Qed.

Lemma pair_scalar (c d : char) :
  is_high_surrogate c = true -> is_low_surrogate d = true ->
  is_scalar (pair_code_point c d) = true /\
  0x10000 <= pair_code_point c d /\
  utf16_encode (pair_code_point c d) = [c; d].
Proof.
  intros Hc Hd; destruct (pair_range c d Hc Hd) as [H1 H2].
  unfold pair_code_point, is_scalar, utf16_encode.
  split; [|split].
  - destruct (N.ltb_spec (65536 + (c - 55296) * 1024 + (d - 56320)) 55296); [lia|].
    destruct (N.leb_spec 57344 (65536 + (c - 55296) * 1024 + (d - 56320))); [|lia].
    destruct (N.ltb_spec (65536 + (c - 55296) * 1024 + (d - 56320)) 1114112);
      [reflexivity|lia].
  - lia.
  - destruct (N.ltb_spec (65536 + (c - 55296) * 1024 + (d - 56320)) 65536); [lia|].
    f_equal; [|f_equal]; nlia.
Qed.

Lemma scalar_values_one (c : char) (s : jsstring) :
  is_high_surrogate c = false -> is_low_surrogate c = false ->
  scalar_values (c :: s) = c :: scalar_values s.
Proof. intros Hh Hl; cbn [scalar_values]; rewrite Hh, Hl; reflexivity. Qed.

Lemma scalar_values_pair (c d : char) (s : jsstring) :
  is_high_surrogate c = true -> is_low_surrogate d = true ->
  scalar_values (c :: d :: s) = pair_code_point c d :: scalar_values s.
Proof. intros Hh Hl; cbn [scalar_values]; rewrite Hh, Hl; reflexivity. Qed.

Lemma scalar_values_scalar (s : jsstring) :
  well_formed s = true -> Forall (fun cp => is_scalar cp = true) (scalar_values s).
Proof.
  revert s; apply well_formed_induction.
  - constructor.
  - intros c s Hh Hl Hc _ IH; rewrite scalar_values_one by assumption.
    constructor; [apply surrogate_free_scalar; assumption | exact IH].
  - intros c d s Hc Hd _ IH; rewrite scalar_values_pair by assumption.
    constructor; [apply pair_scalar; assumption | exact IH].
Qed.

Lemma utf16_encode_scalar_values (s : jsstring) :
  well_formed s = true -> flat_map utf16_encode (scalar_values s) = s.
Proof.
  revert s; apply well_formed_induction.
  - reflexivity.
  - intros c s Hh Hl Hc _ IH; rewrite scalar_values_one by assumption.
    cbn [flat_map]; rewrite IH; unfold utf16_encode.
    apply N.ltb_lt in Hc; rewrite Hc; reflexivity.
  - intros c d s Hc Hd _ IH; rewrite scalar_values_pair by assumption.
    cbn [flat_map]; rewrite IH.
    destruct (pair_scalar c d Hc Hd) as (_ & _ & ->); reflexivity.
Qed.

Lemma scalar_values_app (s t : jsstring) :
  well_formed s = true ->
  scalar_values (s ++ t) = scalar_values s ++ scalar_values t.
Proof.
  revert s; apply well_formed_induction.
  - reflexivity.
  - intros c s Hh Hl Hc _ IH; cbn [app].
    rewrite !scalar_values_one, IH by assumption; reflexivity.
  - intros c d s Hc Hd _ IH; cbn [app].
    rewrite !scalar_values_pair, IH by assumption; reflexivity.
Qed.

Lemma utf8_bytes_app (s t : jsstring) :
  well_formed s = true -> utf8_bytes (s ++ t) = utf8_bytes s ++ utf8_bytes t.
Proof.
  intros H; unfold utf8_bytes; rewrite scalar_values_app, flat_map_app by exact H.
  reflexivity.
Qed.

Lemma special_high (b : N) : 0x80 <= b -> special b = false.
Proof.
  intros H; unfold special.
  repeat (apply orb_false_iff; split); apply N.eqb_neq; cbv; lia.
Qed.

Lemma utf8_encode_not_special (cp : N) :
  special cp = false -> Forall (fun b => special b = false) (utf8_encode cp).
Proof.
  intros H; unfold utf8_encode; cbv zeta.
  destruct (N.ltb_spec cp 0x80); [repeat constructor; exact H|].
  destruct (cp <? 0x800); [|destruct (cp <? 0x10000)];
    repeat (apply Forall_cons; [apply special_high; nlia|]); constructor.
Qed.

Lemma plain_cons (c : char) (s : jsstring) :
  forallb (fun c => negb (special c)) (c :: s) = true ->
  special c = false /\ forallb (fun c => negb (special c)) s = true.
Proof.
  simpl; intros H; apply andb_true_iff in H as [H1 H2].
  apply negb_true_iff in H1; auto.
Qed.

Lemma utf8_bytes_not_special (s : jsstring) :
  well_formed s = true -> forallb (fun c => negb (special c)) s = true ->
  Forall (fun b => special b = false) (utf8_bytes s).
Proof.
  unfold utf8_bytes; revert s.
  apply (well_formed_induction
           (fun s => forallb (fun c => negb (special c)) s = true ->
                     Forall (fun b => special b = false)
                       (flat_map utf8_encode (scalar_values s)))).
  - constructor.
  - intros c s Hh Hl Hc _ IH Hp; apply plain_cons in Hp as [Hsp Hp].
    rewrite scalar_values_one by assumption; cbn [flat_map].
    apply Forall_app; split; [apply utf8_encode_not_special; exact Hsp | auto].
  - intros c d s Hc Hd _ IH Hp.
    apply plain_cons in Hp as [_ Hp]; apply plain_cons in Hp as [_ Hp].
    rewrite scalar_values_pair by assumption; cbn [flat_map].
    apply Forall_app; split; [|auto].
    apply utf8_encode_not_special, special_high.
    pose proof (pair_scalar c d Hc Hd) as (_ & H & _); lia.
Qed.

Lemma special_cases (b : N) :
  special b = false -> (b =? chr "&") = false /\ (b =? chr "+") = false
                       /\ (b =? chr "%") = false.
Proof.
  unfold special; intros H.
  apply orb_false_iff in H as [H H3]; apply orb_false_iff in H as [H1 H2]; auto.
Qed.

Lemma percent_decode_plain (bs : list N) :
  Forall (fun b => special b = false) bs ->
  percent_decode (map (fun b => if b =? chr "+" then chr " " else b) bs) = bs.
Proof.
  induction 1 as [|b bs Hb _ IH]; [reflexivity|].
  apply special_cases in Hb as (_ & Hplus & Hpct).
  cbn [map percent_decode]; rewrite Hplus, Hpct, IH; reflexivity.
Qed.

(** Form decoding gives a plain string back from its bytes. *)
Lemma form_decode_plain (s : jsstring) :
  plain s = true -> form_decode (utf8_bytes s) = s.
Proof.
  unfold plain; intros H; apply andb_true_iff in H as [Hw Hp].
  unfold form_decode.
  rewrite percent_decode_plain by (apply utf8_bytes_not_special; assumption).
  unfold utf8_bytes.
  rewrite utf8_decode_encoded by (apply scalar_values_scalar; exact Hw).
  apply utf16_encode_scalar_values; exact Hw.
Qed.

Lemma decodeURIComponent_plain (s : jsstring) :
  forallb (fun c => negb (special c)) s = true -> decodeURIComponent s = Some s.
Proof.
  unfold decodeURIComponent; induction s as [|c s IH]; [reflexivity|].
  intros H; apply plain_cons in H as [Hc Hs].
  apply special_cases in Hc as (_ & _ & Hpct).
  cbn [decodeURIComponent_from]; rewrite Hpct, (IH Hs); reflexivity.
Qed.

Lemma unreserved_ascii (c : char) : 0x80 <= c -> unreserved c = false.
Proof.
  intros H; unfold unreserved, is_digit.
  replace (js "-_.!~*'()") with [45; 95; 46; 33; 126; 42; 39; 40; 41] by reflexivity.
  cbn [existsb].
  assert (Hle : forall k, k < 0x80 -> (c <=? k) = false)
    by (intros; apply N.leb_gt; lia).
  assert (Heq : forall k, k < 0x80 -> (c =? k) = false)
    by (intros; apply N.eqb_neq; lia).
  rewrite !Hle, !Heq by reflexivity.
  rewrite !andb_false_r; reflexivity.
Qed.

Lemma encodeURIComponent_well_formed (s : jsstring) :
  well_formed s = true -> exists e, encodeURIComponent s = Some e.
Proof.
  revert s; apply well_formed_induction.
  - exists []; reflexivity.
  - intros c s Hh Hl _ _ (e & IH); cbn [encodeURIComponent].
    rewrite IH, Hh, Hl; destruct (unreserved c); simpl; eauto.
  - intros c d s Hc Hd _ (e & IH); cbn [encodeURIComponent].
    rewrite unreserved_ascii by (destruct (pair_range c d Hc Hd); lia).
    rewrite IH, Hc, Hd; simpl; eauto.
Qed.


Lemma split_bytes_piece (sep : N) (cur piece rest : list N) :
  Forall (fun b => (b =? sep) = false) piece ->
  split_bytes sep cur (piece ++ sep :: rest) =
  (rev cur ++ piece) :: split_bytes sep [] rest.
Proof.
  intros H; revert cur; induction H as [|b piece Hb _ IH]; intros cur.
  - cbn [app split_bytes]; rewrite N.eqb_refl, app_nil_r; reflexivity.
  - cbn [app split_bytes]; rewrite Hb, IH; cbn [rev].
    rewrite <- app_assoc; reflexivity.
Qed.

Lemma split_bytes_last (sep : N) (cur piece : list N) :
  Forall (fun b => (b =? sep) = false) piece ->
  split_bytes sep cur piece = [rev cur ++ piece].
Proof.
  intros H; revert cur; induction H as [|b piece Hb _ IH]; intros cur.
  - cbn [split_bytes]; rewrite app_nil_r; reflexivity.
  - cbn [split_bytes]; rewrite Hb, IH; cbn [rev].
    rewrite <- app_assoc; reflexivity.
Qed.

Lemma cut_at_found (sep : N) (name value : list N) :
  Forall (fun b => (b =? sep) = false) name ->
  cut_at sep (name ++ sep :: value) = (name, value).
Proof.
  induction 1 as [|b name Hb _ IH]; cbn [app cut_at].
  - rewrite N.eqb_refl; reflexivity.
  - rewrite Hb, IH; reflexivity.
Qed.

Lemma form_pair_named (name value : list N) :
  name <> [] -> Forall (fun b => (b =? chr "=") = false) name ->
  form_pair (name ++ chr "=" :: value) = [(form_decode name, form_decode value)].
Proof.
  intros Hne H; unfold form_pair; rewrite cut_at_found by exact H.
  destruct name; [congruence|reflexivity].
Qed.

Lemma not_special_amp (bs : list N) :
  Forall (fun b => special b = false) bs ->
  Forall (fun b => (b =? chr "&") = false) bs.
Proof. apply Forall_impl; intros b H; apply special_cases in H; tauto. Qed.

Lemma URLSearchParams_cipher (U S : jsstring) :
  plain U = true -> plain S = true ->
  URLSearchParams (js "url=" ++ U ++ js "&sp=signature&s=" ++ S) =
  [(js "url", U); (js "sp", js "signature"); (js "s", S)].
Proof.
  intros HU HS.
  pose proof HU as HU'; pose proof HS as HS'.
  unfold plain in HU', HS'.
  apply andb_true_iff in HU' as [HUw HUp]; apply andb_true_iff in HS' as [HSw HSp].
  pose proof (not_special_amp _ (utf8_bytes_not_special U HUw HUp)) as HUa.
  pose proof (not_special_amp _ (utf8_bytes_not_special S HSw HSp)) as HSa.
  unfold URLSearchParams.
  change (js "url=" ++ U ++ js "&sp=signature&s=" ++ S)
    with (chr "u" :: js "rl=" ++ U ++ js "&sp=signature&s=" ++ S).
  cbv iota beta.
  change (chr "u" =? chr "?") with false; cbv iota.
  change (chr "u" :: js "rl=" ++ U ++ js "&sp=signature&s=" ++ S)
    with (js "url=" ++ U ++ js "&sp=signature&s=" ++ S).
  rewrite !utf8_bytes_app by (reflexivity || assumption).
  change (utf8_bytes (js "url=")) with (js "url" ++ [chr "="]).
  change (utf8_bytes (js "&sp=signature&s="))
    with (chr "&" :: (js "sp" ++ chr "=" :: js "signature") ++ chr "&" :: js "s" ++ [chr "="]).
  match goal with
  | |- context [split_bytes _ _ ?bytes] =>
      replace bytes
        with ((js "url" ++ chr "=" :: utf8_bytes U) ++ chr "&" ::
              (js "sp" ++ chr "=" :: js "signature") ++ chr "&" ::
              (js "s" ++ chr "=" :: utf8_bytes S))
  end.
  2:{ rewrite <- !app_assoc; cbn [app]; rewrite <- !app_assoc; reflexivity. }
  rewrite split_bytes_piece.
  2:{ apply Forall_app; split; [repeat constructor|constructor; [reflexivity|exact HUa]]. }
  rewrite split_bytes_piece by (repeat constructor).
  rewrite split_bytes_last.
  2:{ apply Forall_app; split; [repeat constructor|constructor; [reflexivity|exact HSa]]. }
  cbn [rev app flat_map].
  rewrite !form_pair_named by first [discriminate | repeat constructor].
  rewrite !form_decode_plain by assumption.
  reflexivity.
Qed.

(** [decodeCipher] on a cipher string written out from a plain url and a
    plain signature. *)
Lemma decodeCipher_plain (U S : jsstring) :
  plain U = true -> plain S = true ->
  decodeCipher (js "url=" ++ U ++ js "&sp=signature&s=" ++ S) =
  match U, S, encodeURIComponent S with
  | [], _, _ => []
  | _ :: _, _ :: _, Some e => U ++ js "&signature=" ++ e
  | _ :: _, _ :: _, None => []
  | _ :: _, [], _ => U
  end.
Proof.
  intros HU HS; unfold decodeCipher.
  rewrite URLSearchParams_cipher by assumption.
  change (get (js "url") _) with (Some U).
  change (get (js "sp") _) with (Some (js "signature")).
  change (get (js "s") _) with (Some S).
  destruct U as [|c U]; [reflexivity|].
  cbn [or_else nonempty negb].
  unfold plain in HU; apply andb_true_iff in HU as [_ HUp].
  rewrite decodeURIComponent_plain by exact HUp.
  destruct S as [|d S]; [reflexivity|].
  cbn [nonempty andb].
  change (nonempty (js "signature")) with true; cbv iota.
  destruct (encodeURIComponent (d :: S)); reflexivity.
Qed.

Lemma URLSearchParams_url (U : jsstring) :
  plain U = true -> URLSearchParams (js "url=" ++ U) = [(js "url", U)].
Proof.
  intros HU; pose proof HU as HU'; unfold plain in HU'.
  apply andb_true_iff in HU' as [HUw HUp].
  pose proof (not_special_amp _ (utf8_bytes_not_special U HUw HUp)) as HUa.
  unfold URLSearchParams.
  change (js "url=" ++ U) with (chr "u" :: js "rl=" ++ U).
  cbv iota beta.
  change (chr "u" =? chr "?") with false; cbv iota.
  change (chr "u" :: js "rl=" ++ U) with (js "url=" ++ U).
  rewrite utf8_bytes_app by reflexivity.
  change (utf8_bytes (js "url=")) with (js "url" ++ [chr "="]).
  rewrite <- app_assoc; cbn [app].
  rewrite split_bytes_last.
  2:{ apply Forall_app; split; [repeat constructor|constructor; [reflexivity|exact HUa]]. }
  cbn [rev app flat_map].
  rewrite form_pair_named by first [discriminate | repeat constructor].
  rewrite form_decode_plain by assumption.
  reflexivity.
Qed.

Lemma decodeCipher_url_only (U : jsstring) :
  plain U = true -> decodeCipher (js "url=" ++ U) = U.
Proof.
  intros HU; unfold decodeCipher.
  rewrite URLSearchParams_url by assumption.
  change (get (js "url") _) with (Some U).
  change (get (js "sp") _) with (@None jsstring).
  change (get (js "s") _) with (@None jsstring).
  destruct U as [|c U]; [reflexivity|].
  cbn [or_else nonempty negb].
  unfold plain in HU; apply andb_true_iff in HU as [_ HUp].
  rewrite decodeURIComponent_plain by exact HUp.
  reflexivity.
Qed.
(** C4 (as amended). For a url [U] and a signature [S] that are well formed
    and hold none of [&], [+] and [%], both non-empty, decoding
    [url=U&sp=signature&s=S] gives [U], then [&signature=], then
    [encodeURIComponent(S)]; with an empty [S] it gives [U] alone, and
    with an empty [U] the empty string.  Decoding [url=U] alone gives [U]
    unmodified. *)
Theorem decodeCipher_round_trip (U S : jsstring) :
  plain U = true -> plain S = true ->
  (U <> [] -> S <> [] ->
   exists e, encodeURIComponent S = Some e /\
             decodeCipher (js "url=" ++ U ++ js "&sp=signature&s=" ++ S) =
             U ++ js "&signature=" ++ e)
  /\ (S = [] ->
      decodeCipher (js "url=" ++ U ++ js "&sp=signature&s=" ++ S) = U)
  /\ (U = [] ->
      decodeCipher (js "url=" ++ U ++ js "&sp=signature&s=" ++ S) = [])
  /\ decodeCipher (js "url=" ++ U) = U.
Proof.
  intros HU HS.
  pose proof (decodeCipher_plain U S HU HS) as H.
  repeat split.
  - intros HUne HSne.
    assert (Hw : well_formed S = true)
      by (unfold plain in HS; apply andb_true_iff in HS; tauto).
    destruct (encodeURIComponent_well_formed S Hw) as (e & He).
    exists e; split; [exact He|].
    destruct U as [|c U]; [congruence|]; destruct S as [|d S]; [congruence|].
    rewrite H; cbv iota; rewrite He; reflexivity.
  - intros ->; rewrite H; destruct U; reflexivity.
  - intros ->; rewrite H; reflexivity.
  - apply decodeCipher_url_only; exact HU.
Qed.

End Coding.

(* ================================================================== *)
(** * The defaults of a request *)
(* ================================================================== *)

(** X4. The parameters [extractVideo] works with, property by property: a
    property the request does not have takes its default, a property it
    has with a value keeps that value, and a property it has with the
    value [undefined] stays [undefined]. *)
Theorem paramsOf_by_property (u : jsstring) (request : Request.t) :
  Params.url (paramsOf u request) = u
  /\ Params.format (paramsOf u request) =
     match Request.format request with
     | unset => Some (js "mp4") | undef => None | val v => Some v
     end
  /\ Params.quality (paramsOf u request) =
     match Request.quality request with
     | unset => Some (js "highest") | undef => None | val v => Some v
     end
  /\ Params.download (paramsOf u request) =
     match Request.download request with
     | unset => Some false | undef => None | val v => Some v
     end
  /\ Params.info (paramsOf u request) =
     match Request.info request with
     | unset => Some false | undef => None | val v => Some v
     end
  /\ Params.type (paramsOf u request) =
     match Request.type request with
     | unset => Some video | undef => None | val v => Some v
     end.
Proof.
  destruct request as [u0 [| |f] [| |q] [| |d] [| |i] [| |t]];
    repeat split; reflexivity.
Qed.

(** C1. The request the [/extract] handler builds for [?url=...] has the
    properties [format], [quality] and [type] with the value [undefined];
    the spread copies them over the defaults, so [extractVideo] works with
    no format, no quality and no type instead of 'mp4', 'highest' and
    'video'.  On three YouTube formats the handler then answers with the
    formats as extracted, not ranked, where [extractVideo] on the request
    [{ url }] ranks them. *)
Theorem handler_request_loses_the_defaults :
  paramsOf youtubeUrl (requestOf youtubeUrl (queryFor youtubeUrl)) =
  Params.make youtubeUrl None None (Some false) (Some false) None
  /\ option_map (fun r => map quality (formats (data r)))
       (match extractHandler (fixedEnv threeResolutions nothingFound)
                (queryFor youtubeUrl) with
        | Ok r => Some r
        | Throw _ => None
        end) = Some [js "360p"; js "1080p60"; js "720p"]
  /\ option_map (fun r => map quality (formats r))
       (match extractVideo (fixedEnv threeResolutions nothingFound)
                (requestFor youtubeUrl) with
        | Ok r => Some r
        | Throw _ => None
        end) = Some [js "1080p60"; js "720p"; js "360p"].
Proof. repeat split; vm_compute; reflexivity. Qed.

(* ================================================================== *)
(** * [getMimeType] *)
(* ================================================================== *)

Section MimeType.
Import YouTube.

Lemma hd_split_go_upTo (c : char) (cur s : jsstring) :
  hd [] (split_go [c] 0 cur s) = rev cur ++ upTo c s.
Proof.
  revert cur; induction s as [|d s IH]; intros cur.
  - cbn [split_go hd upTo]; rewrite app_nil_r; reflexivity.
  - cbn [split_go startsWith upTo].
    destruct (c =? d)%N; cbn [andb hd].
    + rewrite app_nil_r; reflexivity.
    + rewrite IH; cbn [rev]; rewrite <- app_assoc; reflexivity.
Qed.

Lemma hd_split_upTo (c : char) (s : jsstring) : hd [] (split [c] s) = upTo c s.
Proof. unfold split; rewrite hd_split_go_upTo; reflexivity. Qed.


End MimeType.

(* ================================================================== *)
(** * [extractVideoId] *)
(* ================================================================== *)

Section VideoId.
Import YouTube.

(** ** The matcher is sound for the words of a pattern *)

Lemma lit_match_Some (text s s' : jsstring) :
  lit_match text s = Some s' -> s = text ++ s'.
Proof.
  revert s; induction text as [|c text IH]; intros [|d s]; simpl; try discriminate.
  - intros [= <-]; reflexivity.
  - intros [= <-]; reflexivity.
  - destruct (N.eqb_spec c d) as [->|]; [|discriminate].
    intros H; rewrite (IH _ H); reflexivity.
Qed.

Lemma lit_match_app (text s : jsstring) : lit_match text (text ++ s) = Some s.
Proof.
  induction text as [|c text IH]; simpl; [destruct s; reflexivity|].
  rewrite N.eqb_refl; exact IH.
Qed.

Lemma times_match_Some (n : nat) (p : char -> bool) (s s' : jsstring) :
  times_match n p s = Some s' ->
  exists w, s = w ++ s' /\ List.length w = n /\ forallb p w = true.
Proof.
  revert s; induction n as [|n IH]; intros s; simpl.
  - intros [= <-]; exists []; auto.
  - destruct s as [|c s]; [discriminate|].
    destruct (p c) eqn:Hc; [|discriminate].
    intros H; apply IH in H as (w & -> & Hl & Hp).
    exists (c :: w); simpl; rewrite Hc, Hl, Hp; auto.
Qed.

Lemma times_match_app (p : char -> bool) (w s : jsstring) :
  forallb p w = true -> times_match (List.length w) p (w ++ s) = Some s.
Proof.
  induction w as [|c w IH]; simpl; [reflexivity|].
  intros H; apply andb_true_iff in H as [-> H]; auto.
Qed.

Lemma firstn_taken {A : Type} (w s : list A) :
  firstn (List.length (w ++ s) - List.length s) (w ++ s) = w.
Proof.
  rewrite length_app, Nat.add_sub, firstn_app, Nat.sub_diag, firstn_all.
  simpl; apply app_nil_r.
Qed.

Lemma pmatch_sound {R : Type} (r : pattern) :
  forall (s : jsstring) (cap : option jsstring)
         (k : jsstring -> option jsstring -> option R) (x : R),
    pmatch r s cap k = Some x ->
    exists w s' cap', s = w ++ s' /\ lang r w /\ k s' cap' = Some x.
Proof.
  induction r as [text|p|r1 IH1 r2 IH2|r1 IH1 r2 IH2|p least|n p|r1 IH1|r1 IH1];
    intros s cap k x; cbn [pmatch lang].
  - destruct (lit_match text s) as [s'|] eqn:E; [|discriminate].
    intros H; apply lit_match_Some in E; exists text, s', cap; auto.
  - destruct s as [|c s]; [discriminate|].
    destruct (p c) eqn:Hc; [|discriminate].
    intros H; exists [c], s, cap; repeat split; eauto.
  - intros H; apply IH1 in H as (w1 & s1 & cap1 & -> & H1 & H).
    apply IH2 in H as (w2 & s2 & cap2 & -> & H2 & H).
    exists (w1 ++ w2), s2, cap2; rewrite <- app_assoc; repeat split; eauto.
  - destruct (pmatch r1 s cap k) as [y|] eqn:E.
    + intros [= ->]; apply IH1 in E as (w & s' & cap' & -> & H1 & H); eauto 7.
    + intros H; apply IH2 in H as (w & s' & cap' & -> & H2 & H); eauto 7.
  - intros H; apply rep_match_Some in H as (n & Hn & Hp & H).
    exists (firstn n s), (skipn n s), cap; rewrite firstn_skipn.
    repeat split; auto. rewrite length_firstn; lia.
  - destruct (times_match n p s) as [s'|] eqn:E; [|discriminate].
    intros H; apply times_match_Some in E as (w & -> & Hl & Hp).
    exists w, s', cap; auto.
  - destruct (pmatch r1 s cap k) as [y|] eqn:E.
    + intros [= ->]; apply IH1 in E as (w & s' & cap' & -> & H1 & H); eauto 7.
    + intros H; exists [], s, cap; auto.
  - intros H; apply IH1 in H as (w & s' & cap' & -> & H1 & H); eauto 7.
Qed.

Lemma search_sound (r : pattern) (s : jsstring) (x : option jsstring) :
  search r s = Some x ->
  exists a t, s = a ++ t /\ pmatch r t None (fun _ cap => Some cap) = Some x.
Proof.
  induction s as [|c s IH]; cbn [search].
  - destruct (pmatch r [] None _) as [y|] eqn:E; [|discriminate].
    intros [= ->]; exists [], []; auto.
  - destruct (pmatch r (c :: s) None _) as [y|] eqn:E.
    + intros [= ->]; exists [], (c :: s); auto.
    + intros H; apply IH in H as (a & t & -> & H).
      exists (c :: a), t; auto.
Qed.

Lemma startsWith_app (p s : jsstring) : startsWith p (p ++ s) = true.
Proof. induction p as [|c p IH]; simpl; [reflexivity|]. rewrite N.eqb_refl; exact IH. Qed.

Lemma startsWith_more (p s t : jsstring) :
  startsWith p s = true -> startsWith p (s ++ t) = true.
Proof.
  revert s; induction p as [|c p IH]; intros [|d s]; simpl; try discriminate; auto.
  intros H; apply andb_true_iff in H as [-> H]; simpl; auto.
Qed.

Lemma includes_here (n a b : jsstring) : includes n (a ++ n ++ b) = true.
Proof.
  induction a as [|c a IH]; simpl.
  - destruct (n ++ b) eqn:E; simpl; rewrite <- ?E, startsWith_app; reflexivity.
  - rewrite IH; apply orb_true_r.
Qed.

Lemma includes_more (n s t : jsstring) :
  includes n s = true -> includes n (s ++ t) = true.
Proof.
  induction s as [|c s IH]; simpl.
  - rewrite orb_false_r; intros H.
    destruct n; [destruct t; reflexivity | discriminate].
  - intros H; apply orb_true_iff in H as [H|H].
    + change (c :: s ++ t) with ((c :: s) ++ t).
      rewrite (startsWith_more _ _ t H); reflexivity.
    + rewrite (IH H); apply orb_true_r.
Qed.

(** What a match of the pattern holds. *)
Lemma videoIdPattern_match (s : jsstring) (x : option jsstring) :
  pmatch videoIdPattern s None (fun _ cap => Some cap) = Some x ->
  exists w id rest,
    s = w ++ id ++ rest /\ x = Some id /\
    List.length id = 11%nat /\ forallb idChar id = true /\
    (includes (js "youtube.com/") w = true \/ includes (js "youtu.be/") w = true).
Proof.
  unfold videoIdPattern;
    match goal with
    | |- pmatch (Cat ?r1 ?r2) ?s ?cap ?k = _ -> _ =>
        change (pmatch (Cat r1 r2) s cap k)
          with (pmatch r1 s cap (fun s' cap' => pmatch r2 s' cap' k))
    end; intros H.
  apply pmatch_sound in H as (w & s1 & cap1 & -> & Hw & H).
  cbn [pmatch] in H.
  destruct (times_match 11 idChar s1) as [s2|] eqn:E; [|discriminate].
  injection H as <-.
  apply times_match_Some in E as (id & -> & Hl & Hp).
  exists w, id, s2; rewrite firstn_taken; repeat split; auto.
  cbn [lang] in Hw; destruct Hw as [(w1 & w2 & -> & -> & _)| ->].
  - left; apply (includes_here _ [] w2).
  - right; reflexivity.
Qed.

Lemma extractVideoId_Ok (link id : jsstring) :
  extractVideoId link = Ok id ->
  exists before after,
    link = before ++ id ++ after /\
    List.length id = 11%nat /\ forallb idChar id = true /\
    (includes (js "youtube.com/") before = true \/
     includes (js "youtu.be/") before = true).
Proof.
  unfold extractVideoId.
  destruct (search videoIdPattern link) as [x|] eqn:E; [|discriminate].
  apply search_sound in E as (a & t & -> & E).
  apply videoIdPattern_match in E as (w & id' & rest & -> & -> & Hl & Hp & Hw).
  intros [= <-].
  exists (a ++ w), rest; rewrite <- app_assoc; repeat split; auto.
  destruct Hw as [Hw|Hw]; [left|right].
  - clear -Hw. induction a as [|c a IH]; simpl; [exact Hw|].
    rewrite IH; apply orb_true_r.
  - clear -Hw. induction a as [|c a IH]; simpl; [exact Hw|].
    rewrite IH; apply orb_true_r.
Qed.

(** X5. The id [extractVideoId] returns is a piece of the url: eleven code
    units, none of them a double quote, [&], [?], [/] or white space, that
    stand somewhere after [youtube.com/] or [youtu.be/]. *)
Theorem extractVideoId_reads_an_id (link id : jsstring) :
  extractVideoId link = Ok id ->
  List.length id = 11%nat
  /\ forallb idChar id = true
  /\ exists before after,
       link = before ++ id ++ after /\
       (includes (js "youtube.com/") before = true \/
        includes (js "youtu.be/") before = true).
Proof.
  intros H; apply extractVideoId_Ok in H as (b & a & Hu & Hl & Hp & Hw).
  eauto 7.
Qed.

(** X6. A url with neither [youtube.com/] nor [youtu.be/] in it is
    rejected with 'Invalid YouTube URL'. *)
Theorem extractVideoId_rejects_other_urls (link : jsstring) :
  includes (js "youtube.com/") link = false ->
  includes (js "youtu.be/") link = false ->
  extractVideoId link = Throw (js "Invalid YouTube URL").
Proof.
  intros H1 H2.
  destruct (extractVideoId link) as [id|m] eqn:E.
  - apply extractVideoId_Ok in E as (b & a & -> & _ & _ & [Hw|Hw]);
      apply (includes_more _ _ (id ++ a)) in Hw; congruence.
  - unfold extractVideoId in E.
    destruct (search videoIdPattern link) as [[x|]|]; try discriminate.
    injection E as <-; reflexivity.
Qed.


(** ** The links [extractVideoId] reads *)

Lemma search_skip (r : pattern) (c : char) (s : jsstring) :
  pmatch r (c :: s) None (fun _ cap => Some cap) = None ->
  search r (c :: s) = search r s.
Proof. intros H; cbn [search]; rewrite H; reflexivity. Qed.

Lemma search_here (r : pattern) (s : jsstring) (x : option jsstring) :
  pmatch r s None (fun _ cap => Some cap) = Some x -> search r s = Some x.
Proof. intros H; destruct s; cbn [search]; rewrite H; reflexivity. Qed.

Lemma idGroup_id (id rest : jsstring) :
  List.length id = 11%nat -> forallb idChar id = true ->
  idGroup (id ++ rest) = Some (Some id).
Proof.
  intros Hl Hp; unfold idGroup; cbn [pmatch].
  rewrite <- Hl, (times_match_app _ _ _ Hp), firstn_taken; reflexivity.
Qed.

(** No match starts at a code unit that is not [y]. *)
Lemma videoIdPattern_first (c : char) (s : jsstring) :
  (chr "y" =? c)%N = false ->
  pmatch videoIdPattern (c :: s) None (fun _ cap => Some cap) = None.
Proof.
  intros H; unfold videoIdPattern.
  change (js "youtube.com/") with (chr "y" :: js "outube.com/").
  change (js "youtu.be/") with (chr "y" :: js "outu.be/").
  cbn [pmatch lit_match]; rewrite H; reflexivity.
Qed.

Lemma videoIdPattern_eq (s : jsstring) :
  pmatch videoIdPattern s None (fun _ cap => Some cap) =
  match match lit_match (js "youtube.com/") s with
        | Some s' =>
            pmatch (Alt underPath (Alt embedPath watchQuery)) s' None
              (fun s' _ => idGroup s')
        | None => None
        end with
  | Some x => Some x
  | None =>
      match lit_match (js "youtu.be/") s with
      | Some s' => idGroup s'
      | None => None
      end
  end.
Proof. reflexivity. Qed.

Lemma videoIdPattern_short (t : jsstring) :
  pmatch videoIdPattern (js "youtu.be/" ++ t) None (fun _ cap => Some cap) =
  idGroup t.
Proof.
  rewrite videoIdPattern_eq.
  replace (lit_match (js "youtube.com/") (js "youtu.be/" ++ t)) with (@None jsstring)
    by reflexivity.
  rewrite lit_match_app; reflexivity.
Qed.

Lemma rep_match_none {R : Type} (p : char -> bool) (least : nat) (s : jsstring)
  (k : jsstring -> option R) :
  (forall n, k (skipn n s) = None) -> rep_match p least s k = None.
Proof.
  revert least; induction s as [|c s IH]; intros least H; cbn [rep_match].
  - destruct least; [apply (H O) | reflexivity].
  - rewrite IH by (intros n; apply (H (S n))).
    destruct (p c), least; try reflexivity; apply (H O).
Qed.

Lemma rep_match_app_Some {R : Type} (p : char -> bool) (pre s : jsstring)
  (k : jsstring -> option R) (x : R) :
  forallb p pre = true -> rep_match p 0 s k = Some x ->
  rep_match p 0 (pre ++ s) k = Some x.
Proof.
  intros Hp Hs; induction pre as [|c pre IH]; [exact Hs|].
  cbn [forallb] in Hp; apply andb_true_iff in Hp as [Hc Hp].
  cbn [app rep_match Nat.pred]; rewrite Hc, (IH Hp); reflexivity.
Qed.


Lemma notSlash_skipn (s : jsstring) (n : nat) :
  forallb notSlash s = true -> lit_match (js "/") (skipn n s) = None.
Proof.
  revert n; induction s as [|c s IH]; intros n H.
  - destruct n; reflexivity.
  - cbn [forallb] in H; apply andb_true_iff in H as [Hc H].
    destruct n; [|apply IH; exact H].
    change (js "/") with [chr "/"]; cbn [skipn lit_match].
    unfold notSlash in Hc; apply negb_true_iff in Hc.
    rewrite N.eqb_sym, Hc; reflexivity.
Qed.

Lemma idChar_notSlash (s : jsstring) :
  forallb idChar s = true -> forallb notSlash s = true.
Proof.
  induction s as [|c s IH]; [reflexivity|]; cbn [forallb]; intros H.
  apply andb_true_iff in H as [Hc H]; rewrite (IH H), andb_true_r.
  unfold idChar in Hc; unfold notSlash.
  apply negb_true_iff in Hc; apply negb_true_iff.
  repeat (apply orb_false_iff in Hc as [Hc ?]); assumption.
Qed.


Lemma underPath_none {R : Type} (t : jsstring)
  (k : jsstring -> option jsstring -> option R) :
  forallb notSlash t = true -> pmatch underPath t None k = None.
Proof.
  intros H; unfold underPath; cbn [pmatch].
  apply rep_match_none; intros n.
  rewrite (notSlash_skipn _ _ H); reflexivity.
Qed.

Lemma underPath_embed {R : Type} (t : jsstring)
  (k : jsstring -> option jsstring -> option R) :
  forallb notSlash t = true -> pmatch underPath (js "embed/" ++ t) None k = None.
Proof.
  intros H; unfold underPath; cbn [pmatch].
  apply rep_match_none; intros n.
  let l := eval vm_compute in (js "embed/") in change (js "embed/") with l.
  do 5 (destruct n as [|n]; [reflexivity|]).
  destruct n as [|n]; cbn [app skipn].
  - match goal with
    | |- context [lit_match (js "/") (?c :: t)] =>
        replace (lit_match (js "/") (c :: t)) with (Some t) by reflexivity
    end.
    apply rep_match_none; intros n.
    rewrite (notSlash_skipn _ _ H); reflexivity.
  - rewrite (notSlash_skipn _ _ H); reflexivity.
Qed.

Lemma embedPath_watch {R : Type} (t : jsstring)
  (k : jsstring -> option jsstring -> option R) :
  pmatch embedPath (js "watch?v=" ++ t) None k = None.
Proof. reflexivity. Qed.

Lemma embedPath_embed {R : Type} (t : jsstring)
  (k : jsstring -> option jsstring -> option R) :
  pmatch embedPath (js "embed/" ++ t) None k = k t None.
Proof.
  unfold embedPath; cbn [pmatch].
  replace (lit_match (js "v") (js "embed/" ++ t)) with (@None jsstring) by reflexivity.
  replace (lit_match (js "e") (js "embed/" ++ t)) with (Some (js "mbed" ++ js "/" ++ t))
    by reflexivity.
  rewrite !lit_match_app.
  replace (lit_match (js "/") (js "mbed" ++ js "/" ++ t)) with (@None jsstring)
    by reflexivity.
  destruct (k t None); reflexivity.
Qed.


(** The continuation of [.*] in [watchQuery] fails on a text that does not
    start with [?v=] or [&v=]. *)
Lemma watchQuery_eq {R : Type} (s : jsstring)
  (k : jsstring -> option jsstring -> option R) :
  pmatch watchQuery s None k =
  rep_match is_dot 0 s
    (fun s' =>
       match s' with
       | c :: s'' =>
           if ((c =? chr "?") || (c =? chr "&"))%N
           then match lit_match (js "v=") s'' with
                | Some s3 => k s3 None
                | None => None
                end
           else None
       | [] => None
       end).
Proof. reflexivity. Qed.

Lemma includes_skipn (n : jsstring) (s : jsstring) (m : nat) :
  includes n (skipn m s) = true -> includes n s = true.
Proof.
  revert m; induction s as [|c s IH]; intros m.
  - destruct m; auto.
  - destruct m; [auto|].
    cbn [skipn]; intros H; cbn [includes]; rewrite (IH _ H); apply orb_true_r.
Qed.

Lemma lit_match_includes (n s s' : jsstring) (c : char) :
  lit_match n s = Some s' -> includes n (c :: s) = true.
Proof.
  intros H; apply lit_match_Some in H as ->.
  apply (includes_here n [c] s').
Qed.

Lemma rep_match_cons {R : Type} (p : char -> bool) (c : char) (s : jsstring)
  (k : jsstring -> option R) :
  rep_match p 0 (c :: s) k =
  if p c then match rep_match p 0 s k with
              | Some r => Some r
              | None => k (c :: s)
              end
  else k (c :: s).
Proof. reflexivity. Qed.

Lemma watchQuery_watch {R : Type} (id rest : jsstring)
  (k : jsstring -> option jsstring -> option R) (x : R) :
  forallb idChar id = true -> includes (js "v=") rest = false ->
  k (id ++ rest) None = Some x ->
  pmatch watchQuery (js "watch?v=" ++ id ++ rest) None k = Some x.
Proof.
  intros Hid Hrest Hk; rewrite watchQuery_eq.
  change (js "watch?v=") with (js "watch" ++ js "?v=").
  rewrite <- app_assoc.
  apply rep_match_app_Some; [reflexivity|].
  let l := eval vm_compute in (js "?v=") in change (js "?v=") with l.
  cbn [app]; rewrite rep_match_cons.
  match goal with
  | |- context [is_dot ?c] => replace (is_dot c) with true by reflexivity
  end.
  rewrite rep_match_none.
  - match goal with
    | |- context [lit_match (js "v=") ?l] =>
        replace (lit_match (js "v=") l) with (Some (id ++ rest)) by reflexivity
    end.
    exact Hk.
  - intros n.
    do 2 (destruct n as [|n]; [reflexivity|]).
    cbn [skipn].
    destruct (skipn n (id ++ rest)) as [|c s'] eqn:E; [reflexivity|].
    rewrite skipn_app in E.
    destruct (skipn n id) as [|d id'] eqn:Eid.
    + cbn [app] in E.
      destruct ((c =? chr "?") || (c =? chr "&"))%N; [|reflexivity].
      destruct (lit_match (js "v=") s') as [s3|] eqn:El; [|reflexivity].
      apply (lit_match_includes _ _ _ c) in El.
      rewrite <- E in El; apply includes_skipn in El; congruence.
    + injection E as <- _.
      assert (Hd : idChar d = true).
      { assert (Hin : In d id)
          by (rewrite <- (firstn_skipn n id), Eid; apply in_or_app; right; left;
              reflexivity).
        rewrite forallb_forall in Hid; apply Hid; exact Hin. }
      unfold idChar in Hd; apply negb_true_iff in Hd.
      repeat (apply orb_false_iff in Hd as [Hd ?]).
      replace ((d =? chr "?") || (d =? chr "&"))%N with false
        by (symmetry; apply orb_false_iff; split; assumption).
      reflexivity.
Qed.

Lemma youtube_skip (t : jsstring) (x : option jsstring) :
  pmatch videoIdPattern (js "youtube.com/" ++ t) None (fun _ cap => Some cap) = Some x ->
  search videoIdPattern (js "https://www." ++ js "youtube.com/" ++ t) = Some x.
Proof.
  intros H.
  let l := eval vm_compute in (js "https://www.") in
  change (js "https://www.") with l.
  cbn [app]; rewrite !search_skip by (apply videoIdPattern_first; reflexivity).
  apply search_here; exact H.
Qed.

Lemma videoIdPattern_youtube (t : jsstring) (x : option jsstring) :
  pmatch (Alt underPath (Alt embedPath watchQuery)) t None (fun s' _ => idGroup s')
    = Some x ->
  pmatch videoIdPattern (js "youtube.com/" ++ t) None (fun _ cap => Some cap) = Some x.
Proof.
  intros H; rewrite videoIdPattern_eq, lit_match_app, H; reflexivity.
Qed.

(** X7. [extractVideoId] reads the id back from the usual links: for
    eleven id code units [id], the short link [https://youtu.be/id] with
    anything after it, the embed link with no [/] after the id, and the
    watch link with neither [/] nor another [v=] after the id. *)
Theorem extractVideoId_of_links (id rest : jsstring) :
  List.length id = 11%nat -> forallb idChar id = true ->
  extractVideoId (js "https://youtu.be/" ++ id ++ rest) = Ok id
  /\ (forallb notSlash rest = true ->
      extractVideoId (js "https://www.youtube.com/embed/" ++ id ++ rest) = Ok id)
  /\ (forallb notSlash rest = true -> includes (js "v=") rest = false ->
      extractVideoId (js "https://www.youtube.com/watch?v=" ++ id ++ rest) = Ok id).
Proof.
  intros Hl Hid.
  pose proof (idGroup_id id rest Hl Hid) as Hg.
  assert (Hslash : forallb notSlash rest = true ->
                   forallb notSlash (id ++ rest) = true).
  { intros H; rewrite forallb_app, (idChar_notSlash _ Hid), H; reflexivity. }
  unfold extractVideoId; repeat split.
  - change (js "https://youtu.be/") with (js "https://" ++ js "youtu.be/").
    rewrite <- app_assoc.
    let l := eval vm_compute in (js "https://") in
    change (js "https://") with l.
    cbn [app]; rewrite !search_skip by (apply videoIdPattern_first; reflexivity).
    rewrite (search_here _ _ (Some id)); [reflexivity|].
    rewrite videoIdPattern_short; exact Hg.
  - intros Hrest.
    change (js "https://www.youtube.com/embed/")
      with (js "https://www." ++ js "youtube.com/" ++ js "embed/").
    rewrite <- !app_assoc.
    rewrite (youtube_skip _ (Some id)); [reflexivity|].
    apply videoIdPattern_youtube; cbn [pmatch].
    fold (@pmatch (option jsstring)).
    rewrite (underPath_embed _ _ (Hslash Hrest)), embedPath_embed, Hg; reflexivity.
  - intros Hrest Hv.
    change (js "https://www.youtube.com/watch?v=")
      with (js "https://www." ++ js "youtube.com/" ++ js "watch?v=").
    rewrite <- !app_assoc.
    rewrite (youtube_skip _ (Some id)); [reflexivity|].
    apply videoIdPattern_youtube.
    change (pmatch (Alt underPath (Alt embedPath watchQuery))
              (js "watch?v=" ++ id ++ rest) None (fun s' _ => idGroup s'))
      with (match pmatch underPath (js "watch?v=" ++ id ++ rest) None
                    (fun s' _ => idGroup s') with
            | Some x => Some x
            | None =>
                match pmatch embedPath (js "watch?v=" ++ id ++ rest) None
                        (fun s' _ => idGroup s') with
                | Some x => Some x
                | None =>
                    pmatch watchQuery (js "watch?v=" ++ id ++ rest) None
                      (fun s' _ => idGroup s')
                end
            end).
    rewrite underPath_none, embedPath_watch.
    + apply watchQuery_watch; assumption.
    + change (js "watch?v=" ++ id ++ rest) with (js "watch?v=" ++ (id ++ rest)).
      rewrite forallb_app, (Hslash Hrest); reflexivity.
Qed.

End VideoId.

(* ================================================================== *)
(** * The YouTube watch page *)
(* ================================================================== *)

Section WatchPage.
Import YouTube TikTok YouTubePage.

Lemma or_else_nonempty (x : option jsstring) (fallback : jsstring) :
  fallback <> [] -> or_else x fallback <> [].
Proof.
  intros H; unfold or_else.
  destruct x as [[|c s]|]; simpl; auto; discriminate.
Qed.

Lemma filter_all {A : Type} (p : A -> bool) (l : list A) :
  Forall (fun x => p x = true) l -> filter p l = l.
Proof.
  induction 1 as [|x l Hx _ IH]; simpl; [reflexivity|].
  rewrite Hx, IH; reflexivity.
Qed.






End WatchPage.

Section NormalizerOrder.
Import YouTube.







End NormalizerOrder.

(* ================================================================== *)
(** * What the TikTok chain returns *)
(* ================================================================== *)

Section TikTokResults.
Import TikTok.

(** Every candidate of the chain is an mp4 video record with one of the
    four labels. *)
Lemma extractFormats_shape (doc : Html) (videoData : VideoData) (f : VideoFormat) :
  In f (extractFormats doc videoData) -> exists u, f = mp4 (js "original") u.
Proof.
  unfold extractFormats; intros H.
  apply in_app_or in H as [H|H]; [|apply in_app_or in H as [H|H]].
  - apply in_flat_map in H as (src & _ & H).
    destruct (isHttp (Some src)); [|contradiction].
    destruct H as [<-|[]]; eauto.
  - destruct (isHttp _); [|contradiction].
    destruct H as [<-|[]]; eauto.
  - apply in_map_iff in H as (u & <- & _); eauto.
Qed.

Lemma extractFromEmbed_shape (net : Net) (embedUrl : jsstring) (f : VideoFormat) :
  In f (extractFromEmbed net embedUrl) -> exists u, f = mp4 (js "original (embed)") u.
Proof.
  unfold extractFromEmbed.
  destruct (net embedUrl) as [e|status body]; [contradiction|].
  destruct (negb (ok status)); [contradiction|].
  intros H; apply in_flat_map in H as (src & _ & H).
  destruct (nonempty src); [|contradiction].
  destruct H as [<-|[]]; eauto.
Qed.

Lemma extractFromApi_cases (net : Net) (pageUrl : jsstring) :
  exists play download,
    extractFromApi net pageUrl =
    map (mp4 (js "original (no watermark)")) play
    ++ map (mp4 (js "original (watermark)")) download.
Proof.
  unfold extractFromApi.
  destruct (videoIdOf pageUrl) as [videoId|]; [|exists [], []; reflexivity].
  destruct (negb (nonempty videoId)); [exists [], []; reflexivity|].
  destruct (net (apiUrlOf videoId)) as [e|status body]; [exists [], []; reflexivity|].
  destruct (negb (ok status)); [exists [], []; reflexivity|].
  destruct (json body) as [[videoData|]|]; try (exists [], []; reflexivity).
  exists (if nonempty (or_else (play_addr videoData) [])
          then [or_else (play_addr videoData) []] else []),
         (if nonempty (or_else (download_addr videoData) [])
          then [or_else (download_addr videoData) []] else []).
  destruct (nonempty (or_else (play_addr videoData) [])),
           (nonempty (or_else (download_addr videoData) [])); reflexivity.
Qed.

Lemma gather_cases (net : Net) (pageUrl : jsstring) (doc : Html) :
  (gather net pageUrl doc = extractFormats doc (extractVideoData doc))
  \/ (exists embedUrl, gather net pageUrl doc = extractFromEmbed net embedUrl)
  \/ (gather net pageUrl doc = extractFromApi net pageUrl).
Proof.
  unfold gather.
  destruct (extractFormats doc (extractVideoData doc)) as [|f fs] eqn:E; [|auto].
  destruct (getEmbedUrl pageUrl) as [embedUrl|]; cbn [app]; [|auto].
  destruct (extractFromEmbed net embedUrl) as [|g gs] eqn:E'; cbn [app]; [auto|].
  right; left; exists embedUrl; rewrite E'; reflexivity.
Qed.

Lemma gather_shape (net : Net) (pageUrl : jsstring) (doc : Html) (f : VideoFormat) :
  In f (gather net pageUrl doc) ->
  exists q u, f = mp4 q u /\ In q getSupportedQualities.
Proof.
  destruct (gather_cases net pageUrl doc) as [->|[(e & ->)| ->]]; intros H.
  - apply extractFormats_shape in H as (u & ->).
    exists (js "original"), u; split; [reflexivity|]; simpl; auto.
  - apply extractFromEmbed_shape in H as (u & ->).
    exists (js "original (embed)"), u; split; [reflexivity|]; simpl; auto.
  - destruct (extractFromApi_cases net pageUrl) as (play & download & E).
    rewrite E in H; apply in_app_or in H as [H|H];
      apply in_map_iff in H as (u & <- & _).
    + exists (js "original (no watermark)"), u; split; [reflexivity|]; simpl; auto.
    + exists (js "original (watermark)"), u; split; [reflexivity|]; simpl; auto.
Qed.

Lemma info_formats_gathered (net : Net) (pageUrl : jsstring) (info : TikTokVideoInfo)
  (f : VideoFormat) :
  fetchTikTokInfo net pageUrl = Ok info -> In f (info_formats info) ->
  exists status body,
    net pageUrl = Response status body /\
    In f (gather net pageUrl (html body)) /\ url f <> [].
Proof.
  intros Hinfo Hf.
  apply fetchTikTokInfo_Ok in Hinfo as (status & body & Hn & _ & E).
  rewrite E in Hf.
  apply (Permutation_in _ (sort_perm _ _)) in Hf.
  apply dedupByUrl_first in Hf as [Hf _].
  apply filter_In in Hf as [Hf Hu].
  exists status, body; repeat split; auto.
  apply nonempty_true; exact Hu.
Qed.

Lemma extractTikTokVideo_Ok (sanitize : jsstring -> result jsstring) (net : Net)
  (link : jsstring) (r : VideoMetadata) :
  extractTikTokVideo sanitize net link = Ok r ->
  exists cleanUrl info,
    sanitize link = Ok cleanUrl /\ fetchTikTokInfo net cleanUrl = Ok info /\
    info_formats info <> [] /\
    r = {| title := info_title info; description := info_description info;
           duration := info_duration info; thumbnail := info_thumbnail info;
           formats := info_formats info; downloadUrl := None |}.
Proof.
  unfold extractTikTokVideo; intros H; apply rethrow_Ok in H.
  apply bind_Ok in H as (cleanUrl & Hs & H).
  apply bind_Ok in H as (info & Hi & H).
  exists cleanUrl, info.
  destruct (info_formats info) eqn:E; [discriminate|].
  injection H as <-; repeat split; auto; discriminate.
Qed.

(** X12. A success of [extractTikTokVideo] has a title that is not empty,
    a duration that is a number, no [downloadUrl], and at least one
    format; every format is an mp4 video record of size 0 with a url, and
    its quality and format are among those [getSupportedQualities] and
    [getSupportedFormats] list. *)
Theorem tiktok_result_is_well_formed (sanitize : jsstring -> result jsstring)
  (net : Net) (link : jsstring) (r : VideoMetadata) :
  extractTikTokVideo sanitize net link = Ok r ->
  title r <> []
  /\ isNaN (duration r) = false
  /\ downloadUrl r = None
  /\ formats r <> []
  /\ Forall (fun f =>
       format f = js "mp4" /\ mimeType f = js "video/mp4" /\ type f = video
       /\ size f = Num 0 /\ url f <> []
       /\ In (quality f) TikTok.getSupportedQualities
       /\ In (format f) TikTok.getSupportedFormats) (formats r).
Proof.
  intros H; apply extractTikTokVideo_Ok in H as (cleanUrl & info & _ & Hi & Hne & ->).
  cbn [title duration downloadUrl formats].
  pose proof Hi as Hi'.
  unfold fetchTikTokInfo in Hi'.
  destruct (net cleanUrl) as [e|status body]; [discriminate|].
  destruct (negb (ok status)); [discriminate|].
  apply rethrow_Ok in Hi'; injection Hi' as Hi'.
  split; [|split; [|split; [reflexivity|split; [exact Hne|]]]].
  - rewrite <- Hi'; cbn [info_title]; unfold extractTitle.
    do 3 apply or_else_nonempty; discriminate.
  - rewrite <- Hi'; cbn [info_duration]; unfold extractDuration.
    destruct (nonempty _); [|reflexivity].
    destruct (parseInt _); reflexivity.
  - apply Forall_forall; intros f Hf.
    destruct (info_formats_gathered _ _ _ _ Hi Hf) as (st & bd & _ & Hg & Hu).
    apply gather_shape in Hg as (q & u & -> & Hq).
    cbn; repeat split; auto.
Qed.


(** ** The closing sort of [fetchTikTokInfo] moves nothing *)

Lemma comes_after_byWatermark (a b : VideoFormat) :
  comes_after byWatermark a b = cleaner (noWatermark b) (noWatermark a).
Proof.
  unfold comes_after, byWatermark, cleaner.
  destruct (noWatermark a), (noWatermark b); reflexivity.
Qed.

Lemma StronglySorted_map_snd_filter {A : Type} (R : A -> A -> Prop)
  (q : nat * A -> bool) (l : list A) (n : nat) :
  StronglySorted R l ->
  StronglySorted R (map snd (filter q (combine (seq n (List.length l)) l))).
Proof.
  intros H; revert n; induction H as [|x l Hs IH Hx]; intros n; [constructor|].
  cbn [List.length seq combine filter].
  destruct (q (n, x)); cbn [map snd]; [|apply IH].
  constructor; [apply IH|].
  apply Forall_forall; intros y Hy.
  apply in_map_iff in Hy as ([i z] & <- & Hz).
  apply filter_In in Hz as [Hz _]; apply in_combine_r in Hz.
  rewrite Forall_forall in Hx; apply Hx; exact Hz.
Qed.

Lemma dedupByUrl_sorted (R : VideoFormat -> VideoFormat -> Prop)
  (l : list VideoFormat) :
  StronglySorted R l -> StronglySorted R (dedupByUrl l).
Proof. apply StronglySorted_map_snd_filter. Qed.

Lemma StronglySorted_same {A : Type} (R : A -> A -> Prop) (l : list A) :
  (forall a b, In a l -> In b l -> R a b) -> StronglySorted R l.
Proof.
  induction l as [|x l IH]; intros H; constructor.
  - apply IH; intros a b Ha Hb; apply H; right; assumption.
  - apply Forall_forall; intros y Hy; apply H; [left; reflexivity | right; exact Hy].
Qed.

Lemma gather_in_order (net : Net) (pageUrl : jsstring) (doc : Html) :
  StronglySorted (in_order noWatermark cleaner) (gather net pageUrl doc).
Proof.
  destruct (gather_cases net pageUrl doc) as [->|[(e & ->)| ->]].
  - apply StronglySorted_same; intros a b _ Hb.
    apply extractFormats_shape in Hb as (u & ->); reflexivity.
  - apply StronglySorted_same; intros a b _ Hb.
    apply extractFromEmbed_shape in Hb as (u & ->); reflexivity.
  - destruct (extractFromApi_cases net pageUrl) as (play & download & ->).
    induction play as [|u play IH]; cbn [map app].
    + apply StronglySorted_same; intros a b _ Hb.
      apply in_map_iff in Hb as (u & <- & _); reflexivity.
    + constructor; [exact IH|].
      apply Forall_forall; intros y _.
      unfold in_order, cleaner.
      replace (noWatermark (mp4 (js "original (no watermark)") u)) with true
        by reflexivity.
      apply andb_false_r.
Qed.

(** X13. The formats of [fetchTikTokInfo] stand in the order the chain
    found them: the closing sort moves nothing, since only the API
    strategy yields a record without watermark and yields it first.  The
    ranking [extractVideo] applies for 'highest' leaves them in that order
    as well, every size being 0. *)
Theorem tiktok_formats_in_discovery_order (net : Net) (pageUrl : jsstring)
  (info : TikTokVideoInfo) :
  fetchTikTokInfo net pageUrl = Ok info ->
  exists status body,
    net pageUrl = Response status body /\
    info_formats info =
      dedupByUrl (filter hasUrl (gather net pageUrl (html body)))
    /\ sort byWatermarkThenSize (info_formats info) = info_formats info.
Proof.
  intros H; pose proof H as H'.
  apply fetchTikTokInfo_Ok in H' as (status & body & Hn & _ & E).
  exists status, body; split; [exact Hn|].
  assert (Hs : StronglySorted (in_order noWatermark cleaner)
                 (dedupByUrl (filter hasUrl (gather net pageUrl (html body))))).
  { apply dedupByUrl_sorted, StronglySorted_filter, gather_in_order. }
  assert (E' : info_formats info =
               dedupByUrl (filter hasUrl (gather net pageUrl (html body)))).
  { rewrite E.
    apply (sort_sorted_id byWatermark noWatermark cleaner);
      [apply comes_after_byWatermark | exact Hs]. }
  split; [exact E'|].
  apply (sort_sorted_id byWatermarkThenSize watermarkRank cleanerOrLarger);
    [apply comes_after_byWatermarkThenSize|].
  rewrite E'.
  assert (Hsize : Forall (fun f => size f = Num 0)
                    (dedupByUrl (filter hasUrl (gather net pageUrl (html body))))).
  { apply Forall_forall; intros f Hf.
    apply dedupByUrl_first in Hf as [Hf _]; apply filter_In in Hf as [Hf _].
    apply gather_shape in Hf as (q & u & -> & _); reflexivity. }
  revert Hs Hsize; generalize (dedupByUrl (filter hasUrl (gather net pageUrl (html body)))).
  intros l Hs; induction Hs as [|x l Hs IH Hx]; intros Hsize; [constructor|].
  inversion Hsize as [|? ? Hx0 Hl]; subst.
  constructor; [apply IH; exact Hl|].
  rewrite Forall_forall in *; intros y Hy.
  specialize (Hx y Hy); specialize (Hl y Hy).
  unfold in_order, cleaner in Hx.
  unfold in_order, cleanerOrLarger, watermarkRank, sizeKey, sizeOr0; cbn [fst snd].
  rewrite Hx0, Hl; cbn.
  rewrite Hx; rewrite orb_false_l, andb_false_r; reflexivity.
Qed.

End TikTokResults.

Section Chain.
Import TikTok.

Lemma split_go_whole (sep : jsstring) (cur s : jsstring) :
  sep <> [] -> includes sep s = false -> split_go sep 0 cur s = [rev cur ++ s].
Proof.
  intros Hsep; revert cur; induction s as [|c s IH]; intros cur H.
  - cbn [split_go]; rewrite app_nil_r; reflexivity.
  - cbn [includes] in H; apply orb_false_iff in H as [H1 H2].
    cbn [split_go]; rewrite H1, (IH _ H2); cbn [rev].
    rewrite <- app_assoc; reflexivity.
Qed.

Lemma videoIdOf_none (link : jsstring) :
  includes (js "/video/") link = false -> videoIdOf link = None.
Proof.
  intros H; unfold videoIdOf, split.
  change (js "/video/") with (chr "/" :: js "video/") at 1.
  cbv iota.
  change (chr "/" :: js "video/") with (js "/video/").
  rewrite split_go_whole by (discriminate || exact H); reflexivity.
Qed.

(** X15. A url without a [/video/] segment (a short link that
    [sanitizeTikTokUrl] leaves as it is, say) has no embed url and no API
    url: the main page is the only strategy, and when it names no video
    the extraction fails with 'No video formats found'. *)
Theorem url_without_video_segment_has_one_strategy
  (sanitize : jsstring -> result jsstring) (net : Net)
  (link cleanUrl : jsstring) (status : Z) (body : Body) :
  sanitize link = Ok cleanUrl ->
  includes (js "/video/") cleanUrl = false ->
  net cleanUrl = Response status body -> ok status = true ->
  getEmbedUrl cleanUrl = None
  /\ extractFromApi net cleanUrl = []
  /\ gather net cleanUrl (html body) =
     extractFormats (html body) (extractVideoData (html body))
  /\ (extractFormats (html body) (extractVideoData (html body)) = [] ->
      extractTikTokVideo sanitize net link =
      Throw (js "Failed to extract TikTok video: " ++ js "No video formats found")).
Proof.
  intros Hs Hv Hn Hok.
  pose proof (videoIdOf_none _ Hv) as Hid.
  assert (He : getEmbedUrl cleanUrl = None) by (unfold getEmbedUrl; rewrite Hid; reflexivity).
  assert (Ha : extractFromApi net cleanUrl = [])
    by (unfold extractFromApi; rewrite Hid; reflexivity).
  assert (Hg : gather net cleanUrl (html body) =
               extractFormats (html body) (extractVideoData (html body))).
  { unfold gather; rewrite He, Ha.
    destruct (extractFormats _ _); reflexivity. }
  repeat split; auto.
  intros Hnone.
  unfold extractTikTokVideo; rewrite Hs; cbn [bind].
  unfold fetchTikTokInfo; rewrite Hn, Hok, Hg, Hnone; reflexivity.
Qed.

(** X14. A strategy that finds a format ends the chain: when the main
    page names a video, nothing the network would answer on any other url
    changes the result, and when the embed page names one, nothing the API
    would answer does. *)
Theorem formats_on_the_page_end_the_chain (net net' : Net) (pageUrl : jsstring)
  (status : Z) (body : Body) :
  net pageUrl = Response status body -> net' pageUrl = Response status body ->
  (extractFormats (html body) (extractVideoData (html body)) <> [] ->
   fetchTikTokInfo net pageUrl = fetchTikTokInfo net' pageUrl)
  /\ (forall embedUrl,
        getEmbedUrl pageUrl = Some embedUrl ->
        net embedUrl = net' embedUrl ->
        extractFromEmbed net embedUrl <> [] ->
        fetchTikTokInfo net pageUrl = fetchTikTokInfo net' pageUrl).
Proof.
  intros Hn Hn'; split.
  - intros Hp; unfold fetchTikTokInfo, gather; rewrite Hn, Hn'.
    destruct (extractFormats _ _); [congruence | reflexivity].
  - intros embedUrl He Hsame Hne.
    assert (Hsame' : extractFromEmbed net' embedUrl = extractFromEmbed net embedUrl)
      by (unfold extractFromEmbed; rewrite Hsame; reflexivity).
    unfold fetchTikTokInfo, gather; rewrite Hn, Hn', He, Hsame'.
    destruct (extractFormats _ _); [|reflexivity].
    cbn [app]; destruct (extractFromEmbed net embedUrl); [congruence | reflexivity].
Qed.

End Chain.

(* ================================================================== *)
(** * What [extractVideo] passes on *)
(* ================================================================== *)

Section Passing.
Variable env : Env.

(** What the platform branch returns: the extraction's result with a
    selection of its formats. *)
Lemma perPlatform_Ok params m' :
  perPlatform env params = Ok m' ->
  exists m fs,
    ((detectPlatform env (Params.url params) = youtube /\
      extractYouTubeVideo env (Params.url params) (Params.format params)
        (Params.quality params) = Ok m)
     \/ (detectPlatform env (Params.url params) = tiktok /\
         extractTikTokVideo env (Params.url params) = Ok m))
    /\ m' = setFormats m fs
    /\ (forall f, In f fs -> In f (formats m)).
Proof.
  unfold perPlatform.
  destruct (detectPlatform env (Params.url params)); [| |discriminate]; intros H;
    apply bind_Ok in H as (m & Hm & H);
    apply bind_Ok in H as (fs & Hfs & H);
    apply bind_Ok in H as (fs' & Hfs' & [= <-]);
    apply filterFormat_selects in Hfs as (p & ->);
    apply filterQuality_selects in Hfs' as (q & ->);
    eexists m, _; (split; [auto|]); (split; [reflexivity|]);
    intros f Hf; unfold sortHighest in Hf;
    (destruct (wantsHighest params);
     [apply (Permutation_in _ (sort_perm _ _)) in Hf|]);
    apply filter_In in Hf as [Hf _]; apply filter_In in Hf as [Hf _]; exact Hf.
Qed.

(** X17. [extractVideo] returns what the platform extraction returned:
    title, description, duration and thumbnail unchanged, and no format
    that the extraction did not return. *)
Theorem extractVideo_returns_what_was_extracted (request : Request.t)
  (u : jsstring) (r : VideoMetadata) :
  Request.url request = Some u ->
  extractVideo env request = Ok r ->
  exists m,
    ((detectPlatform env u = youtube /\
      extractYouTubeVideo env u (Params.format (paramsOf u request))
        (Params.quality (paramsOf u request)) = Ok m)
     \/ (detectPlatform env u = tiktok /\ extractTikTokVideo env u = Ok m))
    /\ title r = title m /\ description r = description m
    /\ duration r = duration m /\ thumbnail r = thumbnail m
    /\ (forall f, In f (formats r) -> In f (formats m)).
Proof.
  intros Hu Hr.
  apply extractVideo_Ok in Hr as (u' & Hu' & _ & Hb).
  assert (u' = u) as -> by congruence.
  apply extractVideoBody_Ok in Hb as (m' & fs & first & rest & Hm & Hfs & Hf & ->).
  apply perPlatform_Ok in Hm as (m & fs0 & Hp & -> & Hin).
  apply filterType_selects in Hfs as (p & ->).
  exists m; split; [exact Hp|].
  unfold finish.
  destruct (or_false (Params.download _)), (or_false (Params.info _));
    cbn [formats title description duration thumbnail setFormats setDownloadUrl];
    repeat split; intros f Hin'; try contradiction;
    rewrite <- Hf in Hin';
    apply filter_In in Hin' as [Hin' _]; apply filter_In in Hin' as [Hin' _];
    apply Hin; exact Hin'.
Qed.

(** X18. With [download] and without [info], [downloadUrl] is the url of
    the first returned format, which is not empty; with [info] it is
    absent; with neither it is what the platform extraction left. *)
Theorem downloadUrl_is_the_first_format (request : Request.t)
  (u : jsstring) (r : VideoMetadata) :
  Request.url request = Some u ->
  extractVideo env request = Ok r ->
  (or_false (Params.info (paramsOf u request)) = true -> downloadUrl r = None)
  /\ (or_false (Params.info (paramsOf u request)) = false ->
      or_false (Params.download (paramsOf u request)) = true ->
      exists first rest,
        formats r = first :: rest /\ downloadUrl r = Some (url first) /\
        url first <> [])
  /\ (or_false (Params.info (paramsOf u request)) = false ->
      or_false (Params.download (paramsOf u request)) = false ->
      exists m,
        ((detectPlatform env u = youtube /\
          extractYouTubeVideo env u (Params.format (paramsOf u request))
            (Params.quality (paramsOf u request)) = Ok m)
         \/ (detectPlatform env u = tiktok /\ extractTikTokVideo env u = Ok m))
        /\ downloadUrl r = downloadUrl m).
Proof.
  intros Hu Hr.
  apply extractVideo_Ok in Hr as (u' & Hu' & _ & Hb).
  assert (u' = u) as -> by congruence.
  apply extractVideoBody_Ok in Hb as (m' & fs & first & rest & Hm & Hfs & Hf & ->).
  apply perPlatform_Ok in Hm as (m & fs0 & Hp & -> & Hin).
  unfold finish; split; [|split].
  - intros ->; reflexivity.
  - intros -> ->; exists first, rest; cbn; repeat split.
    assert (H : In first (filter hasUrl fs)) by (rewrite Hf; left; reflexivity).
    apply filter_In in H as [_ H]; apply nonempty_true; exact H.
  - intros -> ->; exists m; split; [exact Hp | reflexivity].
Qed.

End Passing.

Section AudioOnTikTok.
Variable env : Env.


End AudioOnTikTok.

(* ================================================================== *)
(** * The handlers *)
(* ================================================================== *)

Section Handlers.
Variable env : Env.

(** X19. The [/extract] handler answers [success: true] with the result
    of [extractVideo] on the request it builds.  It fails with the bare
    'URL is required' when the query has no url, and otherwise with the
    failure of a stage of [extractVideo] behind both prefixes,
    'Extraction failed: Error extracting video: '.  [download] and [info]
    are requested by the exact text 'true' only. *)
Theorem extract_handler_outcomes (query : Query) :
  (forall response, extractHandler env query = Ok response ->
     extract_success response = true /\
     exists u, q_url query = Some u /\ u <> [] /\
               extractVideo env (requestOf u query) = Ok (data response))
  /\ (forall m, extractHandler env query = Throw m ->
        ((q_url query = None \/ q_url query = Some []) /\
         m = js "URL is required")
        \/ (exists u inner,
              q_url query = Some u /\ u <> [] /\
              m = js "Extraction failed: " ++ js "Error extracting video: " ++ inner /\
              StageFailure env (paramsOf u (requestOf u query)) inner))
  /\ (forall u,
        (Request.download (requestOf u query) = val true <->
         q_download query = Some (js "true")) /\
        (Request.info (requestOf u query) = val true <->
         q_info query = Some (js "true"))).
Proof.
  split; [|split].
  - intros response H; unfold extractHandler in H.
    destruct (q_url query) as [[|c u]|]; cbn in H; try discriminate.
    apply rethrow_Ok in H; apply bind_Ok in H as (r & Hr & [= <-]).
    split; [reflexivity|].
    exists (c :: u); repeat split; [discriminate | exact Hr].
  - intros m H; unfold extractHandler in H.
    destruct (q_url query) as [[|c u]|]; cbn [or_else nonempty negb] in H.
    + injection H as <-; left; auto.
    + right. apply rethrow_Throw in H as (inner & H & ->).
      apply bind_Throw in H as [H|(r & _ & H)]; [|discriminate].
      unfold extractVideo in H; cbn [Request.url requestOf] in H.
      apply rethrow_Throw in H as (inner' & H & ->).
      exists (c :: u), inner'; repeat split; [discriminate|].
      apply extractVideoBody_Throw; exact H.
    + injection H as <-; left; auto.
  - intros u; cbn [requestOf Request.download Request.info]; unfold isTrue.
    split; (split; [intros [= H] | intros ->; reflexivity]).
    + destruct (q_download query) as [s|]; [|discriminate].
      apply str_eqb_eq in H as ->; reflexivity.
    + destruct (q_info query) as [s|]; [|discriminate].
      apply str_eqb_eq in H as ->; reflexivity.
Qed.

End Handlers.

Section Listing.
Variable env : Env.
Variable watch : YouTubePage.Net.
Variable head : jsstring -> TikTok.HeadOutcome.
Variable net : TikTok.Net.

Lemma map_record (l : list VideoFormat) :
  map (fun f => {| quality := quality f; format := format f;
                   mimeType := mimeType f; type := type f;
                   size := size f; url := url f |}) l = l.
Proof.
  induction l as [|[q f m t s u] l IH]; cbn [map]; [reflexivity|].
  rewrite IH; reflexivity.
Qed.

Lemma getFormatsByType_of_listing (link : jsstring) (fs : list VideoFormat)
  (t : MediaType) :
  YouTubePage.listAvailableFormats watch link = Ok fs ->
  YouTubePage.getFormatsByType watch link t =
  Ok (filter (fun f => MediaType_eqb (type f) t) fs).
Proof.
  unfold YouTubePage.listAvailableFormats, YouTubePage.getFormatsByType.
  destruct (YouTube.extractVideoId link) as [id|e]; [|discriminate].
  cbn [bind].
  destruct (YouTubePage.fetchVideoInfo watch id) as [info|e]; [|discriminate].
  intros [= <-]; reflexivity.
Qed.

(** X11. On a YouTube url the [/formats] handler with [type] lists the
    formats of that type which it lists without [type], in the same
    order, and fails with 'No valid formats found with URLs' when there
    is none. *)
Theorem formats_handler_splits_by_type_on_youtube (query query' : Query)
  (u : jsstring) (response : FormatsResponse) (t : MediaType) :
  q_url query = Some u -> detectPlatform env u = youtube ->
  q_type query = None ->
  formatsHandler (overPlatforms watch head net env) query = Ok response ->
  q_url query' = Some u -> q_type query' = Some t ->
  formatsHandler (overPlatforms watch head net env) query' =
  match filter (fun f => MediaType_eqb (type f) t) (listed response) with
  | [] => Throw (js "Failed to list formats: "
                 ++ js "No valid formats found with URLs")
  | kept => Ok {| formats_success := true; platform := youtube; listed := kept |}
  end.
Proof.
  intros Hu Hp Ht H Hu' Ht'.
  unfold formatsHandler in *.
  rewrite Hu in H; rewrite Hu', Ht'; rewrite Ht in H.
  destruct u as [|c u]; [discriminate H|].
  cbn [or_else nonempty negb] in *.
  cbn [detectPlatform overPlatforms listAvailableFormats getFormatsByType] in *.
  rewrite Hp in *.
  apply rethrow_Ok in H; apply bind_Ok in H as (fs & Hfs & H).
  rewrite (getFormatsByType_of_listing _ _ t Hfs); cbn [bind].
  rewrite map_record in *.
  destruct (filter hasUrl fs) as [|f0 l0] eqn:E; [discriminate|].
  injection H as <-; cbn [listed].
  rewrite filter_comm, E.
  destruct (filter _ (f0 :: l0)); reflexivity.
Qed.

(** X20. On a TikTok url the [/formats] handler does not read [type]:
    it lists the formats of [fetchTikTokInfo] on the url as given, all of
    them video records, whatever the rest of the query. *)
Theorem formats_handler_ignores_type_on_tiktok (query : Query) (u : jsstring)
  (response : FormatsResponse) :
  q_url query = Some u -> detectPlatform env u = tiktok ->
  formatsHandler (overPlatforms watch head net env) query = Ok response ->
  platform response = tiktok
  /\ Forall (fun f => type f = video) (listed response)
  /\ (exists info, TikTok.fetchTikTokInfo net u = Ok info /\
                   listed response = TikTok.info_formats info)
  /\ (forall query', q_url query' = Some u ->
        formatsHandler (overPlatforms watch head net env) query' = Ok response).
Proof.
  intros Hu Hp H.
  destruct u as [|c u];
    [unfold formatsHandler in H; rewrite Hu in H; discriminate H|].
  assert (Hsame : forall query', q_url query' = Some (c :: u) ->
            formatsHandler (overPlatforms watch head net env) query' =
            formatsHandler (overPlatforms watch head net env) query).
  { intros query' Hu'; unfold formatsHandler; rewrite Hu, Hu'.
    cbn [detectPlatform overPlatforms or_else nonempty negb]; rewrite Hp.
    reflexivity. }
  unfold formatsHandler in H; rewrite Hu in H.
  cbn [or_else nonempty negb] in H.
  cbn [detectPlatform overPlatforms listTikTokFormats] in H; rewrite Hp in H.
  apply rethrow_Ok in H; apply bind_Ok in H as (fs & Hfs & H).
  unfold TikTok.listAvailableFormats in Hfs.
  apply rethrow_Ok in Hfs; apply bind_Ok in Hfs as (info & Hi & [= <-]).
  rewrite map_record in H.
  assert (Hall : Forall (fun f => hasUrl f = true) (TikTok.info_formats info)).
  { apply Forall_forall; intros f Hf.
    destruct (info_formats_gathered _ _ _ _ Hi Hf) as (_ & _ & _ & _ & Hne).
    apply nonempty_true; exact Hne. }
  rewrite (filter_all _ _ Hall) in H.
  destruct (TikTok.info_formats info) as [|f0 l0] eqn:E; [discriminate|].
  injection H as <-; cbn [platform listed].
  split; [reflexivity|]. split; [|split].
  - apply Forall_forall; intros f Hf; rewrite <- E in Hf.
    destruct (info_formats_gathered _ _ _ _ Hi Hf) as (st & bd & _ & Hg & _).
    apply gather_shape in Hg as (label & src & -> & _); reflexivity.
  - exists info; split; [exact Hi | symmetry; exact E].
  - intros query' Hu'; rewrite (Hsame query' Hu').
    unfold formatsHandler; rewrite Hu; cbn [or_else nonempty negb].
    cbn [detectPlatform overPlatforms listTikTokFormats]; rewrite Hp.
    unfold TikTok.listAvailableFormats; rewrite Hi; cbn [bind rethrow].
    rewrite map_record, E, (filter_all _ _ Hall); reflexivity.
Qed.

End Listing.

(* ================================================================== *)
(** * Query strings and the link [sanitizeTikTokUrl] returns *)
(* ================================================================== *)

Section FormCoding.
Local Open Scope N_scope.

(** ** What the UTF-8 decoder returns is a scalar value *)

Lemma is_scalar_intro (cp : N) :
  cp < 0xD800 \/ (0xE000 <= cp /\ cp < 0x110000) -> is_scalar cp = true.
Proof.
  unfold is_scalar; intros [H|[H1 H2]].
  - apply N.ltb_lt in H; rewrite H; reflexivity.
  - apply N.leb_le in H1; apply N.ltb_lt in H2; rewrite H1, H2.
    apply orb_true_r.
Qed.

Lemma utf8_start_scalar (b : N) :
  match utf8_start b with
  | Single cp => is_scalar cp = true
  | Start st => scalar_after (needed st) (bits st) (lower st) (upper st)
  | Invalid => True
  end.
Proof.
  unfold utf8_start.
  destruct (N.leb_spec b 0x7F); [apply is_scalar_intro; lia|].
  destruct ((0xC2 <=? b) && (b <=? 0xDF)) eqn:E2.
  { apply andb_true_iff in E2 as [H1 H2]; apply N.leb_le in H1, H2.
    cbn [needed bits lower upper scalar_after]; intros c Hc.
    apply is_scalar_intro; nlia. }
  destruct ((0xE0 <=? b) && (b <=? 0xEF)) eqn:E3.
  { apply andb_true_iff in E3 as [H1 H2]; apply N.leb_le in H1, H2.
    cbn [needed bits lower upper scalar_after]; intros c Hc d Hd.
    apply is_scalar_intro.
    destruct (N.eqb_spec b 0xE0), (N.eqb_spec b 0xED); nlia. }
  destruct ((0xF0 <=? b) && (b <=? 0xF4)) eqn:E4; [|exact I].
  apply andb_true_iff in E4 as [H1 H2]; apply N.leb_le in H1, H2.
  cbn [needed bits lower upper scalar_after]; intros c Hc d Hd e He.
  apply is_scalar_intro.
  destruct (N.eqb_spec b 0xF0), (N.eqb_spec b 0xF4); nlia.
Qed.

Lemma utf8_decode_scalar (bs : list N) :
  forall st,
    match st with
    | Some s => scalar_after (needed s) (bits s) (lower s) (upper s)
    | None => True
    end ->
    Forall (fun cp => is_scalar cp = true) (utf8_decode_from st bs).
Proof.
  assert (Hrep : is_scalar 0xFFFD = true) by reflexivity.
  induction bs as [|b bs IH]; intros st Hst.
  - destruct st; repeat constructor; exact Hrep.
  - assert (Hfresh : Forall (fun cp => is_scalar cp = true)
                       (match utf8_start b with
                        | Single cp => cp :: utf8_decode_from None bs
                        | Start st' => utf8_decode_from (Some st') bs
                        | Invalid => 0xFFFD :: utf8_decode_from None bs
                        end)).
    { pose proof (utf8_start_scalar b) as Hb.
      destruct (utf8_start b) as [cp|st'|].
      - constructor; [exact Hb | apply IH; exact I].
      - apply IH; exact Hb.
      - constructor; [exact Hrep | apply IH; exact I]. }
    cbn [utf8_decode_from].
    destruct st as [cur|]; [|exact Hfresh].
    unfold utf8_continue.
    destruct (N.leb_spec (lower cur) b); cbn [andb];
      [|constructor; [exact Hrep | exact Hfresh]].
    destruct (N.leb_spec b (upper cur)); cbn [andb];
      [|constructor; [exact Hrep | exact Hfresh]].
    destruct (needed cur) as [|[|n]] eqn:Hn; cbn [scalar_after] in Hst.
    + constructor; [apply Hst; lia | apply IH; exact I].
    + constructor; [apply Hst; lia | apply IH; exact I].
    + apply IH; cbn [needed bits lower upper]; apply Hst; lia.
Qed.


Lemma utf16_encode_well_formed (cps : list N) :
  Forall (fun cp => is_scalar cp = true) cps ->
  well_formed (flat_map utf16_encode cps) = true.
Proof.
  induction 1 as [|cp cps Hcp _ IH]; [reflexivity|].
  cbn [flat_map]; apply is_scalar_range in Hcp; unfold utf16_encode at 1.
  destruct (N.ltb_spec cp 0x10000) as [Hlt|Hge]; cbn [app].
  - assert (Hh : is_high_surrogate cp = false).
    { unfold is_high_surrogate.
      destruct (N.leb_spec 0xD800 cp), (N.leb_spec cp 0xDBFF); cbn [andb];
        try reflexivity; lia. }
    assert (Hl : is_low_surrogate cp = false).
    { unfold is_low_surrogate.
      destruct (N.leb_spec 0xDC00 cp), (N.leb_spec cp 0xDFFF); cbn [andb];
        try reflexivity; lia. }
    cbn [well_formed]; rewrite Hh, Hl, IH.
    apply N.ltb_lt in Hlt; rewrite Hlt; reflexivity.
  - assert (Hh : is_high_surrogate (0xD800 + (cp - 0x10000) / 0x400) = true).
    { unfold is_high_surrogate; apply andb_true_iff; split; apply N.leb_le; nlia. }
    assert (Hl : is_low_surrogate (0xDC00 + (cp - 0x10000) mod 0x400) = true).
    { unfold is_low_surrogate; apply andb_true_iff; split; apply N.leb_le; nlia. }
    cbn [well_formed]; rewrite Hh, Hl, IH; reflexivity.
Qed.

(** Every name and value a query string gives is well formed. *)
Lemma form_decode_well_formed (bs : list N) : well_formed (form_decode bs) = true.
Proof.
  unfold form_decode, utf8_decode.
  apply utf16_encode_well_formed, utf8_decode_scalar; exact I.
Qed.

Lemma URLSearchParams_well_formed (init : jsstring) :
  Forall (fun nv => well_formed (fst nv) = true /\ well_formed (snd nv) = true)
    (URLSearchParams init).
Proof.
  unfold URLSearchParams.
  apply Forall_forall; intros [n v] H.
  apply in_flat_map in H as (piece & _ & H).
  unfold form_pair in H; destruct piece as [|b piece]; [contradiction|].
  destruct (cut_at (chr "=") (b :: piece)) as [name value].
  destruct H as [[= <- <-]|[]]; split; apply form_decode_well_formed.
Qed.

(** ** The serializer and the parser of a query string *)

Lemma hex_digit_value (n : N) :
  n < 16 ->
  hex_value (hex_digit n) = Some n /\ (hex_digit n =? chr "+") = false
  /\ hex_digit n < 0x80.
Proof.
  intros H.
  assert (Hm : (N.to_nat n < 16)%nat) by lia.
  rewrite <- (N2Nat.id n); revert Hm; generalize (N.to_nat n); intros m Hm.
  do 16 (destruct m as [|m]; [repeat split; reflexivity|]).
  exfalso; lia.
Qed.

Lemma form_safe_plain (b : N) :
  form_safe b = true ->
  (b =? chr "+") = false /\ (b =? chr "%") = false /\ (b =? chr "&") = false
  /\ (b =? chr "=") = false /\ (b =? chr "?") = false /\ b < 0x80.
Proof.
  unfold form_safe, is_digit.
  replace (js "*-._") with [42; 45; 46; 95] by reflexivity.
  cbn [existsb]; intros H.
  repeat (apply orb_true_iff in H as [H|H]);
    try (apply andb_true_iff in H as [H1 H2]; apply N.leb_le in H1, H2;
         change (chr "A") with 65 in *; change (chr "Z") with 90 in *;
         change (chr "a") with 97 in *; change (chr "z") with 122 in *;
         repeat split; try (apply N.eqb_neq; cbv; lia); lia);
    try (apply N.eqb_eq in H; subst b; repeat split; reflexivity);
    try discriminate.
Qed.

(** The bytes of the text the serializer writes for the bytes [bs]. *)
Lemma percent_decode_form (bs rest : list N) :
  Forall (fun b => b < 256) bs ->
  percent_decode
    (map (fun b => if b =? chr "+" then chr " " else b)
       (flat_map form_encode_byte bs ++ rest)) =
  bs ++ percent_decode (map (fun b => if b =? chr "+" then chr " " else b) rest).
Proof.
  induction 1 as [|b bs Hb _ IH]; [reflexivity|].
  cbn [flat_map]; rewrite <- app_assoc; unfold form_encode_byte at 1.
  destruct (form_safe b) eqn:Hs.
  - apply form_safe_plain in Hs as (Hplus & Hpct & _).
    cbn [app map percent_decode]; rewrite Hplus, Hpct, IH; reflexivity.
  - destruct (N.eqb_spec b (chr " ")) as [->|Hsp].
    + cbn [app map]; rewrite N.eqb_refl.
      cbn [percent_decode]; change (chr " " =? chr "%") with false; cbv iota.
      rewrite IH; reflexivity.
    + unfold percent_encode_byte.
      destruct (hex_digit_value (b / 0x10)) as (Hv1 & Hp1 & _); [nlia|].
      destruct (hex_digit_value (b mod 0x10)) as (Hv2 & Hp2 & _); [nlia|].
      cbn [app map]; rewrite Hp1, Hp2.
      change (chr "%" =? chr "+") with false; cbv iota.
      cbn [percent_decode]; rewrite N.eqb_refl, Hv1, Hv2, IH.
      f_equal; nlia.
Qed.

Lemma utf8_encode_bytes (cp : N) :
  cp < 0x110000 -> Forall (fun b => b < 256) (utf8_encode cp).
Proof.
  intros H; unfold utf8_encode; cbv zeta.
  destruct (N.ltb_spec cp 0x80); [repeat constructor; lia|].
  destruct (N.ltb_spec cp 0x800); [repeat constructor; nlia|].
  destruct (N.ltb_spec cp 0x10000); repeat constructor; nlia.
Qed.

Lemma utf8_bytes_bytes (s : jsstring) :
  well_formed s = true -> Forall (fun b => b < 256) (utf8_bytes s).
Proof.
  intros H; apply scalar_values_scalar in H; unfold utf8_bytes.
  induction H as [|cp cps Hcp _ IH]; [constructor|].
  cbn [flat_map]; apply Forall_app; split; [|exact IH].
  apply utf8_encode_bytes; apply is_scalar_range in Hcp; lia.
Qed.

(** Decoding the text written for a well-formed string gives the string
    back. *)
Lemma form_decode_encode (s : jsstring) :
  well_formed s = true -> form_decode (form_encode s) = s.
Proof.
  intros H; unfold form_decode, form_encode.
  rewrite <- (app_nil_r (flat_map form_encode_byte (utf8_bytes s))).
  rewrite percent_decode_form by (apply utf8_bytes_bytes; exact H).
  cbn [map percent_decode]; rewrite app_nil_r.
  unfold utf8_bytes.
  rewrite utf8_decode_encoded by (apply scalar_values_scalar; exact H).
  apply utf16_encode_scalar_values; exact H.
Qed.

Lemma form_encode_byte_text (b : N) :
  b < 256 -> forallb form_text (form_encode_byte b) = true.
Proof.
  intros H; unfold form_encode_byte.
  destruct (form_safe b) eqn:Hs.
  - apply form_safe_plain in Hs as (_ & _ & Ha & He & Hq & Hlt).
    cbn [forallb]; unfold form_text; rewrite Ha, He, Hq.
    apply N.ltb_lt in Hlt; rewrite Hlt; reflexivity.
  - destruct (b =? chr " "); [reflexivity|].
    unfold percent_encode_byte.
    assert (Hd : forall n, n < 16 -> form_text (hex_digit n) = true).
    { intros n Hn.
      assert (Hm : (N.to_nat n < 16)%nat) by lia.
      rewrite <- (N2Nat.id n); revert Hm; generalize (N.to_nat n); intros m Hm.
      do 16 (destruct m as [|m]; [reflexivity|]).
      exfalso; lia. }
    cbn [forallb]; rewrite !Hd by nlia; reflexivity.
Qed.

Lemma form_encode_text (s : jsstring) :
  well_formed s = true -> forallb form_text (form_encode s) = true.
Proof.
  intros H; apply utf8_bytes_bytes in H; unfold form_encode.
  induction H as [|b bs Hb _ IH]; [reflexivity|].
  cbn [flat_map]; rewrite forallb_app, IH, form_encode_byte_text by exact Hb.
  reflexivity.
Qed.

Lemma utf8_bytes_ascii (s : jsstring) :
  Forall (fun c => c < 0x80) s -> utf8_bytes s = s.
Proof.
  unfold utf8_bytes; induction 1 as [|c s Hc _ IH]; [reflexivity|].
  rewrite scalar_values_one.
  - cbn [flat_map]; rewrite IH; unfold utf8_encode; cbv zeta.
    apply N.ltb_lt in Hc; rewrite Hc; reflexivity.
  - unfold is_high_surrogate.
    destruct (N.leb_spec 0xD800 c); [lia | reflexivity].
  - unfold is_low_surrogate.
    destruct (N.leb_spec 0xDC00 c); [lia | reflexivity].
Qed.

Lemma form_text_facts (s : jsstring) :
  forallb form_text s = true ->
  Forall (fun c => (c =? chr "&") = false) s
  /\ Forall (fun c => (c =? chr "=") = false) s
  /\ Forall (fun c => (c =? chr "?") = false) s
  /\ Forall (fun c => c < 0x80) s.
Proof.
  intros H; rewrite forallb_forall in H.
  repeat split; apply Forall_forall; intros c Hc; specialize (H c Hc);
    unfold form_text in H;
    repeat (apply andb_true_iff in H as [H ?]);
    try (apply negb_true_iff; assumption); apply N.ltb_lt; assumption.
Qed.

Lemma toString_pieces (pairs : list (jsstring * jsstring)) :
  URLSearchParams_toString pairs = join [chr "&"] (map form_piece pairs).
Proof.
  unfold URLSearchParams_toString; f_equal.
  apply map_ext; intros [n v]; reflexivity.
Qed.

Lemma form_pair_piece (nv : jsstring * jsstring) :
  well_formed (fst nv) = true -> well_formed (snd nv) = true ->
  form_pair (form_piece nv) = [nv].
Proof.
  destruct nv as [n v]; cbn [fst snd]; intros Hn Hv.
  pose proof (form_text_facts _ (form_encode_text n Hn)) as (_ & He & _).
  unfold form_pair, form_piece; cbn [fst snd].
  rewrite (cut_at_found _ _ _ He), !form_decode_encode by assumption.
  destruct (form_encode n); reflexivity.
Qed.

Lemma split_bytes_join (pieces : list (list N)) :
  pieces <> [] ->
  Forall (Forall (fun b => (b =? chr "&") = false)) pieces ->
  split_bytes (chr "&") [] (join [chr "&"] pieces) = pieces.
Proof.
  intros Hne H; induction H as [|p rest Hp Hrest IH]; [congruence|].
  destruct rest as [|p' rest].
  - cbn [join]; rewrite split_bytes_last by exact Hp; reflexivity.
  - change (join [chr "&"] (p :: p' :: rest))
      with (p ++ chr "&" :: join [chr "&"] (p' :: rest)).
    rewrite split_bytes_piece by exact Hp.
    rewrite IH by discriminate; reflexivity.
Qed.

Lemma form_piece_text (nv : jsstring * jsstring) :
  well_formed (fst nv) = true -> well_formed (snd nv) = true ->
  Forall (fun b => (b =? chr "&") = false) (form_piece nv)
  /\ Forall (fun b => (b =? chr "?") = false) (form_piece nv)
  /\ Forall (fun b => b < 0x80) (form_piece nv).
Proof.
  intros Hn Hv.
  pose proof (form_text_facts _ (form_encode_text _ Hn)) as (Ha & _ & Hq & Hl).
  pose proof (form_text_facts _ (form_encode_text _ Hv)) as (Ha' & _ & Hq' & Hl').
  unfold form_piece; repeat split; apply Forall_app; split; auto;
    constructor; auto; reflexivity.
Qed.

Lemma join_Forall (P : char -> Prop) (sep : jsstring) (parts : list jsstring) :
  Forall P sep -> Forall (Forall P) parts -> Forall P (join sep parts).
Proof.
  intros Hsep H; induction H as [|p rest Hp Hrest IH]; [constructor|].
  destruct rest as [|p' rest]; [exact Hp|].
  change (join sep (p :: p' :: rest)) with (p ++ sep ++ join sep (p' :: rest)).
  repeat (apply Forall_app; split); auto.
Qed.

(** Parsing what the serializer wrote gives the pairs back. *)
Lemma URLSearchParams_toString_parse (pairs : list (jsstring * jsstring)) :
  Forall (fun nv => well_formed (fst nv) = true /\ well_formed (snd nv) = true) pairs ->
  URLSearchParams (URLSearchParams_toString pairs) = pairs
  /\ Forall (fun c => (c =? chr "?") = false) (URLSearchParams_toString pairs)
  /\ (URLSearchParams_toString pairs = [] <-> pairs = []).
Proof.
  intros H; rewrite toString_pieces.
  assert (Hpieces : Forall (fun p => Forall (fun b => (b =? chr "&") = false) p
                                     /\ Forall (fun b => (b =? chr "?") = false) p
                                     /\ Forall (fun b => b < 0x80) p)
                      (map form_piece pairs)).
  { apply Forall_map; revert H; apply Forall_impl; intros nv [Hn Hv].
    apply form_piece_text; assumption. }
  assert (Hq : Forall (fun c => (c =? chr "?") = false)
                 (join [chr "&"] (map form_piece pairs))).
  { apply join_Forall; [repeat constructor|].
    revert Hpieces; apply Forall_impl; tauto. }
  assert (Hascii : Forall (fun c => c < 0x80) (join [chr "&"] (map form_piece pairs))).
  { apply join_Forall; [repeat constructor; reflexivity|].
    revert Hpieces; apply Forall_impl; tauto. }
  split; [|split; [exact Hq|]].
  - destruct pairs as [|nv pairs]; [reflexivity|].
    unfold URLSearchParams.
    destruct (join [chr "&"] (map form_piece (nv :: pairs))) as [|c t] eqn:E.
    { exfalso; cbn [map] in E.
      destruct (map form_piece pairs); cbn [join] in E;
        unfold form_piece in E; destruct (form_encode (fst nv)); discriminate. }
    inversion Hq as [|? ? Hc _]; subst; rewrite Hc, <- E.
    rewrite <- E in Hascii.
    rewrite utf8_bytes_ascii by exact Hascii.
    rewrite split_bytes_join.
    + clear -H; induction H as [|nv' pairs' [Hn Hv] _ IH]; [reflexivity|].
      cbn [map flat_map]; rewrite form_pair_piece, IH by assumption; reflexivity.
    + discriminate.
    + revert Hpieces; apply Forall_impl; tauto.
  - split; [|intros ->; reflexivity].
    destruct pairs as [|nv pairs]; [reflexivity|]; intros E; exfalso.
    cbn [map] in E.
    destruct (map form_piece pairs); cbn [join] in E;
      unfold form_piece in E; destruct (form_encode (fst nv)); discriminate.
Qed.

End FormCoding.

Section Sanitize.
Import TikTok.

(** X21. [sanitizeTikTokUrl]: when the HEAD request fails the error is
    'Invalid TikTok URL'; a response that lands on [vm.tiktok.com] or
    [vt.tiktok.com] gives the landing url unchanged, query included; on
    any other host the link returned is the landing url with its query
    replaced: read back with [URLSearchParams], the new query holds the
    [id] parameters of the old one, in their order and with their values,
    and nothing else, and it is empty (no [?] at all) or a [?] followed by
    text. *)
Theorem sanitizeTikTokUrl_keeps_the_id_parameters
  (head : jsstring -> HeadOutcome) (link : jsstring) :
  (head link = HeadFailed ->
   sanitizeTikTokUrl head link = Throw (js "Invalid TikTok URL"))
  /\ (forall location, head link = Landed location ->
        loc_hostname location = js "vm.tiktok.com" \/
        loc_hostname location = js "vt.tiktok.com" ->
        sanitizeTikTokUrl head link = Ok (loc_url location))
  /\ (forall location, head link = Landed location ->
        loc_hostname location <> js "vm.tiktok.com" ->
        loc_hostname location <> js "vt.tiktok.com" ->
        exists query,
          sanitizeTikTokUrl head link =
            Ok (loc_stem location ++ query ++ loc_fragment location)
          /\ URLSearchParams query =
             filter (fun nv => str_eqb (fst nv) (js "id"))
               (URLSearchParams (loc_search location))
          /\ (query = [] \/ exists q, query = js "?" ++ q /\ q <> [])).
Proof.
  split; [|split].
  - intros H; unfold sanitizeTikTokUrl; rewrite H; reflexivity.
  - intros location H Hhost; unfold sanitizeTikTokUrl; rewrite H.
    destruct Hhost as [-> | ->]; reflexivity.
  - intros location H Hvm Hvt; unfold sanitizeTikTokUrl; rewrite H.
    replace (str_eqb (loc_hostname location) (js "vm.tiktok.com")) with false.
    2:{ symmetry; apply not_true_iff_false; intros E; apply str_eqb_eq in E; auto. }
    replace (str_eqb (loc_hostname location) (js "vt.tiktok.com")) with false.
    2:{ symmetry; apply not_true_iff_false; intros E; apply str_eqb_eq in E; auto. }
    cbn [orb]; cbv zeta.
    rewrite (filter_ext _ (fun nv => str_eqb (fst nv) (js "id"))).
    2:{ intros [k v]; cbn [existsb fst]; apply orb_false_r. }
    set (kept := filter _ (URLSearchParams (loc_search location))).
    assert (Hkept : Forall (fun nv => well_formed (fst nv) = true /\
                                      well_formed (snd nv) = true) kept).
    { apply Forall_forall; intros nv Hnv; apply filter_In in Hnv as [Hnv _].
      pose proof (URLSearchParams_well_formed (loc_search location)) as Hall.
      rewrite Forall_forall in Hall; apply Hall; exact Hnv. }
    destruct (URLSearchParams_toString_parse kept Hkept) as (Hparse & Hq & Hempty).
    eexists; split; [reflexivity|].
    destruct (URLSearchParams_toString kept) as [|c t] eqn:E.
    + cbn [nonempty]; split; [|left; reflexivity].
      symmetry; apply Hempty; reflexivity.
    + cbn [nonempty]; split; [|right; exists (c :: t); split; [reflexivity|discriminate]].
      rewrite <- Hparse.
      change (js "?" ++ c :: t) with (chr "?" :: c :: t).
      unfold URLSearchParams at 1; rewrite N.eqb_refl.
      unfold URLSearchParams.
      inversion Hq as [|? ? Hc _]; subst; rewrite Hc; reflexivity.
Qed.

End Sanitize.


(* ================================================================== *)
(** * The fields read off a MIME type and off a [/video/] link *)
(* ================================================================== *)

Section MimeParts.
Import YouTube.

Lemma upTo_app (c : char) (a t : jsstring) :
  without c a = true -> upTo c (a ++ c :: t) = a /\ upTo c a = a.
Proof.
  unfold without; induction a as [|d a IH]; cbn [forallb app upTo].
  - rewrite N.eqb_refl; auto.
  - intros H; apply andb_true_iff in H as [Hd Ha]; apply negb_true_iff in Hd.
    rewrite Hd; destruct (IH Ha) as [-> ->]; auto.
Qed.

Lemma split_go_char (c : char) (cur a : jsstring) :
  without c a = true -> split_go [c] 0 cur a = [rev cur ++ a].
Proof.
  unfold without; revert cur; induction a as [|d a IH]; intros cur H.
  - cbn [split_go]; rewrite app_nil_r; reflexivity.
  - cbn [forallb] in H; apply andb_true_iff in H as [Hd Ha]; apply negb_true_iff in Hd.
    cbn [split_go startsWith]; rewrite Hd; cbn [andb].
    rewrite (IH _ Ha); cbn [rev]; rewrite <- app_assoc; reflexivity.
Qed.

Lemma split_go_char_cut (c : char) (cur a b : jsstring) :
  without c a = true ->
  split_go [c] 0 cur (a ++ c :: b) = (rev cur ++ a) :: split_go [c] 0 [] b.
Proof.
  unfold without; revert cur; induction a as [|d a IH]; intros cur H.
  - cbn [app split_go startsWith]; rewrite N.eqb_refl, app_nil_r; reflexivity.
  - cbn [forallb] in H; apply andb_true_iff in H as [Hd Ha]; apply negb_true_iff in Hd.
    cbn [app split_go startsWith]; rewrite Hd; cbn [andb].
    rewrite (IH _ Ha); cbn [rev]; rewrite <- app_assoc; reflexivity.
Qed.

Lemma getMimeType_parts (T S tail : jsstring) :
  without (chr "/") T = true -> without (chr ";") T = true ->
  without (chr "/") S = true -> without (chr ";") S = true ->
  tail = [] \/ (exists p, tail = chr ";" :: p) ->
  getMimeType (Some (T ++ js "/" ++ S ++ tail)) =
  (T ++ js "/" ++ S, if str_eqb T (js "audio") then audio else video)
  /\ split (js "/") (T ++ js "/" ++ S) = [T; S].
Proof.
  intros HT1 HT2 HS1 HS2 Htail.
  assert (Hsplit : split (js "/") (T ++ js "/" ++ S) = [T; S]).
  { change (js "/") with [chr "/"]; unfold split; cbn [app].
    rewrite split_go_char_cut by exact HT1.
    rewrite split_go_char by exact HS1; reflexivity. }
  split; [|exact Hsplit].
  unfold getMimeType.
  change (js ";") with [chr ";"]; rewrite hd_split_upTo.
  assert (Hcut : upTo (chr ";") (T ++ js "/" ++ S ++ tail) = T ++ js "/" ++ S).
  { assert (Hw : without (chr ";") (T ++ js "/" ++ S) = true).
    { unfold without in *; rewrite !forallb_app.
      apply andb_true_iff; split; [exact HT2|].
      apply andb_true_iff; split; [reflexivity|exact HS2]. }
    destruct Htail as [->|(p & ->)].
    - rewrite app_nil_r; apply (upTo_app _ _ [] Hw).
    - replace (T ++ js "/" ++ S ++ chr ";" :: p)
        with ((T ++ js "/" ++ S) ++ chr ";" :: p)
        by (rewrite <- !app_assoc; reflexivity).
      apply (upTo_app _ _ p Hw). }
  rewrite Hcut, Hsplit; reflexivity.
Qed.

(** X22. A descriptor whose MIME type reads [T/S] or [T/S;parameters],
    with no [/] and no [;] in [T] and [S], and that ends with a url, is
    normalised to a record whose [mimeType] is [T/S] without the
    parameters, whose [format] is [S] (or 'unknown' when [S] is empty),
    whose [type] is audio exactly when [T] is 'audio', whose [url] is the
    final url and whose [quality] is the quality label, or the quality
    where there is no label. *)
Theorem toVideoFormat_reads_the_mime_type (d : FormatDescriptor)
  (T S tail : jsstring) :
  without (chr "/") T = true -> without (chr ";") T = true ->
  without (chr "/") S = true -> without (chr ";") S = true ->
  tail = [] \/ (exists p, tail = chr ";" :: p) ->
  d_mimeType d = Some (T ++ js "/" ++ S ++ tail) ->
  finalUrl d <> [] ->
  exists f,
    toVideoFormat d = Some f
    /\ mimeType f = T ++ js "/" ++ S
    /\ format f = (if nonempty S then S else js "unknown")
    /\ type f = (if str_eqb T (js "audio") then audio else video)
    /\ url f = finalUrl d
    /\ quality f = or_else (d_qualityLabel d) (d_quality d).
Proof.
  intros HT1 HT2 HS1 HS2 Htail Hm Hu.
  destruct (getMimeType_parts T S tail HT1 HT2 HS1 HS2 Htail) as [Hg Hsplit].
  apply nonempty_true in Hu.
  unfold toVideoFormat; rewrite Hu, Hm, Hg.
  eexists; split; [reflexivity|]; cbn.
  rewrite Hsplit; cbn [nth_error or_else].
  repeat split.
Qed.

End MimeParts.

Section VideoSegment.
Import TikTok.

Lemma startsWith_within (p u v : jsstring) :
  startsWith p (u ++ v) = true -> (List.length p <= List.length u)%nat ->
  startsWith p u = true.
Proof.
  revert u; induction p as [|a p IH]; intros u H Hlen; [reflexivity|].
  destruct u as [|d u]; cbn [List.length] in Hlen; [lia|].
  cbn [app startsWith] in *.
  apply andb_true_iff in H as [Ha Hp]; rewrite Ha; cbn [andb].
  apply IH; [exact Hp|lia].
Qed.

Lemma startsWith_before (c : char) (p u v : jsstring) :
  without c p = true -> startsWith p (u ++ c :: v) = true ->
  startsWith p u = true.
Proof.
  unfold without; revert u; induction p as [|a p IH]; intros u Hp H; [reflexivity|].
  cbn [forallb] in Hp; apply andb_true_iff in Hp as [Ha Hp].
  apply negb_true_iff in Ha.
  destruct u as [|d u]; cbn [app startsWith] in *.
  - apply andb_true_iff in H as [H _].
    rewrite N.eqb_sym in H; rewrite H in Ha; discriminate Ha.
  - apply andb_true_iff in H as [Hd H]; rewrite Hd; cbn [andb].
    apply (IH _ Hp H).
Qed.

Lemma split_go_skip (sep u cur b : jsstring) :
  split_go sep (List.length u) cur (u ++ b) = split_go sep 0 cur b.
Proof.
  induction u as [|c u IH]; [reflexivity|].
  cbn [List.length app split_go]; exact IH.
Qed.

Lemma startsWith_self (sep b : jsstring) : startsWith sep (sep ++ b) = true.
Proof.
  induction sep as [|c sep IH]; [reflexivity|].
  cbn [app startsWith]; rewrite N.eqb_refl; exact IH.
Qed.

(** The first occurrence of the separator ends the first piece. *)
Lemma split_go_first (sep a b cur : jsstring) :
  sep <> [] ->
  includes sep (a ++ removelast sep) = false ->
  split_go sep 0 cur (a ++ sep ++ b) = (rev cur ++ a) :: split_go sep 0 [] b.
Proof.
  intros Hsep; revert cur; induction a as [|c a IH]; intros cur H.
  - destruct sep as [|s sep]; [contradiction|].
    cbn [app]; cbn [split_go].
    pose proof (startsWith_self (s :: sep) b) as Hs; cbn [app] in Hs; rewrite Hs.
    rewrite app_nil_r; cbn [List.length Nat.pred].
    rewrite split_go_skip; reflexivity.
  - cbn [app includes] in H; apply orb_false_iff in H as [H1 H2].
    cbn [app split_go].
    assert (Hno : startsWith sep (c :: a ++ sep ++ b) = false).
    { destruct (startsWith sep (c :: a ++ sep ++ b)) eqn:E; [|reflexivity].
      rewrite <- H1.
      assert (Hcut : sep ++ b = removelast sep ++ (last sep 0%N :: b)).
      { rewrite (app_removelast_last 0%N Hsep) at 1.
        rewrite <- app_assoc; reflexivity. }
      rewrite Hcut in E.
      change (c :: a ++ removelast sep ++ last sep 0%N :: b)
        with ((c :: a) ++ removelast sep ++ last sep 0%N :: b) in E.
      rewrite app_assoc in E.
      symmetry; apply (startsWith_within _ _ _ E).
      pose proof (f_equal (@List.length char) (app_removelast_last 0%N Hsep)) as Hl.
      rewrite length_app in Hl; cbn [List.length] in Hl.
      cbn [app List.length]; rewrite length_app; unfold jsstring, char in *; lia. }
    rewrite Hno, (IH _ H2); cbn [rev]; rewrite <- app_assoc; reflexivity.
Qed.

Lemma split_go_nonempty (sep : jsstring) (skip : nat) (cur s : jsstring) :
  split_go sep skip cur s <> [].
Proof.
  revert skip cur; induction s as [|c s IH]; intros skip cur;
    cbn [split_go]; [discriminate|].
  destruct skip; [|apply IH].
  destruct (startsWith sep (c :: s)); [discriminate|apply IH].
Qed.

Lemma hd_split_go_prefix (sep : jsstring) (skip : nat) (cur s : jsstring) :
  skip = O -> exists r, hd [] (split_go sep skip cur s) = rev cur ++ r
                        /\ (s = [] -> r = []).
Proof.
  intros ->; revert cur; induction s as [|c s IH]; intros cur.
  - exists []; cbn [split_go hd]; rewrite app_nil_r; auto.
  - cbn [split_go]; destruct (startsWith sep (c :: s)).
    + exists []; cbn [hd]; rewrite app_nil_r; split; [reflexivity|discriminate].
    + destruct (IH (c :: cur)) as (r & Hr & _).
      exists (c :: r); rewrite Hr; cbn [rev]; rewrite <- app_assoc.
      split; [reflexivity|discriminate].
Qed.

(** The piece after the separator, when the separator does not occur in
    [a] and [a] is followed by nothing or by [c], a code unit the separator
    does not have: the piece starts with [a], and what follows starts with
    [c]. *)
Lemma hd_split_go_then (c : char) (sep a tail cur : jsstring) :
  without c sep = true -> sep <> [] ->
  includes sep a = false ->
  tail = [] \/ (exists q, tail = c :: q) ->
  exists r, hd [] (split_go sep 0 cur (a ++ tail)) = rev cur ++ a ++ r
            /\ (r = [] \/ exists q, r = c :: q).
Proof.
  intros Hc Hsep; revert cur; induction a as [|d a IH]; intros cur Ha Htail.
  - cbn [app]; destruct Htail as [->|(q & ->)].
    + exists []; cbn [split_go hd app]; rewrite app_nil_r; auto.
    + cbn [split_go].
      assert (Hno : startsWith sep (c :: q) = false).
      { destruct (startsWith sep (c :: q)) eqn:E; [|reflexivity].
        pose proof (startsWith_before c sep [] q Hc E) as H0.
        destruct sep; [contradiction|discriminate H0]. }
      rewrite Hno.
      destruct (hd_split_go_prefix sep 0 (c :: cur) q eq_refl) as (r & Hr & _).
      exists (c :: r); rewrite Hr; cbn [rev]; rewrite <- app_assoc.
      split; [reflexivity|right; eauto].
  - cbn [includes] in Ha; apply orb_false_iff in Ha as [H1 H2].
    cbn [app split_go].
    assert (Hno : startsWith sep (d :: a ++ tail) = false).
    { destruct (startsWith sep (d :: a ++ tail)) eqn:E; [|reflexivity].
      rewrite <- H1; destruct Htail as [->|(q & ->)].
      - rewrite app_nil_r in E; symmetry; exact E.
      - symmetry; apply (startsWith_before c sep (d :: a) q Hc E). }
    rewrite Hno.
    destruct (IH (d :: cur) H2 Htail) as (r & Hr & Hshape).
    exists r; rewrite Hr; cbn [rev]; rewrite <- app_assoc; auto.
Qed.

Lemma videoIdOf_segment (stem id tail : jsstring) :
  includes (js "/video/") (stem ++ js "/video") = false ->
  includes (js "/video/") id = false ->
  without (chr "?") id = true ->
  tail = [] \/ (exists q, tail = chr "?" :: q) ->
  videoIdOf (stem ++ js "/video/" ++ id ++ tail) = Some id.
Proof.
  intros Hstem Hid Hq Htail.
  unfold videoIdOf.
  change (split (js "/video/") (stem ++ js "/video/" ++ id ++ tail))
    with (split_go (js "/video/") 0 [] (stem ++ js "/video/" ++ id ++ tail)).
  rewrite split_go_first by (discriminate || exact Hstem).
  destruct (split_go (js "/video/") 0 [] (id ++ tail)) as [|piece more] eqn:E.
  { exfalso; exact (split_go_nonempty _ _ _ _ E). }
  cbn [nth_error]; f_equal.
  assert (Hsep : js "/video/" <> []) by discriminate.
  destruct (hd_split_go_then (chr "?") (js "/video/") id tail []
              eq_refl Hsep Hid Htail) as (r & Hr & Hshape).
  rewrite E in Hr; cbn [hd rev app] in Hr; subst piece.
  change (js "?") with [chr "?"]; rewrite hd_split_upTo.
  destruct Hshape as [->|(q & ->)].
  - rewrite app_nil_r; apply (upTo_app _ _ [] Hq).
  - apply (upTo_app _ _ q Hq).
Qed.

(** X23. On a link [stem/video/id] or [stem/video/id?query], where
    [/video/] occurs neither before this segment nor inside [id] and [id]
    has no [?], the video id the TikTok strategies read is [id]: the embed
    url is [https://www.tiktok.com/embed/v2/id], there is none when [id]
    is empty, and the API strategy depends on the network only through the
    answer for the feed url of [id]; with an empty [id] it finds nothing. *)
Theorem video_segment_names_the_embed_and_api_urls
  (stem id tail : jsstring) :
  includes (js "/video/") (stem ++ js "/video") = false ->
  includes (js "/video/") id = false ->
  without (chr "?") id = true ->
  tail = [] \/ (exists q, tail = chr "?" :: q) ->
  let link := stem ++ js "/video/" ++ id ++ tail in
  videoIdOf link = Some id
  /\ getEmbedUrl link =
     (if nonempty id then Some (js "https://www.tiktok.com/embed/v2/" ++ id)
      else None)
  /\ (forall net net' : Net,
        net (apiUrlOf id) = net' (apiUrlOf id) ->
        extractFromApi net link = extractFromApi net' link)
  /\ (id = [] -> forall net : Net, extractFromApi net link = []).
Proof.
  intros Hstem Hid Hq Htail link.
  pose proof (videoIdOf_segment stem id tail Hstem Hid Hq Htail) as Hv.
  fold link in Hv.
  split; [exact Hv|].
  split; [unfold getEmbedUrl; rewrite Hv; reflexivity|].
  split.
  - intros net net' Hnet; unfold extractFromApi; rewrite Hv, Hnet; reflexivity.
  - intros -> net; unfold extractFromApi; rewrite Hv; reflexivity.
Qed.

End VideoSegment.


(* ================================================================== *)
(** * Runs on concrete inputs *)
(* ================================================================== *)

Import YouTube TikTok.

(** C2, on a TikTok request with [info: true]. *)
Lemma info_clears_after_validation_run :
  Request.info (setInfo (requestFor tiktokUrl) (val true)) = val true
  /\ (forall r,
        extractVideo (fixedEnv nothingFound twoWatermarks)
          (setInfo (requestFor tiktokUrl) (val true)) = Ok r ->
        formats r = [] /\ downloadUrl r = None)
  /\ is_ok (extractVideo (fixedEnv nothingFound twoWatermarks)
              (setInfo (requestFor tiktokUrl) (val true))) = true.
Proof.
  split; [reflexivity|]. split.
  - exact (proj1 (proj2 (info_clears_after_validation
                           (fixedEnv nothingFound twoWatermarks)
                           (setInfo (requestFor tiktokUrl) (val true)) eq_refl))).
  - vm_compute; reflexivity.
Defined.

(** C3, the claim as stated fails: the main page answers 404 and the whole
    request fails, though that fetch is not the last strategy and both
    later strategies would have found formats; and when the API, the last
    strategy, answers 500, [fetchTikTokInfo] still returns. *)
Lemma main_page_failure_is_fatal :
  fetchTikTokInfo mainPageGone tiktokUrl =
    Throw (js "Failed to fetch TikTok info: HTTP error! status: 404")
  /\ map url (extractFromEmbed mainPageGone
                (js "https://www.tiktok.com/embed/v2/7000000000000000000")) =
     [js "https://v16.tiktokcdn.com/embed.mp4"]
  /\ map url (extractFromApi mainPageGone tiktokUrl) =
     [js "https://api.tiktokv.com/play"; js "https://api.tiktokv.com/download"]
  /\ option_map info_formats
       (match fetchTikTokInfo apiDown tiktokUrl with
        | Ok info => Some info
        | Throw _ => None
        end) = Some [].
Proof. repeat split; vm_compute; reflexivity. Qed.

(** C4, the claim as stated fails: on a url with a query string of its
    own the cipher is cut at the [&] inside [U]; a [+] in [S] is read as a
    space; a [%] in [U] is decoded, twice; an empty [S] adds no
    signature and an empty [U] gives the empty string; an unpaired
    surrogate in [U] comes back as U+FFFD. *)
Lemma decodeCipher_cuts_at_ampersand :
  decodeCipher (js "url=" ++ js "https://a.example/v?x=1&y=2"
                ++ js "&sp=signature&s=" ++ js "AB") =
    js "https://a.example/v?x=1&signature=AB"
  /\ encodeURIComponent (js "AB") = Some (js "AB")
  /\ decodeCipher (js "url=" ++ js "https://a.example/v?x=1&y=2"
                   ++ js "&sp=signature&s=" ++ js "AB") <>
     js "https://a.example/v?x=1&y=2" ++ js "&signature=" ++ js "AB"
  /\ decodeCipher (js "url=" ++ js "https://a.example/v?x=1&y=2") =
     js "https://a.example/v?x=1"
  /\ (decodeCipher (js "url=" ++ js "U" ++ js "&sp=signature&s=" ++ js "a+b") =
        js "U&signature=a%20b"
      /\ encodeURIComponent (js "a+b") = Some (js "a%2Bb"))
  /\ decodeCipher (js "url=" ++ js "%2541" ++ js "&sp=signature&s=" ++ js "AB") =
     js "A&signature=AB"
  /\ decodeCipher (js "url=" ++ js "100%" ++ js "&sp=signature&s=" ++ js "AB") = []
  /\ decodeCipher (js "url=" ++ js "U" ++ js "&sp=signature&s=" ++ []) = js "U"
  /\ decodeCipher (js "url=" ++ [] ++ js "&sp=signature&s=" ++ js "AB") = []
  /\ decodeCipher (js "url=" ++ [0xD800%N]) = [0xFFFD%N].
Proof. repeat split; vm_compute; (reflexivity || discriminate). Qed.

(** C4, on a plain url and signature. *)
Lemma decodeCipher_round_trip_run :
  plain (js "https://a.example/v") = true /\ plain (js "A=B/C") = true
  /\ js "https://a.example/v" <> [] /\ js "A=B/C" <> []
  /\ (exists e, encodeURIComponent (js "A=B/C") = Some e /\
                decodeCipher (js "url=" ++ js "https://a.example/v"
                              ++ js "&sp=signature&s=" ++ js "A=B/C") =
                js "https://a.example/v" ++ js "&signature=" ++ e)
  /\ decodeCipher (js "url=" ++ js "https://a.example/v") = js "https://a.example/v".
Proof.
  assert (HU : plain (js "https://a.example/v") = true) by reflexivity.
  assert (HS : plain (js "A=B/C") = true) by reflexivity.
  assert (HUne : js "https://a.example/v" <> []) by discriminate.
  assert (HSne : js "A=B/C" <> []) by discriminate.
  pose proof (decodeCipher_round_trip _ _ HU HS) as (H1 & _ & _ & H4).
  repeat split; try assumption.
  exact (H1 HUne HSne).
Defined.

(** C5, the claim as stated fails on YouTube: two descriptors with one url
    give two records. *)
Lemma youtube_keeps_both_records_of_one_url :
  map (fun f => (quality f, url f))
    (extractFormatsFromPlayerResponse sharedUrlResponse) =
  [(js "1080p", js "https://r1.googlevideo.com/videoplayback?id=1");
   (js "720p", js "https://r1.googlevideo.com/videoplayback?id=1")].
Proof. vm_compute; reflexivity. Qed.

(** C5, on a TikTok page that names one url twice. *)
Lemma tiktok_formats_deduplicated_run :
  onlyPage tiktokUrl 200 (mkBody repeatingHtml None) tiktokUrl =
    Response 200 (mkBody repeatingHtml None)
  /\ ok 200 = true
  /\ exists info,
       fetchTikTokInfo (onlyPage tiktokUrl 200 (mkBody repeatingHtml None))
         tiktokUrl = Ok info
       /\ NoDup (map url (info_formats info)).
Proof.
  split; [reflexivity|]. split; [reflexivity|].
  destruct (tiktok_formats_deduplicated
              (onlyPage tiktokUrl 200 (mkBody repeatingHtml None)) tiktokUrl
              200 (mkBody repeatingHtml None) eq_refl eq_refl)
    as (info & Hinfo & Hnodup & _).
  exists info; split; assumption.
Defined.




(** C3, on the network whose API answers 500. *)
Lemma fetch_failure_is_fatal_on_the_main_page_only_run :
  failed (apiDown tiktokUrl) = false
  /\ failed (apiDown (apiUrlOf (js "7000000000000000000"))) = true
  /\ is_ok (fetchTikTokInfo apiDown tiktokUrl) = true
  /\ extractFromApi apiDown tiktokUrl = []
  /\ extractTikTokVideo (fun u => Ok u) apiDown tiktokUrl =
     Throw (js "Failed to extract TikTok video: No video formats found").
Proof.
  pose proof (fetch_failure_is_fatal_on_the_main_page_only apiDown tiktokUrl)
    as (Hok & _ & _ & _ & Hapi & _ & Hnone).
  split; [reflexivity|]. split; [reflexivity|]. split; [|split].
  - rewrite Hok; reflexivity.
  - exact (Hapi (js "7000000000000000000") eq_refl eq_refl).
  - destruct (fetchTikTokInfo apiDown tiktokUrl) as [info|m] eqn:E;
      [|vm_compute in E; discriminate].
    refine (Hnone (fun u => Ok u) tiktokUrl info eq_refl eq_refl _).
    vm_compute in E; injection E as <-; reflexivity.
Defined.

(** C8, on three YouTube formats, through [extractVideo] and through the
    [/formats] handler. *)
Lemma returned_formats_are_valid_run :
  (exists r,
     extractVideo (fixedEnv threeResolutions nothingFound) (requestFor youtubeUrl) = Ok r
     /\ formats r <> []
     /\ Forall (fun f => url f <> [] /\ (type f = audio \/ type f = video)) (formats r))
  /\ (exists response,
        formatsHandler (fixedEnv threeResolutions nothingFound) (queryFor youtubeUrl) =
          Ok response
        /\ listed response <> []
        /\ Forall (fun f => url f <> [] /\ (type f = audio \/ type f = video))
             (listed response)).
Proof.
  pose proof (returned_formats_are_valid (fixedEnv threeResolutions nothingFound))
    as (Hextract & Hlist & _ & Hnonempty & _).
  split.
  - destruct (extractVideo (fixedEnv threeResolutions nothingFound)
                (requestFor youtubeUrl)) as [r|m] eqn:E;
      [|vm_compute in E; discriminate].
    exists r; split; [reflexivity|]. split.
    + exact (Hnonempty (requestFor youtubeUrl) youtubeUrl r eq_refl E eq_refl).
    + exact (Hextract (requestFor youtubeUrl) r E).
  - destruct (formatsHandler (fixedEnv threeResolutions nothingFound)
                (queryFor youtubeUrl)) as [response|m] eqn:E;
      [|vm_compute in E; discriminate].
    exists response; split; [reflexivity|].
    exact (Hlist (queryFor youtubeUrl) response E).
Defined.

(** C9, on a request without url and on a url of no supported platform. *)
Lemma extractVideo_failure_messages_run :
  extractVideo (fixedEnv threeResolutions nothingFound) (requestFor []) =
    Throw (js "URL is required")
  /\ extractVideo (fixedEnv threeResolutions nothingFound)
       (requestFor (js "https://example.com/x")) =
     Throw (js "Error extracting video: "
            ++ js "Unsupported platform. Currently supports: Youtube, Tiktok")
  /\ (exists u inner,
        Request.url (requestFor (js "https://example.com/x")) = Some u /\
        StageFailure (fixedEnv threeResolutions nothingFound)
          (paramsOf u (requestFor (js "https://example.com/x"))) inner).
Proof.
  pose proof (extractVideo_failure_messages (fixedEnv threeResolutions nothingFound)
                (requestFor [])) as [Hmissing _].
  pose proof (extractVideo_failure_messages (fixedEnv threeResolutions nothingFound)
                (requestFor (js "https://example.com/x"))) as [_ Hother].
  split; [exact (Hmissing (or_intror eq_refl))|].
  split; [vm_compute; reflexivity|].
  destruct (Hother _ eq_refl) as [[[H|H] _]|(u & inner & Hu & _ & _ & _ & Hstage)];
    [discriminate H | discriminate H | exists u, inner; auto].
Defined.


(* ================================================================== *)
(** * Further properties of the pipeline *)
(* ================================================================== *)

Section Further.
Variable env : Env.

(** X1. A url of no supported platform is rejected with an error that
    lists the supported platforms. *)
Theorem unsupported_platform_is_rejected (request : Request.t) (u : jsstring) :
  Request.url request = Some u -> u <> [] ->
  detectPlatform env u = unknown ->
  extractVideo env request =
  Throw (js "Error extracting video: "
         ++ js "Unsupported platform. Currently supports: "
         ++ getSupportedPlatforms env).
Proof.
  intros Hu Hne Hp; unfold extractVideo; rewrite Hu.
  destruct u as [|c u]; [congruence|].
  unfold extractVideoBody, perPlatform; cbn [Params.url paramsOf].
  rewrite Hp; reflexivity.
Qed.

(** X2. The quality filter is idempotent: filtering what it kept changes
    nothing. *)
Theorem filterQuality_idempotent (params : Params.t) (fs kept : list VideoFormat) :
  filterQuality env params fs = Ok kept ->
  filterQuality env params kept = Ok kept.
Proof.
  unfold filterQuality.
  destruct (_ && _); [|intros [= <-]; reflexivity].
  destruct (filter _ fs) as [|f l] eqn:E; [discriminate|].
  intros [= <-]; rewrite <- E.
  rewrite filter_and.
  erewrite filter_ext; [rewrite E; reflexivity|].
  intros a; apply andb_diag.
Qed.

End Further.

(** X3. Ranking again what a ranking returned is a no-op, for both
    comparators. *)
Theorem ranking_is_idempotent (l : list VideoFormat) :
  sort byQualityNumber (sort byQualityNumber l) = sort byQualityNumber l
  /\ sort byWatermarkThenSize (sort byWatermarkThenSize l) =
     sort byWatermarkThenSize l.
Proof.
  split.
  - apply (sort_sorted_id byQualityNumber resolutionOf above);
      [apply comes_after_byQualityNumber|].
    apply sort_sorted;
      [apply comes_after_byQualityNumber | apply above_asym | apply above_negtrans].
  - apply (sort_sorted_id byWatermarkThenSize watermarkRank cleanerOrLarger);
      [apply comes_after_byWatermarkThenSize|].
    apply sort_sorted;
      [apply comes_after_byWatermarkThenSize | apply cleanerOrLarger_asym
      | apply cleanerOrLarger_negtrans].
Qed.

(** X1, on a url of example.com. *)
Lemma unsupported_platform_is_rejected_run :
  Request.url (requestFor (js "https://example.com/x")) = Some (js "https://example.com/x")
  /\ js "https://example.com/x" <> []
  /\ detectPlatform (fixedEnv threeResolutions twoWatermarks)
       (js "https://example.com/x") = unknown
  /\ extractVideo (fixedEnv threeResolutions twoWatermarks)
       (requestFor (js "https://example.com/x")) =
     Throw (js "Error extracting video: "
            ++ js "Unsupported platform. Currently supports: "
            ++ getSupportedPlatforms (fixedEnv threeResolutions twoWatermarks)).
Proof.
  assert (Hne : js "https://example.com/x" <> []) by discriminate.
  split; [reflexivity|]. split; [exact Hne|]. split; [reflexivity|].
  exact (unsupported_platform_is_rejected (fixedEnv threeResolutions twoWatermarks)
           (requestFor (js "https://example.com/x")) (js "https://example.com/x")
           eq_refl Hne eq_refl).
Defined.

(** X2, on the quality token '1080' and three YouTube formats. *)
Lemma filterQuality_idempotent_run :
  filterQuality (fixedEnv threeResolutions twoWatermarks)
    (Params.make youtubeUrl None (Some (js "1080")) None None None)
    [mp4Video (js "360p") 0 (js "a"); mp4Video (js "1080p60") 0 (js "b")] =
    Ok [mp4Video (js "1080p60") 0 (js "b")]
  /\ filterQuality (fixedEnv threeResolutions twoWatermarks)
       (Params.make youtubeUrl None (Some (js "1080")) None None None)
       [mp4Video (js "1080p60") 0 (js "b")] =
     Ok [mp4Video (js "1080p60") 0 (js "b")].
Proof.
  assert (H : filterQuality (fixedEnv threeResolutions twoWatermarks)
                (Params.make youtubeUrl None (Some (js "1080")) None None None)
                [mp4Video (js "360p") 0 (js "a"); mp4Video (js "1080p60") 0 (js "b")] =
              Ok [mp4Video (js "1080p60") 0 (js "b")])
    by (vm_compute; reflexivity).
  split; [exact H|].
  exact (filterQuality_idempotent _ _ _ _ H).
Defined.

(** The whole path on a TikTok page that names one video url twice and a
    second one once: [extractVideo] and the [/formats] handler return the
    two urls once each. *)
Lemma tiktok_page_end_to_end :
  option_map (fun r => map url (formats r))
    (match extractVideo
             (overTikTok (onlyPage tiktokUrl 200 (mkBody repeatingHtml None))
                (fixedEnv nothingFound nothingFound))
             (requestFor tiktokUrl) with
     | Ok r => Some r
     | Throw _ => None
     end) =
  Some [js "https://v16.tiktokcdn.com/a.mp4"; js "https://v16.tiktokcdn.com/b.mp4"]
  /\ option_map (fun r => map url (listed r))
       (match formatsHandler
                (overTikTok (onlyPage tiktokUrl 200 (mkBody repeatingHtml None))
                   (fixedEnv nothingFound nothingFound))
                (queryFor tiktokUrl) with
        | Ok r => Some r
        | Throw _ => None
        end) =
     Some [js "https://v16.tiktokcdn.com/a.mp4"; js "https://v16.tiktokcdn.com/b.mp4"]
  /\ extractVideo (overTikTok mainPageGone (fixedEnv nothingFound nothingFound))
       (requestFor tiktokUrl) =
     Throw (js "Error extracting video: Failed to extract TikTok video: Failed to fetch TikTok info: HTTP error! status: 404").
Proof. repeat split; vm_compute; reflexivity. Qed.

(* ================================================================== *)
(** * Runs of the further properties *)
(* ================================================================== *)

(** X5, on a watch link with a time parameter. *)
Lemma extractVideoId_reads_an_id_run :
  extractVideoId watchLink = Ok sampleId
  /\ List.length sampleId = 11%nat
  /\ forallb idChar sampleId = true
  /\ exists before after,
       watchLink = before ++ sampleId ++ after /\
       (includes (js "youtube.com/") before = true \/
        includes (js "youtu.be/") before = true).
Proof.
  assert (H : extractVideoId watchLink = Ok sampleId) by (vm_compute; reflexivity).
  split; [exact H|].
  exact (extractVideoId_reads_an_id watchLink sampleId H).
Defined.

(** X6, on a link to another site that ends like a watch link. *)
Lemma extractVideoId_rejects_other_urls_run :
  includes (js "youtube.com/") (js "https://example.com/watch?v=dQw4w9WgXcQ") = false
  /\ includes (js "youtu.be/") (js "https://example.com/watch?v=dQw4w9WgXcQ") = false
  /\ extractVideoId (js "https://example.com/watch?v=dQw4w9WgXcQ") =
     Throw (js "Invalid YouTube URL").
Proof.
  split; [reflexivity|]. split; [reflexivity|].
  exact (extractVideoId_rejects_other_urls
           (js "https://example.com/watch?v=dQw4w9WgXcQ") eq_refl eq_refl).
Defined.

(** X7, on the three links of the sample video, each with a time
    parameter after the id. *)
Lemma extractVideoId_of_links_run :
  List.length sampleId = 11%nat
  /\ forallb idChar sampleId = true
  /\ forallb notSlash (js "&t=42s") = true
  /\ includes (js "v=") (js "&t=42s") = false
  /\ extractVideoId (js "https://youtu.be/" ++ sampleId ++ js "&t=42s") = Ok sampleId
  /\ extractVideoId (js "https://www.youtube.com/embed/" ++ sampleId ++ js "&t=42s") =
     Ok sampleId
  /\ extractVideoId (js "https://www.youtube.com/watch?v=" ++ sampleId ++ js "&t=42s") =
     Ok sampleId.
Proof.
  destruct (extractVideoId_of_links sampleId (js "&t=42s") eq_refl eq_refl)
    as (Hshort & Hembed & Hwatch).
  split; [reflexivity|]. split; [reflexivity|]. split; [reflexivity|].
  split; [reflexivity|]. split; [exact Hshort|].
  split; [exact (Hembed eq_refl) | exact (Hwatch eq_refl eq_refl)].
Defined.




(** X11, on a watch page with one video and one audio format. *)
Lemma formats_handler_splits_by_type_on_youtube_run :
  exists response,
    formatsHandler (sampleProgram mixedStreams mainPageGone) (queryFor watchLink) =
      Ok response
    /\ map quality (listed response) = [js "720p"; js "tiny"]
    /\ option_map (fun r => map quality (listed r))
         (match formatsHandler (sampleProgram mixedStreams mainPageGone)
                  (typedQuery watchLink audio) with
          | Ok r => Some r
          | Throw _ => None
          end) = Some [js "tiny"].
Proof.
  destruct (formatsHandler (sampleProgram mixedStreams mainPageGone)
              (queryFor watchLink)) as [response|m] eqn:E;
    [|vm_compute in E; discriminate E].
  exists response; split; [reflexivity|].
  split; [vm_compute in E; injection E as <-; reflexivity|].
  unfold sampleProgram in *.
  rewrite (formats_handler_splits_by_type_on_youtube
             (fixedEnv nothingFound nothingFound)
             (watchNet (Response 200 (watchPage mixedStreams)))
             (landsOn shortLocation) mainPageGone
             (queryFor watchLink) (typedQuery watchLink audio) watchLink response audio
             eq_refl eq_refl eq_refl E eq_refl eq_refl).
  vm_compute in E; injection E as <-; reflexivity.
Defined.

(** X12, on a TikTok page that names two videos. *)
Lemma tiktok_result_is_well_formed_run :
  exists r,
    extractTikTokVideo (fun u => Ok u)
      (onlyPage tiktokUrl 200 (mkBody repeatingHtml None)) tiktokUrl = Ok r
    /\ title r = js "Untitled TikTok Video"
    /\ formats r <> []
    /\ Forall (fun f => format f = js "mp4" /\ type f = video /\ size f = Num 0)
         (formats r).
Proof.
  destruct (extractTikTokVideo (fun u => Ok u)
              (onlyPage tiktokUrl 200 (mkBody repeatingHtml None)) tiktokUrl)
    as [r|m] eqn:E; [|vm_compute in E; discriminate E].
  exists r; split; [reflexivity|].
  destruct (tiktok_result_is_well_formed _ _ _ _ E) as (_ & _ & _ & Hne & Hall).
  split; [vm_compute in E; injection E as <-; reflexivity|].
  split; [exact Hne|].
  revert Hall; apply Forall_impl; intros f H; tauto.
Defined.

(** X13, on the answer of the API, which names the version without
    watermark first. *)
Lemma tiktok_formats_in_discovery_order_run :
  exists info,
    fetchTikTokInfo
      (threePages tiktokUrl (Response 200 (mkBody blankHtml None))
         (Response 200 (mkBody blankHtml None)) (Response 200 apiBody))
      tiktokUrl = Ok info
    /\ map quality (info_formats info) =
       [js "original (no watermark)"; js "original (watermark)"]
    /\ sort byWatermarkThenSize (info_formats info) = info_formats info.
Proof.
  destruct (fetchTikTokInfo
              (threePages tiktokUrl (Response 200 (mkBody blankHtml None))
                 (Response 200 (mkBody blankHtml None)) (Response 200 apiBody))
              tiktokUrl) as [info|m] eqn:E; [|vm_compute in E; discriminate E].
  exists info; split; [reflexivity|].
  destruct (tiktok_formats_in_discovery_order _ _ _ E) as (_ & _ & _ & _ & Hsame).
  split; [vm_compute in E; injection E as <-; reflexivity | exact Hsame].
Defined.

(** X14, on a page that names a video, with and without an embed page
    and an API behind it. *)
Lemma formats_on_the_page_end_the_chain_run :
  extractFormats repeatingHtml (extractVideoData repeatingHtml) <> []
  /\ fetchTikTokInfo (onlyPage tiktokUrl 200 (mkBody repeatingHtml None)) tiktokUrl =
     fetchTikTokInfo
       (threePages tiktokUrl (Response 200 (mkBody repeatingHtml None))
          (Response 200 (mkBody embedHtml None)) (Response 200 apiBody))
       tiktokUrl.
Proof.
  assert (H : extractFormats repeatingHtml (extractVideoData repeatingHtml) <> [])
    by (vm_compute; discriminate).
  split; [exact H|].
  exact (proj1 (formats_on_the_page_end_the_chain
                  (onlyPage tiktokUrl 200 (mkBody repeatingHtml None))
                  (threePages tiktokUrl (Response 200 (mkBody repeatingHtml None))
                     (Response 200 (mkBody embedHtml None)) (Response 200 apiBody))
                  tiktokUrl 200 (mkBody repeatingHtml None) eq_refl eq_refl) H).
Defined.

(** X15, on a short link whose page names no video: the embed page and
    the API of [threePages] are never asked. *)
Lemma url_without_video_segment_has_one_strategy_run :
  sanitizeTikTokUrl (landsOn shortLocation) shortLink = Ok shortLink
  /\ includes (js "/video/") shortLink = false
  /\ extractTikTokVideo (sanitizeTikTokUrl (landsOn shortLocation))
       (threePages shortLink (Response 200 (mkBody blankHtml None))
          (Response 200 (mkBody embedHtml None)) (Response 200 apiBody))
       shortLink =
     Throw (js "Failed to extract TikTok video: " ++ js "No video formats found").
Proof.
  split; [reflexivity|]. split; [reflexivity|].
  exact (proj2 (proj2 (proj2
           (url_without_video_segment_has_one_strategy
              (sanitizeTikTokUrl (landsOn shortLocation))
              (threePages shortLink (Response 200 (mkBody blankHtml None))
                 (Response 200 (mkBody embedHtml None)) (Response 200 apiBody))
              shortLink shortLink 200 (mkBody blankHtml None)
              eq_refl eq_refl eq_refl eq_refl))) eq_refl).
Defined.


(** X17, on the sample watch page: the mp4 format of the two comes back
    with the title and the thumbnail of the extraction. *)
Lemma extractVideo_returns_what_was_extracted_run :
  exists r m,
    extractVideo (sampleProgram videoStreams mainPageGone) (requestFor watchLink) = Ok r
    /\ YouTubePage.extractYouTubeVideo
         (watchNet (Response 200 (watchPage videoStreams))) watchLink
         (Some (js "mp4")) (Some (js "highest")) = Ok m
    /\ title r = title m /\ thumbnail r = thumbnail m
    /\ map quality (formats r) = [js "1080p60"]
    /\ (forall f, In f (formats r) -> In f (formats m)).
Proof.
  destruct (extractVideo (sampleProgram videoStreams mainPageGone)
              (requestFor watchLink)) as [r|e] eqn:E;
    [|vm_compute in E; discriminate E].
  destruct (extractVideo_returns_what_was_extracted
              (sampleProgram videoStreams mainPageGone) (requestFor watchLink)
              watchLink r eq_refl E)
    as (m & [[_ Hm]|[Hbad _]] & Ht & _ & _ & Hth & Hin);
    [|vm_compute in Hbad; discriminate Hbad].
  exists r, m; split; [reflexivity|]. split; [exact Hm|].
  split; [exact Ht|]. split; [exact Hth|].
  split; [vm_compute in E; injection E as <-; reflexivity | exact Hin].
Defined.

(** X18, on the sample watch page and a request with [download]. *)
Lemma downloadUrl_is_the_first_format_run :
  exists r first rest,
    extractVideo (sampleProgram videoStreams mainPageGone) (downloadRequest watchLink) =
      Ok r
    /\ formats r = first :: rest
    /\ downloadUrl r = Some (url first)
    /\ url first = js "https://r1.googlevideo.com/1080".
Proof.
  destruct (extractVideo (sampleProgram videoStreams mainPageGone)
              (downloadRequest watchLink)) as [r|e] eqn:E;
    [|vm_compute in E; discriminate E].
  destruct (proj1 (proj2 (downloadUrl_is_the_first_format
                            (sampleProgram videoStreams mainPageGone)
                            (downloadRequest watchLink) watchLink r eq_refl E))
              eq_refl eq_refl) as (first & rest & Hf & Hd & _).
  exists r, first, rest; split; [reflexivity|].
  split; [exact Hf|]. split; [exact Hd|].
  vm_compute in E; injection E as <-.
  injection Hf as <- _; reflexivity.
Defined.

(** X20, on a TikTok page that names two videos and a query for audio. *)
Lemma formats_handler_ignores_type_on_tiktok_run :
  exists response,
    formatsHandler
      (sampleProgram videoStreams (onlyPage tiktokUrl 200 (mkBody repeatingHtml None)))
      (typedQuery tiktokUrl audio) = Ok response
    /\ platform response = tiktok
    /\ Forall (fun f => type f = video) (listed response)
    /\ formatsHandler
         (sampleProgram videoStreams (onlyPage tiktokUrl 200 (mkBody repeatingHtml None)))
         (queryFor tiktokUrl) = Ok response.
Proof.
  destruct (formatsHandler
              (sampleProgram videoStreams
                 (onlyPage tiktokUrl 200 (mkBody repeatingHtml None)))
              (typedQuery tiktokUrl audio)) as [response|m] eqn:E;
    [|vm_compute in E; discriminate E].
  destruct (formats_handler_ignores_type_on_tiktok
              (fixedEnv nothingFound nothingFound)
              (watchNet (Response 200 (watchPage videoStreams)))
              (landsOn shortLocation)
              (onlyPage tiktokUrl 200 (mkBody repeatingHtml None))
              (typedQuery tiktokUrl audio) tiktokUrl response eq_refl eq_refl E)
    as (Hp & Hv & _ & Hany).
  exists response; split; [reflexivity|]. split; [exact Hp|]. split; [exact Hv|].
  exact (Hany (queryFor tiktokUrl) eq_refl).
Defined.

Lemma sanitizeTikTokUrl_keeps_the_id_parameters_run :
  exists query,
    sanitizeTikTokUrl (landsOn trackedLocation) shortLink =
      Ok (js "https://www.tiktok.com/@u/video/7" ++ query ++ js "#top")
    /\ URLSearchParams query = [(js "id", js "a b")]
    /\ (query = [] \/ exists q, query = js "?" ++ q /\ q <> []).
Proof.
  assert (Hvm : loc_hostname trackedLocation <> js "vm.tiktok.com")
    by (vm_compute; discriminate).
  assert (Hvt : loc_hostname trackedLocation <> js "vt.tiktok.com")
    by (vm_compute; discriminate).
  exact (proj2 (proj2 (sanitizeTikTokUrl_keeps_the_id_parameters
                         (landsOn trackedLocation) shortLink))
           trackedLocation eq_refl Hvm Hvt).
Defined.

Lemma toVideoFormat_reads_the_mime_type_run :
  exists f,
    YouTube.toVideoFormat webmDescriptor = Some f
    /\ mimeType f = js "video/webm"
    /\ format f = js "webm"
    /\ type f = video
    /\ url f = js "https://r1.googlevideo.com/2160"
    /\ quality f = js "2160p".
Proof.
  assert (Hurl : YouTube.finalUrl webmDescriptor <> []) by (vm_compute; discriminate).
  exact (toVideoFormat_reads_the_mime_type webmDescriptor
           (js "video") (js "webm") (js "; codecs=vp9")
           eq_refl eq_refl eq_refl eq_refl
           (or_intror (ex_intro _ (js " codecs=vp9") eq_refl))
           eq_refl Hurl).
Defined.

Lemma video_segment_names_the_embed_and_api_urls_run :
  videoIdOf (js "https://www.tiktok.com/@u/video/7?lang=en") = Some (js "7")
  /\ getEmbedUrl (js "https://www.tiktok.com/@u/video/7?lang=en") =
     Some (js "https://www.tiktok.com/embed/v2/7").
Proof.
  pose proof (video_segment_names_the_embed_and_api_urls
                (js "https://www.tiktok.com/@u") (js "7") (js "?lang=en")
                eq_refl eq_refl eq_refl
                (or_intror (ex_intro _ (js "lang=en") eq_refl)))
    as (Hid & Hembed & _).
  split; [exact Hid|exact Hembed].
Defined.
